(** * Markdown2GDocsAddon: the Markdown parser of the add-on, verified

    A shallow embedding of [MarkdownParser.js] (the buffered-context
    [parseAndInsertMarkdown] and its helpers, and the
    [parseAndInsertMarkdown] that dispatches on the line type), of
    [MarkdownUtils.js] and of the Markdown helpers of [Utils.js].

    - A JavaScript string is the list of its UTF-16 code units.
    - The document body is write-only for the parser: every call on [body]
      is recorded, in order, as one [Op].
    - The module-level tables [footnotes] and [referenceLinks] are plain
      JavaScript objects used as maps; they are threaded explicitly through
      the calls as [Globals].

    Patterns are quoted in the comments as the source writes them, but for a
    blank put between a star and a closing parenthesis. *)

From Stdlib Require Import NArith ZArith QArith Strings.String Strings.Ascii List Bool Lia.
From stdpp Require Import base option list gmap.
Import ListNotations.

Local Open Scope N_scope.
Local Open Scope list_scope.

(** ** JavaScript strings *)

Module JS.

Definition char := N.
Definition jsstring := list char.

(** A literal: the code units of an ASCII string. *)
Definition str (s : string) : jsstring :=
  List.map N_of_ascii (list_ascii_of_string s).

Definition nl : char := 10.

Definition beq (a b : char) : bool := N.eqb a b.

(** ECMAScript [WhiteSpace] and [LineTerminator] code units: what [\s]
    matches and what [trim] strips. *)
Definition isWhiteSpace (c : char) : bool :=
  (9 <=? c) && (c <=? 13)
  || (c =? 32) || (c =? 160) || (c =? 5760)
  || (8192 <=? c) && (c <=? 8202)
  || (c =? 8232) || (c =? 8233) || (c =? 8239) || (c =? 8287)
  || (c =? 12288) || (c =? 65279).

(** [LineTerminator]: the code units [.] does not match. *)
Definition isLineTerminator (c : char) : bool :=
  (c =? 10) || (c =? 13) || (c =? 8232) || (c =? 8233).

(** [\d] and [\w]. *)
Definition isDigit (c : char) : bool := (48 <=? c) && (c <=? 57).
Definition isWordChar (c : char) : bool :=
  isDigit c || (65 <=? c) && (c <=? 90) || (97 <=? c) && (c <=? 122) || (c =? 95).

Fixpoint dropWhile (p : char -> bool) (s : jsstring) : jsstring :=
  match s with
  | c :: s' => if p c then dropWhile p s' else s
  | [] => []
  end.

Fixpoint takeWhile (p : char -> bool) (s : jsstring) : jsstring :=
  match s with
  | c :: s' => if p c then c :: takeWhile p s' else []
  | [] => []
  end.

(** [String.prototype.trim]. *)
Definition trimStart (s : jsstring) : jsstring := dropWhile isWhiteSpace s.
Definition trimEnd (s : jsstring) : jsstring := rev (dropWhile isWhiteSpace (rev s)).
Definition trim (s : jsstring) : jsstring := trimEnd (trimStart s).

(** [s.startsWith(p)]; on a match the rest of [s] is returned. *)
Fixpoint stripPrefix (p s : jsstring) : option jsstring :=
  match p, s with
  | [], _ => Some s
  | a :: p', b :: s' => if beq a b then stripPrefix p' s' else None
  | _ :: _, [] => None
  end.

Definition startsWith (p s : jsstring) : bool :=
  match stripPrefix p s with Some _ => true | None => false end.

(** [s.split(sep)] for a one-character separator: never the empty list. *)
Fixpoint split (sep : char) (s : jsstring) : list jsstring :=
  match s with
  | [] => [[]]
  | c :: s' =>
      if beq c sep then [] :: split sep s'
      else match split sep s' with
           | l :: ls => (c :: l) :: ls
           | [] => [[c]]
           end
  end.

(** [lines.join(sep)]. *)
Fixpoint join (sep : jsstring) (ls : list jsstring) : jsstring :=
  match ls with
  | [] => []
  | [l] => l
  | l :: ls' => l ++ sep ++ join sep ls'
  end.

(** [s.indexOf(t)]: the first position at which [t] occurs, or -1. *)
Fixpoint indexOfFrom (t s : jsstring) (i : Z) : Z :=
  if startsWith t s then i
  else match s with
       | [] => (-1)%Z
       | _ :: s' => indexOfFrom t s' (i + 1)%Z
       end.

Definition indexOf (t s : jsstring) : Z := indexOfFrom t s 0%Z.

(** A letter, a digit or a space: the characters of plain words. *)
Definition plainChar (c : char) : bool :=
  isDigit c || (65 <=? c) && (c <=? 90) || (97 <=? c) && (c <=? 122) || (c =? 32).

(** A line: a string without a newline. *)
Definition noNewline (l : jsstring) : bool := forallb (fun c => negb (beq c nl)) l.

(** A truthy string: non-empty. *)
Definition truthy (s : jsstring) : bool :=
  match s with [] => false | _ :: _ => true end.

(** Scanning with a global ([/re/g]) pattern that never matches the empty
    string.  [m s] tries the pattern at the start of [s] and gives the data
    of the match and its length.  The scan yields, left to right, the
    characters outside every match and the matches; after a match it resumes
    behind it: [skip] counts the matched characters still to pass over. *)
Fixpoint scan {D : Type} (m : jsstring -> option (D * nat))
    (skip : nat) (s : jsstring) : list (char + D) :=
  match s with
  | [] => []
  | c :: s' =>
      match skip with
      | S k => scan m k s'
      | O =>
          match m s with
          | Some (d, len) => inr d :: scan m (Nat.pred len) s'
          | None => inl c :: scan m O s'
          end
      end
  end.

(** [s.replace(/re/g, f)]. *)
Definition replaceAll {D : Type} (m : jsstring -> option (D * nat))
    (f : D -> jsstring) (s : jsstring) : jsstring :=
  List.concat (List.map (fun p => match p with inl c => [c] | inr d => f d end)
                 (scan m O s)).

(** [[...s.matchAll(/re/g)]]: the matches, in order. *)
Definition matchAll {D : Type} (m : jsstring -> option (D * nat)) (s : jsstring) : list D :=
  List.concat (List.map (fun p => match p with inl _ => [] | inr d => [d] end)
                 (scan m O s)).

End JS.

(** ** Regular expressions

    Backtracking matchers in continuation-passing style: a pattern takes the
    matcher of what follows it and gives the matcher of the whole.  A matcher
    is tried at the start of its input; the first alternative that lets the
    continuation succeed wins, which is the priority order of ECMAScript
    (greedy quantifiers try the longest repetition first, lazy ones the
    shortest). *)

Module Re.
Import JS.

Definition K (A : Type) := jsstring -> option A.
Definition Pat (A : Type) := K A -> K A.

(** A literal. *)
Definition lit {A} (p : jsstring) : Pat A :=
  fun k s => match stripPrefix p s with Some r => k r | None => None end.

(** One character of a class. *)
Definition one {A} (p : char -> bool) : Pat A :=
  fun k s => match s with
             | c :: s' => if p c then k s' else None
             | [] => None
             end.

(** [c*], greedy. *)
Fixpoint star {A} (p : char -> bool) (k : K A) (s : jsstring) : option A :=
  match s with
  | c :: s' =>
      if p c then match star p k s' with Some r => Some r | None => k s end
      else k s
  | [] => k []
  end.

(** [c*?], lazy. *)
Fixpoint starLazy {A} (p : char -> bool) (k : K A) (s : jsstring) : option A :=
  match k s with
  | Some r => Some r
  | None => match s with
            | c :: s' => if p c then starLazy p k s' else None
            | [] => None
            end
  end.

(** [c+], greedy. *)
Definition plus {A} (p : char -> bool) : Pat A := fun k => one p (star p k).

(** [c{lo,lo+extra}], greedy. *)
Fixpoint upTo {A} (extra : nat) (p : char -> bool) (k : K A) (s : jsstring) : option A :=
  match extra with
  | O => k s
  | S e => match s with
           | c :: s' =>
               if p c then match upTo e p k s' with Some r => Some r | None => k s end
               else k s
           | [] => k []
           end
  end.

Fixpoint exactly {A} (n : nat) (p : char -> bool) (k : K A) : K A :=
  match n with
  | O => k
  | S n' => one p (exactly n' p k)
  end.

Definition between {A} (lo hi : nat) (p : char -> bool) : Pat A :=
  fun k => exactly lo p (upTo (hi - lo) p k).

(** [a|b]. *)
Definition alt {A} (a b : Pat A) : Pat A :=
  fun k s => match a k s with Some r => Some r | None => b k s end.

(** [(?:a)?], greedy. *)
Definition opt {A} (a : Pat A) : Pat A := alt a (fun k => k).

(** [$] without the [m] flag: the end of the input. *)
Definition eos {A} : Pat A :=
  fun k s => match s with [] => k [] | _ :: _ => None end.

(** A capture group: the text the group consumed is handed to what
    follows. *)
Definition capture {A} (a : Pat A) (k : jsstring -> K A) : K A :=
  fun s => a (fun r => k (List.firstn (List.length s - List.length r) s) r) s.

(** The pattern tried at every position, left to right (no [^]). *)
Fixpoint search {A} (k : K A) (s : jsstring) : option A :=
  match k s with
  | Some r => Some r
  | None => match s with
            | _ :: s' => search k s'
            | [] => None
            end
  end.

(** The final continuation of a test. *)
Definition accept : K unit := fun _ => Some tt.

Definition test (k : K unit) (s : jsstring) : bool :=
  match k s with Some _ => true | None => false end.

(** The final continuation of a match used by [scan]: the data and the rest
    of the input, turned into the data and the length of the match. *)
Definition found {D} (d : D) : K (D * jsstring) := fun r => Some (d, r).

Definition matchLen {D} (k : K (D * jsstring)) (s : jsstring) : option (D * nat) :=
  match k s with
  | Some (d, r) => Some (d, (List.length s - List.length r)%nat)
  | None => None
  end.

(** [.]: any character but a line terminator. *)
Definition dot (c : char) : bool := negb (isLineTerminator c).

End Re.

(** ** The module-level tables

    [let footnotes = {}] and [let referenceLinks = {}] are ordinary objects:
    a read [o[k]] that finds no own property goes on to the prototype chain,
    and writing the key [__proto__] sets the prototype (when the value is an
    object) instead of adding a property. *)

Module Tables.
Import JS.

#[global] Typeclasses Transparent jsstring char.

(** The property names every object inherits from [Object.prototype]. *)
Definition objectPrototypeKeys : list jsstring :=
  List.map str
    [ "constructor"; "__defineGetter__"; "__defineSetter__"; "hasOwnProperty";
      "__lookupGetter__"; "__lookupSetter__"; "isPrototypeOf";
      "propertyIsEnumerable"; "toString"; "valueOf"; "__proto__";
      "toLocaleString" ]%string.

Definition protoKey : jsstring := str "__proto__".

Definition isInherited (k : jsstring) : bool :=
  bool_decide (k ∈ objectPrototypeKeys).

(** *** [footnotes]: identifier to definition text *)

Abbreviation Footnotes := (gmap (list N) (list N)).

(** What [footnotes[k]] evaluates to when it is not [undefined]. *)
Inductive FootnoteValue :=
| FootText (text : jsstring)
| FootInherited (key : jsstring).

(** [footnotes[k] = v] for a string [v]: a primitive written to [__proto__]
    is ignored. *)
Definition setFootnote (k v : jsstring) (t : Footnotes) : Footnotes :=
  if bool_decide (k = protoKey) then t else <[k := v]> t.

(** [footnotes[k]]; [None] is [undefined]. *)
Definition getFootnote (t : Footnotes) (k : jsstring) : option FootnoteValue :=
  match t !! k with
  | Some v => Some (FootText v)
  | None => if isInherited k then Some (FootInherited k) else None
  end.

Definition footnoteTruthy (v : option FootnoteValue) : bool :=
  match v with
  | Some (FootText t) => truthy t
  | Some (FootInherited _) => true
  | None => false
  end.

(** *** [referenceLinks]: identifier to [{url, title}] *)

Record LinkDef := { url : jsstring; title : jsstring }.

Record ReferenceLinks := {
  own : gmap (list N) LinkDef;
  proto : option LinkDef   (* the object [__proto__] was last set to *)
}.

Definition noReferenceLinks : ReferenceLinks := {| own := ∅; proto := None |}.

(** What [referenceLinks[k]] evaluates to when it is not [undefined]. *)
Inductive LinkValue :=
| LinkObject (d : LinkDef)       (* a definition *)
| LinkString (s : jsstring)      (* [url] or [title] of a prototype set by a definition *)
| LinkInherited (key : jsstring). (* a member of [Object.prototype] *)

(** [referenceLinks[k] = d]. *)
Definition setLink (k : jsstring) (d : LinkDef) (t : ReferenceLinks) : ReferenceLinks :=
  if bool_decide (k = protoKey) then {| own := own t; proto := Some d |}
  else {| own := <[k := d]> (own t); proto := proto t |}.

(** [referenceLinks[k]]; [None] is [undefined]. *)
Definition getLink (t : ReferenceLinks) (k : jsstring) : option LinkValue :=
  match own t !! k with
  | Some d => Some (LinkObject d)
  | None =>
      match proto t with
      | Some d =>
          if bool_decide (k = protoKey) then Some (LinkObject d)
          else if bool_decide (k = str "url") then Some (LinkString (url d))
          else if bool_decide (k = str "title") then Some (LinkString (title d))
          else if isInherited k then Some (LinkInherited k) else None
      | None => if isInherited k then Some (LinkInherited k) else None
      end
  end.

Definition linkTruthy (v : option LinkValue) : bool :=
  match v with
  | Some (LinkObject _) => true
  | Some (LinkString s) => truthy s
  | Some (LinkInherited _) => true
  | None => false
  end.

(** [`${v.url}`]: the text of the [url] property, [undefined] when there is
    none. *)
Definition urlText (v : option LinkValue) : jsstring :=
  match v with
  | Some (LinkObject d) => url d
  | _ => str "undefined"
  end.

Record Globals := {
  footnotes : Footnotes;
  referenceLinks : ReferenceLinks
}.

(** The tables as the script leaves them when it is loaded. *)
Definition freshGlobals : Globals :=
  {| footnotes := ∅; referenceLinks := noReferenceLinks |}.

End Tables.

(** ** What the parser does to the document *)

Module Doc.
Import JS.

Inductive Alignment := LEFT | CENTER | RIGHT.

(** A table cell: its text and its [HORIZONTAL_ALIGNMENT] attribute. *)
Definition Cell : Type := jsstring * Alignment.

Inductive Op :=
| CursorInsertText (text : jsstring)             (* cursor.insertText, setBold(false) *)
| AppendParagraph (text : jsstring)              (* body.appendParagraph, no attribute *)
| IndentedParagraph (text : jsstring) (indentStart : Q)
| CodeBlock (rawText : jsstring)
| HorizontalRule
| Image (imageUrl : jsstring)
| BlockquoteBlock (text : jsstring)
| Heading (level : nat) (text : jsstring)
| ListItem (text : jsstring) (ordered : bool) (nestingLevel : Z)
| TableBlock (header : list Cell) (rows : list (list Cell))
| FootnoteRef (content : Tables.FootnoteValue)   (* body.appendFootnote *)
| LinkParagraph (text : jsstring) (linkUrl : option jsstring).

(** A run: a span of text with one set of inline style flags. *)
Record StyledRun := {
  runText : jsstring;
  runBold : bool;
  runItalic : bool;
  runStrikethrough : bool
}.

(** The runs of the text an operation puts into the document.
    MarkdownParser.js never sets a bold, italic or strikethrough attribute to
    [true]: the text of a paragraph is one run with no flag set. *)
Definition runs (op : Op) : list StyledRun :=
  let plain t :=
    [{| runText := t; runBold := false; runItalic := false; runStrikethrough := false |}] in
  match op with
  | CursorInsertText t => plain t
  | AppendParagraph t => plain t
  | IndentedParagraph t _ => plain t
  | CodeBlock t => plain t
  | BlockquoteBlock t => plain t
  | Heading _ t => plain t
  | ListItem t _ _ => plain t
  | LinkParagraph t _ => plain t
  | TableBlock header rows =>
      List.concat (List.map (fun c => plain (fst c)) (header ++ List.concat rows))
  | HorizontalRule => []
  | Image _ => []
  | FootnoteRef _ => []
  end.

(** The nesting levels of the list items among the operations, in order. *)
Definition nestingLevels (ops : list Op) : list Z :=
  List.concat (List.map (fun op => match op with
                                   | ListItem _ _ level => [level]
                                   | _ => []
                                   end) ops).

(** Levels that start at most at [bound], are never negative and rise by at
    most one from an item to the next. *)
Fixpoint levelsClimb (bound : Z) (levels : list Z) : Prop :=
  match levels with
  | [] => True
  | level :: rest => (0 <= level <= bound)%Z /\ levelsClimb (level + 1) rest
  end.

(** What [doc.getCursor()] and [cursor.insertText] give. *)
Inductive Cursor :=
| NoCursor
| CursorAt (insertSucceeds : bool).

End Doc.

(** ** MarkdownParser.js *)

Module Parser.
Import JS Re Tables Doc.

(** *** The patterns of the file *)

Definition isHash (c : char) : bool := c =? 35.
Definition isDash (c : char) : bool := c =? 45.
Definition notRBracket (c : char) : bool := negb (c =? 93).
Definition notWhiteSpace (c : char) : bool := negb (isWhiteSpace c).
Definition quote : jsstring := [34].

(** [/^#{1,6}\s/] *)
Definition isHeading (line : jsstring) : bool :=
  test (between 1 6 isHash (one isWhiteSpace accept)) line.

(** [(\-|\*|\+|\d+\.)] *)
Definition listMarker {A} : Pat A :=
  alt (lit (str "-")) (alt (lit (str "*")) (alt (lit (str "+"))
    (fun k => plus isDigit (lit (str ".") k)))).

(** [/^\s*(\-|\*|\+|\d+\.)\s/] *)
Definition isList (line : jsstring) : bool :=
  test (star isWhiteSpace (listMarker (one isWhiteSpace accept))) line.

(** [/\|/.test(line) && (line.trim().indexOf('|') === 0 ||
    /^[\|\s:\-]+$/.test(line.trim()))] *)
Definition isTableChar (c : char) : bool :=
  (c =? 124) || isWhiteSpace c || (c =? 58) || (c =? 45).

Definition isTable (line : jsstring) : bool :=
  test (search (lit (str "|") accept)) line
  && ((indexOf (str "|") (trim line) =? 0)%Z
      || test (plus isTableChar (eos accept)) (trim line)).

(** [/^\s*>/] *)
Definition isBlockquote (line : jsstring) : bool :=
  test (star isWhiteSpace (lit (str ">") accept)) line.

(** [/!\[.*\]\(.*\)/] *)
Definition isImage (line : jsstring) : bool :=
  test (search (lit (str "![") (star dot (lit (str "](") (star dot
          (lit (str ")") accept)))))) line.

(** [line.match(/!\[.*\]\((.* )\)/)], [match ? match[1] : null] *)
Definition extractImageUrl (line : jsstring) : option jsstring :=
  search (lit (str "![") (star dot (lit (str "](")
            (capture (star dot) (fun u => lit (str ")") (fun _ => Some u)))))) line.

(** [s.replace(/^re/, '')] for a pattern anchored at the start: what is left
    behind the match, or [s] itself when there is none. *)
Definition stripMatch (p : Pat jsstring) (s : jsstring) : jsstring :=
  match p (fun r => Some r) s with
  | Some r => r
  | None => s
  end.

(** *** Code blocks, headings, rules *)

Definition insertCodeBlock (code : jsstring) : list Op := [CodeBlock (trim code)].

Definition insertHorizontalRule : list Op := [HorizontalRule].

(** [line.match(/^#+/)[0].length] and [line.replace(/^#+\s/, '')]; the
    caller has checked [isHeading], so the match exists. *)
Definition insertHeading (line : jsstring) : list Op :=
  let level := List.length (takeWhile isHash line) in
  let text := stripMatch (fun k => plus isHash (one isWhiteSpace k)) line in
  [Heading level text].

(** [UrlFetchApp.fetch(imageUrl)] and [body.appendImage]; a failed fetch is
    caught and logged. *)
Definition insertImage (imageUrl : jsstring) : list Op := [Image imageUrl].

(** [insertLink(body, line)] is the function of Utils.js called without
    its third argument: [url] is [undefined]. *)
Definition insertLink (text : jsstring) (linkUrl : option jsstring) : list Op :=
  [LinkParagraph text linkUrl].

(** *** Lists *)

Record ListDetails := { indentLevel : Q; isOrdered : bool }.

(** [line.match(/^\s*/)[0].length / 2] and [/^\s*\d+\./.test(line)] *)
Definition getListDetails (line : jsstring) : ListDetails :=
  {| indentLevel := (inject_Z (Z.of_nat (List.length (takeWhile isWhiteSpace line))) / 2)%Q;
     isOrdered := test (star isWhiteSpace (plus isDigit (lit (str ".") accept))) line |}.

(** The [while] loop of [insertList]: frames whose [indentLevel] is at least
    that of the current line are popped, and [currentNestingLevel] goes down
    with each.  The stack holds the [indentLevel] of each frame, the top of
    the stack first. *)
Fixpoint popFrames (listItemStack : list Q) (currentNestingLevel : Z) (lvl : Q)
    : list Q * Z :=
  match listItemStack with
  | top :: below =>
      if Qle_bool lvl top then popFrames below (currentNestingLevel - 1)%Z lvl
      else (listItemStack, currentNestingLevel)
  | [] => ([], currentNestingLevel)
  end.

(** The body of [lines.forEach] in [insertList]. *)
Fixpoint insertListLines (listItemStack : list Q) (currentNestingLevel : Z)
    (lines : list jsstring) : list Op :=
  match lines with
  | [] => []
  | line :: rest =>
      if isList line then
        let listDetails := getListDetails line in
        let text := stripMatch (fun k => listMarker (one isWhiteSpace k)) (trim line) in
        let '(stack, level) :=
          popFrames listItemStack currentNestingLevel (indentLevel listDetails) in
        let stack' := indentLevel listDetails :: stack in
        ListItem text (isOrdered listDetails) level
          :: insertListLines stack' (Z.of_nat (List.length stack')) rest
      else insertListLines listItemStack currentNestingLevel rest
  end.

(** [insertList(body, line)]: the stack and the level are local to the
    call. *)
Definition insertList (line : jsstring) : list Op :=
  insertListLines [] 0%Z (split nl line).

(** *** Tables *)

Definition pipe : char := 124.

(** The callback of [alignLine.map]. *)
Definition cellAlignment (cell : jsstring) : Alignment :=
  if test (search (lit (str ":") (plus isDash (lit (str ":") accept)))) cell then CENTER
  else if test (search (plus isDash (lit (str ":") accept))) cell then RIGHT
  else LEFT.




(** [row.split('|').filter(cell => cell.trim())] *)
Definition nonBlankCells (row : jsstring) : list jsstring :=
  List.filter (fun cell => truthy (trim cell)) (split pipe row).

(** [row.split('|').filter(cell => cell)] *)
Definition nonEmptyCells (row : jsstring) : list jsstring :=
  List.filter truthy (split pipe row).

(** [const alignments = alignLine.map(...)] *)
Definition tableAlignments (alignRow : jsstring) : list Alignment :=
  List.map cellAlignment (nonBlankCells alignRow).

(** [alignments[columnIndex] || LEFT] *)
Definition alignmentAt (alignments : list Alignment) (columnIndex : nat) : Alignment :=
  List.nth columnIndex alignments LEFT.

(** The cells of one row, each with the alignment of its column. *)
Definition tableRow (alignments : list Alignment) (cells : list jsstring) : list Cell :=
  List.map (fun ic => (trim (snd ic), alignmentAt alignments (fst ic)))
    (List.combine (List.seq 0 (List.length cells)) cells).

Definition insertTable (tableLines : list jsstring) : list Op :=
  if (List.length tableLines <? 3)%nat then []
  else
    let headerLine := nonBlankCells (List.nth 0 tableLines []) in
    let alignments := tableAlignments (List.nth 1 tableLines []) in
    [TableBlock (tableRow alignments headerLine)
       (List.map (fun row => tableRow alignments (nonEmptyCells row))
          (List.skipn 2 tableLines))].

(** *** Blockquotes *)

Definition insertBlockquote (blockquoteLines : list jsstring) : list Op :=
  [BlockquoteBlock (join [nl] blockquoteLines)].

(** [line.replace(/^>\s?/, '')] *)
Definition stripQuoteMarker (line : jsstring) : jsstring :=
  stripMatch (fun k => lit (str ">") (opt (one isWhiteSpace) k)) line.

(** *** Inline text *)

(** [open(.*?)close], the pattern of every emphasis replacement. *)
Definition delimited (opening closing : jsstring) : K (jsstring * jsstring) :=
  lit opening (capture (starLazy dot) (fun x => lit closing (found x))).

(** [line.replace(/open(.*?)close/g, '<tag>$1</tag>')] *)
Definition simulate (opening closing tag : jsstring) (line : jsstring) : jsstring :=
  replaceAll (matchLen (delimited opening closing))
    (fun x => str "<" ++ tag ++ str ">" ++ x ++ str "</" ++ tag ++ str ">") line.

Definition processAdvancedFormatting (line : jsstring) : jsstring :=
  let line := simulate (str "**") (str "**") (str "b") line in
  let line := simulate (str "__") (str "__") (str "b") line in
  let line := simulate (str "*") (str "*") (str "i") line in
  let line := simulate (str "_") (str "_") (str "i") line in
  let line := simulate (str "~~") (str "~~") (str "strike") line in
  line.

(** [/`([^`]+)`/g] *)
Definition inlineCode : K (jsstring * jsstring) :=
  lit (str "`") (capture (plus (fun c => negb (c =? 96))) (fun p1 =>
    lit (str "`") (found p1))).

(** [line.replace(/`([^`]+)`/g, (match, p1) => '**' + p1 + '**')] *)
Definition processInlineCode (line : jsstring) : jsstring :=
  replaceAll (matchLen inlineCode) (fun p1 => str "**" ++ p1 ++ str "**") line.

(** [/\[\^(\w+)\]/g] *)
Definition footnoteReference : K (jsstring * jsstring) :=
  lit (str "[^") (capture (plus isWordChar) (fun identifier =>
    lit (str "]") (found identifier))).

(** [if (footnotes[identifier]) body.appendFootnote(footnotes[identifier])] *)
Definition insertFootnoteContent (g : Globals) (identifier : jsstring) : list Op :=
  if footnoteTruthy (getFootnote (footnotes g) identifier) then
    match getFootnote (footnotes g) identifier with
    | Some v => [FootnoteRef v]
    | None => []
    end
  else [].

(** The references are replaced by the empty string; the footnotes are
    inserted as the replacement goes, in the order of the references. *)
Definition processFootnotesInText (g : Globals) (text : jsstring) : jsstring * list Op :=
  (replaceAll (matchLen footnoteReference) (fun _ => []) text,
   List.concat (List.map (insertFootnoteContent g) (matchAll (matchLen footnoteReference) text))).

(** [/\[([^\]]+)\]\[(\w+)\]/g] *)
Definition referenceLinkUsage : K ((jsstring * jsstring) * jsstring) :=
  lit (str "[") (capture (plus notRBracket) (fun linkText =>
    lit (str "][") (capture (plus isWordChar) (fun linkId =>
      lit (str "]") (found (linkText, linkId)))))).

(** The callback of the replacement. *)
Definition resolveReferenceLink (g : Globals) (m : jsstring * jsstring) : jsstring :=
  let '(linkText, linkId) := m in
  if linkTruthy (getLink (referenceLinks g) linkId) then
    linkText ++ str " (" ++ urlText (getLink (referenceLinks g) linkId) ++ str ")"
  else linkText.

Definition processReferenceLinksInText (g : Globals) (text : jsstring) : jsstring :=
  replaceAll (matchLen referenceLinkUsage) (resolveReferenceLink g) text.

(** [(line.match(/^(\s+)/) || [''])[0].length / 2], a margin of 36 points
    for each level. *)
Definition insertWithCustomIndentation (line : jsstring) : list Op :=
  let indentLevel :=
    (inject_Z (Z.of_nat (List.length (takeWhile isWhiteSpace line))) / 2)%Q in
  let marginSize := 36%Q in
  [IndentedParagraph (trim line) (Qred (marginSize * indentLevel))].

(** *** The first pass: definitions *)

(** [/^\[\^(\w+)\]:\s*(.* )$/] *)
Definition footnoteDefinition : K (jsstring * jsstring) :=
  lit (str "[^") (capture (plus isWordChar) (fun identifier =>
    lit (str "]:") (star isWhiteSpace (capture (star dot) (fun text =>
      eos (fun _ => Some (identifier, text))))))).

Definition extractFootnoteDefinition (line : jsstring) (g : Globals) : Globals * bool :=
  match footnoteDefinition line with
  | Some (identifier, text) =>
      ({| footnotes := setFootnote identifier text (footnotes g);
          referenceLinks := referenceLinks g |}, true)
  | None => (g, false)
  end.

(** [/^\[(\w+)\]:\s*(\S+)(?:\s+"(.+)")?$/]; the title is [match[3] || ""]. *)
Definition linkDefinition : K (jsstring * LinkDef) :=
  lit (str "[") (capture (plus isWordChar) (fun linkId =>
    lit (str "]:") (star isWhiteSpace (capture (plus notWhiteSpace) (fun u =>
      let finish t := eos (fun _ => Some (linkId, {| url := u; title := t |})) in
      fun s =>
        match plus isWhiteSpace (lit quote (capture (plus dot) (fun t =>
                lit quote (finish t)))) s with
        | Some r => Some r
        | None => finish [] s
        end))))).

Definition extractLinkDefinition (line : jsstring) (g : Globals) : Globals * bool :=
  match linkDefinition line with
  | Some (linkId, d) =>
      ({| footnotes := footnotes g;
          referenceLinks := setLink linkId d (referenceLinks g) |}, true)
  | None => (g, false)
  end.

(** [lines.forEach(line => { extractFootnoteDefinition(line);
    extractLinkDefinition(line); })]: both results are dropped. *)
Definition collectDefinitions (lines : list jsstring) (g : Globals) : Globals :=
  List.fold_left
    (fun g line => fst (extractLinkDefinition line (fst (extractFootnoteDefinition line g))))
    lines g.

(** What the first pass does to each table for one line. *)
Definition writeFootnote (line : jsstring) (t : Footnotes) : Footnotes :=
  match footnoteDefinition line with
  | Some (identifier, text) => setFootnote identifier text t
  | None => t
  end.

Definition writeLink (line : jsstring) (t : ReferenceLinks) : ReferenceLinks :=
  match linkDefinition line with
  | Some (linkId, d) => setLink linkId d t
  | None => t
  end.

(** *** The second pass: the block state machine *)

Record State := {
  inTable : bool;
  tableLines : list jsstring;
  inBlockquote : bool;
  blockquoteLines : list jsstring;
  inCodeBlock : bool;
  codeBlockText : jsstring
}.

Definition initialState : State :=
  {| inTable := false; tableLines := [];
     inBlockquote := false; blockquoteLines := [];
     inCodeBlock := false; codeBlockText := [] |}.

Definition setCode (st : State) (flag : bool) (text : jsstring) : State :=
  {| inTable := inTable st; tableLines := tableLines st;
     inBlockquote := inBlockquote st; blockquoteLines := blockquoteLines st;
     inCodeBlock := flag; codeBlockText := text |}.

Definition setBlockquote (st : State) (flag : bool) (lines : list jsstring) : State :=
  {| inTable := inTable st; tableLines := tableLines st;
     inBlockquote := flag; blockquoteLines := lines;
     inCodeBlock := inCodeBlock st; codeBlockText := codeBlockText st |}.

Definition setTable (st : State) (flag : bool) (lines : list jsstring) : State :=
  {| inTable := flag; tableLines := lines;
     inBlockquote := inBlockquote st; blockquoteLines := blockquoteLines st;
     inCodeBlock := inCodeBlock st; codeBlockText := codeBlockText st |}.

(** The invariant of the loop: a buffer is empty whenever its construct is
    closed. *)
Definition buffersClosed (st : State) : Prop :=
  (inCodeBlock st = false -> codeBlockText st = [])
  /\ (inBlockquote st = false -> blockquoteLines st = [])
  /\ (inTable st = false -> tableLines st = []).

Definition fence : jsstring := str "```".
Definition rule : jsstring := str "---".

Section Conversion.

(** [parseAndInsertMarkdown] calls two functions that no file of the
    repository defines.  They are parameters of the conversion. *)
Variable isLink : jsstring -> bool.
Variable processBlockquote : list jsstring -> list jsstring.

(** The last branch of the loop body: text that is none of the blocks. *)
Definition processText (g : Globals) (st : State) (line : jsstring) : State * list Op :=
  let processedText := processAdvancedFormatting line in
  let '(processedText, notes) := processFootnotesInText g processedText in
  let processedText := processReferenceLinksInText g processedText in
  let ops := notes ++ insertWithCustomIndentation processedText in
  if inBlockquote st then
    (setBlockquote st (inBlockquote st) (blockquoteLines st ++ [processedText]), ops)
  else if negb (inTable st) then (st, ops ++ [AppendParagraph processedText])
  else (st, ops).

(** The body of the second [lines.forEach]: the new state and the calls made
    on [body] for one line. *)
Definition processLine (g : Globals) (st : State) (line : jsstring) : State * list Op :=
  if startsWith fence line then
    if inCodeBlock st then (setCode st false [], insertCodeBlock (trim (codeBlockText st)))
    else (setCode st true (codeBlockText st), [])
  else if inCodeBlock st then
    (setCode st (inCodeBlock st) (codeBlockText st ++ line ++ [nl]), [])
  else if startsWith rule line then (st, insertHorizontalRule)
  else if isImage line then
    if inBlockquote st then
      (setBlockquote st (inBlockquote st) (blockquoteLines st ++ [line]), [])
    else
      match extractImageUrl line with
      | Some imageUrl => if truthy imageUrl then (st, insertImage imageUrl) else (st, [])
      | None => (st, [])
      end
  else if isBlockquote line then
    (setBlockquote st true (blockquoteLines st ++ [stripQuoteMarker line]), [])
  else if negb (truthy (trim line)) && inBlockquote st then
    (setBlockquote st false [], insertBlockquote (processBlockquote (blockquoteLines st)))
  else if isHeading line then (st, insertHeading line)
  else if isList line then (st, insertList line)
  else if isTable line && negb (inTable st) then (setTable st true [line], [])
  else if negb (isTable line) && inTable st then
    (setTable st false [], insertTable (tableLines st))
  else if isTable line && inTable st then
    (setTable st (inTable st) (tableLines st ++ [line]), [])
  else if isLink line then (st, insertLink line None)
  else processText g st line.

(** The second [lines.forEach]. *)
Fixpoint secondPass (g : Globals) (st : State) (lines : list jsstring) : State * list Op :=
  match lines with
  | [] => (st, [])
  | line :: rest =>
      let '(st1, ops1) := processLine g st line in
      let '(st2, ops2) := secondPass g st1 rest in
      (st2, ops1 ++ ops2)
  end.

(** "Finalize open elements at the end of the document". *)
Definition finalize (st : State) : list Op :=
  (if inTable st then insertTable (tableLines st) else [])
  ++ (if inBlockquote st then insertBlockquote (processBlockquote (blockquoteLines st)) else [])
  ++ (if inCodeBlock st then insertCodeBlock (trim (codeBlockText st)) else []).

(** The text is first put into the document as it is. *)
Definition insertRawText (cursor : Cursor) (markdownText : jsstring) : list Op :=
  match cursor with
  | CursorAt true => [CursorInsertText markdownText]
  | CursorAt false => [AppendParagraph markdownText]
  | NoCursor => [AppendParagraph markdownText]
  end.

(** The block operations of the two passes over the lines. *)
Definition convertLines (g : Globals) (lines : list jsstring) : Globals * list Op :=
  let g' := collectDefinitions lines g in
  let '(st, ops) := secondPass g' initialState lines in
  (g', ops ++ finalize st).

(** [parseAndInsertMarkdown(markdownText)]: the tables it leaves behind and
    the calls it makes on the document.  The [let footnotes] and
    [let referenceLinks] of its body are never read: the helpers refer to the
    module-level tables. *)
Definition parseAndInsertMarkdown (cursor : Cursor) (g : Globals) (markdownText : jsstring)
    : Globals * list Op :=
  let lines := split nl markdownText in
  let '(g', ops) := convertLines g lines in
  (g', insertRawText cursor markdownText ++ ops).

End Conversion.

(** Modelled from the spec: [isLink] is called by [parseAndInsertMarkdown]
    and defined nowhere; the spec classifies a line as an inline link by the
    "presence of [text](url) anywhere in the line", the pattern
    [/\[([^\]]+)\]\(([^)]+)\)/] of Utils.js and MarkdownUtils.js. *)
Definition isLinkSpec (line : jsstring) : bool :=
  test (search (lit (str "[") (plus notRBracket (lit (str "](")
          (plus (fun c => negb (c =? 41)) (lit (str ")") accept)))))) line.

(** Modelled from the spec: [processBlockquote] is called by
    [parseAndInsertMarkdown] and defined nowhere; the spec joins the buffered
    lines as they are. *)
Definition processBlockquoteSpec (blockquoteLines : list jsstring) : list jsstring :=
  blockquoteLines.

(** The conversion with the two missing helpers as the specification
    describes them. *)
Abbreviation convert := (parseAndInsertMarkdown isLinkSpec processBlockquoteSpec).
Abbreviation blocks := (secondPass isLinkSpec processBlockquoteSpec).

End Parser.

(** ** MarkdownUtils.js: the patterns and the inline styling *)

Module MarkdownUtils.
Import JS Re Doc.

(** [regex.horizontalRule], [/^-{3,}$/] *)
Definition horizontalRule : K unit :=
  exactly 3 Parser.isDash (star Parser.isDash (eos accept)).

(** [(d)(.*?)\1] for one delimiter [d]; the match carries [match[2]]. *)
Definition emphasis (d : jsstring) : K (jsstring * jsstring) :=
  lit d (capture (starLazy dot) (fun x => lit d (found x))).

Definition either {A} (a b : K A) : K A :=
  fun s => match a s with Some r => Some r | None => b s end.

(** [regex.boldItalic], [regex.bold], [regex.italic], [regex.strikethrough] *)
Definition boldItalic : K (jsstring * jsstring) :=
  either (emphasis (str "***")) (emphasis (str "___")).
Definition bold : K (jsstring * jsstring) :=
  either (emphasis (str "**")) (emphasis (str "__")).
Definition italic : K (jsstring * jsstring) :=
  either (emphasis (str "*")) (emphasis (str "_")).
Definition strikethrough : K (jsstring * jsstring) := emphasis (str "~~").

(** The calls made on [element.editAsText()]; the end index is inclusive. *)
Inductive StyleCall :=
| SetBold (startIndex endIndex : Z)
| SetItalic (startIndex endIndex : Z)
| SetStrikethrough (startIndex endIndex : Z).

Definition calculateMatchIndices (fullText matchText : jsstring) : Z * Z :=
  let startIndex := indexOf matchText fullText in
  let endIndex := (startIndex + Z.of_nat (List.length matchText) - 1)%Z in
  (startIndex, endIndex).

(** [applyBasicFormatting(element, text)]: the text of the element is read
    and never written. *)
Definition applyBasicFormatting (elementText text : jsstring) : list StyleCall :=
  let styled (re : K (jsstring * jsstring)) (calls : Z -> Z -> list StyleCall) :=
    List.concat (List.map (fun m => let '(s, e) := calculateMatchIndices elementText m in calls s e)
                   (matchAll (matchLen re) text)) in
  styled boldItalic (fun s e => [SetBold s e; SetItalic s e])
  ++ styled bold (fun s e => [SetBold s e])
  ++ styled italic (fun s e => [SetItalic s e])
  ++ styled strikethrough (fun s e => [SetStrikethrough s e]).

(** [insertParagraph(line, body, position, context)]: the paragraph appended
    and the styling calls made on it. *)
Definition insertParagraph (line : jsstring) : Op * list StyleCall :=
  (AppendParagraph line, applyBasicFormatting line line).

(** The range a styling call is made on. *)
Definition callRange (call : StyleCall) : Z * Z :=
  match call with
  | SetBold s e => (s, e)
  | SetItalic s e => (s, e)
  | SetStrikethrough s e => (s, e)
  end.

(** A range that starts in a text of [n] characters and ends in it, or is
    the empty range just before its start. *)
Definition withinText (n : nat) (call : StyleCall) : Prop :=
  (0 <= fst (callRange call))%Z
  /\ (fst (callRange call) - 1 <= snd (callRange call))%Z
  /\ (snd (callRange call) < Z.of_nat n)%Z.

(** *** The other patterns of [regex] *)

Definition matches {A} (k : K A) (s : jsstring) : bool :=
  match k s with Some _ => true | None => false end.

(** [regex.heading], [/^(#+)\s+(.* )/]: the match carries [match[1]] and
    [match[2]]. *)
Definition heading : K (jsstring * jsstring) :=
  capture (plus Parser.isHash) (fun hashes =>
    plus isWhiteSpace (capture (star dot) (fun text _ => Some (hashes, text)))).

(** [[*\-+]] *)
Definition isBullet (c : char) : bool := (c =? 42) || (c =? 45) || (c =? 43).

(** [regex.listItem], [/^(\s* )([*\-+]|\d+\.)\s+(.* )/]: [match[1]],
    [match[2]] and [match[3]]. *)
Definition listItem : K (jsstring * jsstring * jsstring) :=
  capture (star isWhiteSpace) (fun indent =>
    capture (alt (one isBullet) (fun k => plus isDigit (lit (str ".") k))) (fun marker =>
      plus isWhiteSpace (capture (star dot) (fun text _ => Some (indent, marker, text))))).

(** [regex.blockquote], [/^>\s*(.* )/]: [match[1]]. *)
Definition blockquote : K jsstring :=
  lit (str ">") (star isWhiteSpace (capture (star dot) (fun text _ => Some text))).

(** [regex.codeBlock], [/^```/] *)
Definition codeBlock : K unit := lit (str "```") accept.

(** [regex.footnote], [/^\[\^(\w+)\]:\s*(.* )/]; the file only tests it. *)
Definition footnote : K unit :=
  lit (str "[^") (plus isWordChar (lit (str "]:") (star isWhiteSpace (star dot accept)))).

(** [regex.table], [/^\|(.+)\|$/] *)
Definition table : K unit :=
  lit (str "|") (plus dot (lit (str "|") (eos accept))).

(** [(g)+], greedy, for a group [g] that consumes at least one character:
    there are at most as many repetitions as the input has characters, which
    is what [fuel] is set to. *)
Fixpoint many1 {A} (fuel : nat) (g : Pat A) (k : K A) (s : jsstring) : option A :=
  match fuel with
  | O => None
  | S fuel' =>
      g (fun r => match many1 fuel' g k r with Some x => Some x | None => k r end) s
  end.

(** [regex.tableSeparator], [/^\|(:?-+:?)+\|$/] *)
Definition tableSeparator : K unit :=
  fun s =>
    lit (str "|")
      (many1 (List.length s)
         (fun k => opt (lit (str ":")) (plus Parser.isDash (opt (lit (str ":")) k)))
         (lit (str "|") (eos accept))) s.

(** [regex.link], [/\[([^\]]+)\]\(([^)]+)\)/g]: the text and the URL. *)
Definition link : K ((jsstring * jsstring) * jsstring) :=
  lit (str "[") (capture (plus Parser.notRBracket) (fun linkText =>
    lit (str "](") (capture (plus (fun c => negb (c =? 41))) (fun url =>
      lit (str ")") (found (linkText, url)))))).

(** [re.test(s)] for a pattern with the [g] flag: the search starts at
    [re.lastIndex]; a match leaves its end there, a failure leaves 0.
    [execFrom m i s] searches [s], which starts at position [i] of the
    string, and gives the end of the first match. *)
Fixpoint execFrom {D} (m : jsstring -> option (D * nat)) (i : nat) (s : jsstring) : option nat :=
  match m s with
  | Some (_, len) => Some (i + len)%nat
  | None => match s with
            | [] => None
            | _ :: s' => execFrom m (S i) s'
            end
  end.

Definition testGlobal {D} (m : jsstring -> option (D * nat)) (lastIndex : nat) (s : jsstring)
    : bool * nat :=
  if (List.length s <? lastIndex)%nat then (false, O)
  else match execFrom m lastIndex (List.skipn lastIndex s) with
       | Some e => (true, e)
       | None => (false, O)
       end.

(** *** The context object *)

(** [position]: a number (an offset into the text of the document, which
    [+ 1] keeps exact), [undefined] (what the functions without a [return]
    give) or [NaN] ([undefined + 1]). *)
Inductive Position := Number (n : Z) | Undefined | NaN.

(** The properties of [context] the two files read or write; [None] is a
    property that is not there ([undefined]). *)
Record Context := {
  inList : bool;
  listLevel : Z;
  inTable : bool;
  inBlockquote : bool;
  inCodeBlock : bool;
  codeBlockText : option jsstring;
  tableData : option (list jsstring);
  currentListLevel : option Z;
  tableRows : option (list jsstring);
  inSpecialFormatting : option bool;
  customCounter : option Z;
  insertionPosition : option Position;
  tempContent : option jsstring
}.

Definition setInCodeBlock (flag : bool) (c : Context) : Context :=
  {| inList := inList c; listLevel := listLevel c; inTable := inTable c;
     inBlockquote := inBlockquote c; inCodeBlock := flag;
     codeBlockText := codeBlockText c; tableData := tableData c;
     currentListLevel := currentListLevel c; tableRows := tableRows c;
     inSpecialFormatting := inSpecialFormatting c; customCounter := customCounter c;
     insertionPosition := insertionPosition c; tempContent := tempContent c |}.

Definition setCodeBlockText (text : jsstring) (c : Context) : Context :=
  {| inList := inList c; listLevel := listLevel c; inTable := inTable c;
     inBlockquote := inBlockquote c; inCodeBlock := inCodeBlock c;
     codeBlockText := Some text; tableData := tableData c;
     currentListLevel := currentListLevel c; tableRows := tableRows c;
     inSpecialFormatting := inSpecialFormatting c; customCounter := customCounter c;
     insertionPosition := insertionPosition c; tempContent := tempContent c |}.

Definition setTable (flag : bool) (data : option (list jsstring)) (c : Context) : Context :=
  {| inList := inList c; listLevel := listLevel c; inTable := flag;
     inBlockquote := inBlockquote c; inCodeBlock := inCodeBlock c;
     codeBlockText := codeBlockText c; tableData := data;
     currentListLevel := currentListLevel c; tableRows := tableRows c;
     inSpecialFormatting := inSpecialFormatting c; customCounter := customCounter c;
     insertionPosition := insertionPosition c; tempContent := tempContent c |}.

(** [determineLineType(line, context)]: the name it returns, the context and
    [regex.link.lastIndex] as it leaves them. *)
Definition determineLineType (line : jsstring) (context : Context) (lastIndex : nat)
    : jsstring * Context * nat :=
  if inCodeBlock context then
    if matches codeBlock line then (str "codeBlockEnd", setInCodeBlock false context, lastIndex)
    else (str "codeBlockContent", context, lastIndex)
  else if matches codeBlock line then
    (str "codeBlockStart", setInCodeBlock true context, lastIndex)
  else if matches heading line then (str "heading", context, lastIndex)
  else if matches listItem line then (str "listItem", context, lastIndex)
  else if matches blockquote line then (str "blockquote", context, lastIndex)
  else if matches horizontalRule line then (str "horizontalRule", context, lastIndex)
  else if matches table line || matches tableSeparator line then
    (str "table", context, lastIndex)
  else if matches footnote line then (str "footnote", context, lastIndex)
  else
    let '(hit, lastIndex') := testGlobal (matchLen link) lastIndex line in
    if hit then (str "link", context, lastIndex') else (str "paragraph", context, lastIndex').

(** *** What the functions put into the document

    One element for each thing a function appends to [body], with the calls
    it makes on it.  What the document service makes of a call is not
    modelled. *)

(** The calls of [insertFormattedText] on [element.editAsText()]:
    [setBold(true)] and the like act on the whole text. *)
Inductive TextCall :=
| SetBoldAll
| SetItalicAll
| SetStrikethroughAll
| SetLinkUrl (startIndex endIndex : Z) (url : jsstring).

Inductive Element :=
| Paragraph (text : jsstring) (calls : list StyleCall)        (* insertParagraph *)
| HeadingParagraph (level : nat) (text : jsstring) (calls : list StyleCall)
                                        (* setHeading(ParagraphHeading['HEADING' + level]) *)
| FormattedText (text : jsstring) (calls : list TextCall)     (* insertFormattedText *)
| BlockquoteParagraph (text : jsstring)                       (* indent 36, grey *)
| Item (text : jsstring) (nestingLevel : Q) (numbered : bool)
                                        (* appendListItem, setNestingLevel, setGlyphType *)
| Table (rows : list (list jsstring))                         (* appendTable *)
| CodeParagraph (text : jsstring)                             (* Courier New *)
| Rule.                                                       (* appendHorizontalRule *)

(** A function returns or throws: the only exception the code itself
    raises is a [TypeError]. *)
Inductive Completion (A : Type) :=
| Normal (a : A)
| Raised.
Arguments Normal {A} a.
Arguments Raised {A}.

(** [if (text.match(re)) text = text.replace(re, (match, p1, p2) => { calls;
    return p2; })]: the text left and the calls made, once for each match. *)
Definition unwrap (re : K (jsstring * jsstring)) (calls : list TextCall) (text : jsstring)
    : jsstring * list TextCall :=
  match matchAll (matchLen re) text with
  | [] => (text, [])
  | _ :: _ =>
      (replaceAll (matchLen re) (fun p2 => p2) text,
       List.concat (List.map (fun _ => calls) (matchAll (matchLen re) text)))
  end.

(** [insertFormattedText(body, text, position, context)]: the paragraph is
    appended with the text as it came; the markers are only removed from the
    local copy in which the links are then looked for.  It returns
    [position + 1], and its [match] and [replace] leave [regex.link.lastIndex]
    at 0. *)
Definition insertFormattedText (text : jsstring) (position : Position) : Element * Position :=
  let '(t1, c1) := unwrap boldItalic [SetBoldAll; SetItalicAll] text in
  let '(t2, c2) := unwrap bold [SetBoldAll] t1 in
  let '(t3, c3) := unwrap italic [SetItalicAll] t2 in
  let '(t4, c4) := unwrap strikethrough [SetStrikethroughAll] t3 in
  let links :=
    List.map (fun '(linkText, url) =>
                let startIndex := indexOf linkText text in
                let endIndex := (startIndex + Z.of_nat (List.length linkText))%Z in
                SetLinkUrl startIndex (endIndex - 1)%Z url)
             (matchAll (matchLen link) t4) in
  (FormattedText text (c1 ++ c2 ++ c3 ++ c4 ++ links),
   match position with
   | Number n => Number (n + 1)
   | Undefined => NaN
   | NaN => NaN
   end).

(** [insertHeading(line, body, position)]: [match[1]] of a line that does not
    match is a [TypeError]. *)
Definition insertHeading (line : jsstring) : Completion Element :=
  match heading line with
  | Some (hashes, text) =>
      Normal (HeadingParagraph (List.length hashes) text (applyBasicFormatting text text))
  | None => Raised
  end.

(** [insertList(line, body, position, context)]: the styling calls are made
    on a temporary paragraph that is removed again; the item gets its text,
    [match[1].length / 2] as nesting level and the glyph of its marker. *)
Definition insertList (line : jsstring) : list Element :=
  match listItem line with
  | Some (indent, marker, text) =>
      [Item text (inject_Z (Z.of_nat (List.length indent)) / 2)%Q
         (matches (plus isDigit (lit (str ".") (eos accept))) (trim marker))]
  | None => []
  end.

(** [insertBlockquote(line, body, position, context)]: here too the styling
    calls go to a temporary paragraph. *)
Definition insertBlockquote (line : jsstring) : list Element :=
  match blockquote line with
  | Some text => [BlockquoteParagraph text]
  | None => []
  end.

(** [context.codeBlockText + line + "\n"]: a property that is not there
    reads as the text [undefined]. *)
Definition textOf (value : option jsstring) : jsstring :=
  match value with
  | Some text => text
  | None => str "undefined"
  end.

(** [insertCodeBlock(line, body, position, context)]: [undefined !== ''] holds
    and [undefined.trim()] is a [TypeError]. *)
Definition insertCodeBlock (line : jsstring) (context : Context)
    : Completion (Context * list Element) :=
  if inCodeBlock context then
    if matches codeBlock line then
      match codeBlockText context with
      | Some [] => Normal (setInCodeBlock false context, [])
      | Some text =>
          Normal (setInCodeBlock false (setCodeBlockText [] context), [CodeParagraph (trim text)])
      | None => Raised
      end
    else
      Normal (setCodeBlockText (textOf (codeBlockText context) ++ line ++ [nl]) context, [])
  else if matches codeBlock line then
    Normal (setCodeBlockText [] (setInCodeBlock true context), [])
  else Normal (context, []).

(** [rowData.split('|').filter(cell => cell.trim() !== '')], and the text
    each cell is set to: that of a temporary paragraph made of
    [cellText.trim()]. *)
Definition tableCells (rowData : jsstring) : list jsstring :=
  List.map trim (List.filter (fun cell => truthy (trim cell)) (split 124 rowData)).

(** [insertTable(line, body, position, context, lines, index)]:
    [context.tableData.push] on a property that is not there is a
    [TypeError]; [lines[index + 1]] behind the last line is [undefined],
    which is no table row. *)
Definition insertTable (line : jsstring) (context : Context) (lines : list jsstring)
    (index : nat) : Completion (Context * list Element) :=
  let context := if inTable context then context else setTable true (Some []) context in
  if matches tableSeparator line then Normal (context, [])
  else
    let push (k : list jsstring -> Completion (Context * list Element)) :=
      match tableData context with
      | Some data => k (data ++ [line])
      | None => Raised
      end in
    if negb (truthy (trim line)) || (S index =? List.length lines)%nat
       || negb (match List.nth_error lines (S index) with
                | Some next => matches table next
                | None => false
                end)
    then push (fun data => Normal (setTable false (Some []) context,
                                   [Table (List.map tableCells data)]))
    else push (fun data => Normal (setTable (inTable context) (Some data) context, [])).

(** [insertHorizontalRule(body, position)] *)
Definition insertHorizontalRule : list Element := [Rule].

(** [finalizeOpenElements(body, position, context)] *)
Definition finalizeOpenElements (position : Position) (context : Context)
    : Completion (Context * list Element) :=
  let closeCode : Completion (Context * list Element) :=
    if inCodeBlock context then
      match codeBlockText context with
      | Some [] => Normal (context, [])
      | Some text =>
          Normal (setInCodeBlock false (setCodeBlockText [] context), [CodeParagraph (trim text)])
      | None => Raised
      end
    else Normal (context, []) in
  match closeCode with
  | Raised => Raised
  | Normal (c, elements) =>
      Normal
        ({| inList := inList c; listLevel := listLevel c;
            inTable := false;
            inBlockquote := false;
            inCodeBlock := inCodeBlock c;
            codeBlockText := codeBlockText c;
            tableData := tableData c;
            currentListLevel :=
              match currentListLevel c with
              | Some level => if (0 <? level)%Z then Some 0%Z else Some level
              | None => None
              end;
            tableRows := if inTable c then Some [] else tableRows c;
            inSpecialFormatting := Some false;
            customCounter := Some 0%Z;
            insertionPosition := Some position;
            tempContent := Some [] |},
         elements)
  end.

End MarkdownUtils.

(** ** Utils.js *)

Module Utils.
Import JS Re.

(** [markdownLine.match(/\[([^\]]+)\]\(([^)]+)\)/)], and
    [match ? { text: match[1], url: match[2] } : null] *)
Definition extractLink (markdownLine : jsstring) : option (jsstring * jsstring) :=
  search (lit (str "[") (capture (plus Parser.notRBracket) (fun text =>
            lit (str "](") (capture (plus (fun c => negb (c =? 41))) (fun linkUrl =>
              lit (str ")") (fun _ => Some (text, linkUrl))))))) markdownLine.

(** [/^\s+/.test(markdownLine)] *)
Definition isNestedList (markdownLine : jsstring) : bool :=
  test (plus isWhiteSpace accept) markdownLine.

End Utils.

(** ** MarkdownParser.js: the converter that dispatches on the line type

    The [parseAndInsertMarkdown] that classifies each line with
    [MarkdownUtils.determineLineType] and hands it to a function of
    MarkdownUtils.js. *)

Module LineParser.
Import JS Re MarkdownUtils.

(** The variables of the conversion: [context], [regex.link.lastIndex],
    [position] and what has been appended to [body]. *)
Record State := {
  context : Context;
  linkLastIndex : nat;
  position : Position;
  document : list Element
}.

(** The conversion returns, or a [TypeError] ends it: the state is the one
    reached by then. *)
Inductive Outcome :=
| Returns (st : State)
| Raises (st : State).

Definition named (type : jsstring) (name : string) : bool :=
  bool_decide (type = str name :> list N).

(** The handlers without a [return] give [undefined], which is assigned to
    [position]. *)
Definition appended (st : State) (c : Context) (elements : list Element) : Outcome :=
  Returns {| context := c; linkLastIndex := linkLastIndex st;
             position := Undefined; document := document st ++ elements |}.

(** The body of [lines.forEach((line, index) => ...)].  No property
    [isTableSeparator] is defined on [MarkdownUtils]: calling it is a
    [TypeError]. *)
Definition processLine (lines : list jsstring) (index : nat) (line : jsstring) (st : State)
    : Outcome :=
  let '(type, c, lastIndex) := determineLineType line (context st) (linkLastIndex st) in
  let st := {| context := c; linkLastIndex := lastIndex;
               position := position st; document := document st |} in
  if named type "heading" then
    match insertHeading line with
    | Normal element => appended st c [element]
    | Raised => Raises st
    end
  else if named type "paragraph" then
    appended st c [Paragraph line (applyBasicFormatting line line)]
  else if named type "list" then appended st c (insertList line)
  else if named type "table" then
    if inTable c then
      match insertTable line c lines index with
      | Normal (c', elements) => appended st c' elements
      | Raised => Raises st
      end
    else Raises st
  else if named type "blockquote" then appended st c (insertBlockquote line)
  else if named type "codeBlock" then
    match insertCodeBlock line c with
    | Normal (c', elements) => appended st c' elements
    | Raised => Raises st
    end
  else if named type "horizontalRule" then appended st c insertHorizontalRule
  else
    let '(element, position') := insertFormattedText line (position st) in
    Returns {| context := c; linkLastIndex := 0;
               position := position'; document := document st ++ [element] |}.

Fixpoint forEach (lines : list jsstring) (index : nat) (rest : list jsstring) (st : State)
    : Outcome :=
  match rest with
  | [] => Returns st
  | line :: rest' =>
      match processLine lines index line st with
      | Returns st' => forEach lines (S index) rest' st'
      | Raises st' => Raises st'
      end
  end.

(** [{ inList: false, listLevel: 0, inTable: false, inBlockquote: false,
    inCodeBlock: false }] *)
Definition initialContext : Context :=
  {| inList := false; listLevel := 0; inTable := false; inBlockquote := false;
     inCodeBlock := false;
     codeBlockText := None; tableData := None; currentListLevel := None;
     tableRows := None; inSpecialFormatting := None; customCounter := None;
     insertionPosition := None; tempContent := None |}.

(** [parseAndInsertMarkdown(markdownText)].  [offset] is the number
    [position] starts with (the offset of the cursor or the length of the
    text of the body) and [lastIndex] what an earlier use has left in
    [regex.link.lastIndex]. *)
Definition parseAndInsertMarkdown (markdownText : jsstring) (offset : Z) (lastIndex : nat)
    : Outcome :=
  let lines := split nl markdownText in
  match forEach lines 0 lines
          {| context := initialContext; linkLastIndex := lastIndex;
             position := Number offset; document := [] |} with
  | Raises st => Raises st
  | Returns st =>
      match finalizeOpenElements (position st) (context st) with
      | Normal (c, elements) =>
          Returns {| context := c; linkLastIndex := linkLastIndex st;
                     position := position st; document := document st ++ elements |}
      | Raised => Raises st
      end
  end.

(** The state an outcome carries. *)
Definition stateOf (o : Outcome) : State :=
  match o with
  | Returns st => st
  | Raises st => st
  end.

(** The elements that only [insertList], [insertTable], [insertCodeBlock]
    and the code branch of [finalizeOpenElements] append. *)
Definition listTableOrCode (e : Element) : bool :=
  match e with
  | Item _ _ _ => true
  | Table _ => true
  | CodeParagraph _ => true
  | _ => false
  end.

End LineParser.

(** * Properties *)

(** ** Strings *)

Module JSFacts.
Import JS.

Lemma dropWhile_app p (a b : jsstring) :
  dropWhile p (a ++ b) = if forallb p a then dropWhile p b else dropWhile p a ++ b.
Proof.
  induction a as [|c a IH]; simpl; [reflexivity|].
  destruct (p c); simpl; [exact IH | reflexivity].
Qed.

Lemma dropWhile_all p (s : jsstring) : forallb p s = true -> dropWhile p s = [].
Proof.
  induction s as [|c s IH]; simpl; [reflexivity|].
  destruct (p c); simpl; [exact IH | discriminate].
Qed.

Lemma dropWhile_nil_all p (s : jsstring) : dropWhile p s = [] -> forallb p s = true.
Proof.
  induction s as [|c s IH]; simpl; [reflexivity|].
  destruct (p c); simpl; [exact IH | discriminate].
Qed.

Lemma forallb_rev p (s : jsstring) : forallb p (rev s) = forallb p s.
Proof.
  induction s as [|c s IH]; simpl; [reflexivity|].
  rewrite forallb_app, IH. simpl. rewrite andb_true_r. apply andb_comm.
Qed.

(** [trimEnd] peels from the right: a character stays unless it and all that
    follows it are white space. *)
Lemma trimEnd_cons c (s : jsstring) :
  trimEnd (c :: s) =
  if isWhiteSpace c && forallb isWhiteSpace s then [] else c :: trimEnd s.
Proof.
  unfold trimEnd. simpl rev. rewrite dropWhile_app, forallb_rev.
  destruct (forallb isWhiteSpace s) eqn:Hs.
  - rewrite andb_true_r. simpl.
    rewrite (dropWhile_all _ (rev s)) by (rewrite forallb_rev; exact Hs).
    destruct (isWhiteSpace c); reflexivity.
  - rewrite andb_false_r. rewrite rev_app_distr. reflexivity.
Qed.

Lemma trimEnd_all (s : jsstring) : forallb isWhiteSpace s = true -> trimEnd s = [].
Proof.
  intros H. unfold trimEnd. rewrite dropWhile_all; [reflexivity|].
  rewrite forallb_rev. exact H.
Qed.

Lemma trimEnd_app_ws (s w : jsstring) :
  forallb isWhiteSpace w = true -> trimEnd (s ++ w) = trimEnd s.
Proof.
  intros H. unfold trimEnd. rewrite rev_app_distr, dropWhile_app, forallb_rev, H.
  reflexivity.
Qed.

Lemma forallb_trimEnd (s : jsstring) :
  forallb isWhiteSpace (trimEnd s) = forallb isWhiteSpace s.
Proof.
  induction s as [|c s IH]; [reflexivity|].
  rewrite trimEnd_cons. simpl.
  destruct (isWhiteSpace c) eqn:Hc; simpl.
  - destruct (forallb isWhiteSpace s) eqn:Hs; simpl; [reflexivity|].
    rewrite Hc. simpl. exact IH.
  - rewrite Hc. reflexivity.
Qed.

Lemma trimEnd_idem (s : jsstring) : trimEnd (trimEnd s) = trimEnd s.
Proof.
  induction s as [|c s IH]; [reflexivity|].
  rewrite trimEnd_cons.
  destruct (isWhiteSpace c && forallb isWhiteSpace s) eqn:H; [reflexivity|].
  rewrite trimEnd_cons, forallb_trimEnd, H, IH. reflexivity.
Qed.

(** What [trimStart] leaves is empty or starts with a character that is not
    white space. *)
Lemma trimStart_head (s : jsstring) :
  trimStart s = [] \/ exists c t, trimStart s = c :: t /\ isWhiteSpace c = false.
Proof.
  unfold trimStart. induction s as [|c s IH]; simpl; [left; reflexivity|].
  destruct (isWhiteSpace c) eqn:Hc; [exact IH|].
  right. exists c, s. split; [reflexivity | exact Hc].
Qed.

Lemma trim_idem (s : jsstring) : trim (trim s) = trim s.
Proof.
  unfold trim at 2 3. destruct (trimStart_head s) as [H | (c & t & H & Hc)]; rewrite H.
  - reflexivity.
  - rewrite trimEnd_cons, Hc. simpl.
    unfold trim, trimStart. simpl. rewrite Hc.
    rewrite trimEnd_cons, Hc. simpl. rewrite trimEnd_idem. reflexivity.
Qed.

Lemma trim_app_ws (s w : jsstring) :
  forallb isWhiteSpace w = true -> trim (s ++ w) = trim s.
Proof.
  intros H. unfold trim, trimStart. rewrite dropWhile_app.
  destruct (forallb isWhiteSpace s) eqn:Hs.
  - rewrite (dropWhile_all _ w H), (dropWhile_all _ s Hs). reflexivity.
  - apply trimEnd_app_ws. exact H.
Qed.

Lemma trim_nil_iff (s : jsstring) : trim s = [] <-> forallb isWhiteSpace s = true.
Proof.
  unfold trim. split.
  - intros H. destruct (trimStart_head s) as [H0 | (c & t & H0 & Hc)].
    + apply dropWhile_nil_all. exact H0.
    + rewrite H0, trimEnd_cons, Hc in H. discriminate.
  - intros H. unfold trimStart. rewrite (dropWhile_all _ s H). reflexivity.
Qed.

(** The code-block buffer: each line followed by a newline. *)
Lemma concat_lines_join (ls : list jsstring) :
  ls <> [] ->
  List.concat (List.map (fun l => l ++ [nl]) ls) = join [nl] ls ++ [nl].
Proof.
  induction ls as [|l ls IH]; [congruence|]. intros _.
  destruct ls as [|l' ls]; [simpl; rewrite app_nil_r; reflexivity|].
  change (List.concat (List.map (fun l => l ++ [nl]) (l :: l' :: ls)))
    with ((l ++ [nl]) ++ List.concat (List.map (fun l => l ++ [nl]) (l' :: ls))).
  rewrite IH by congruence.
  change (join [nl] (l :: l' :: ls)) with (l ++ [nl] ++ join [nl] (l' :: ls)).
  rewrite <- !app_assoc. reflexivity.
Qed.

Lemma trim_buffer (ls : list jsstring) :
  trim (trim (List.concat (List.map (fun l => l ++ [nl]) ls))) = trim (join [nl] ls).
Proof.
  rewrite trim_idem. destruct ls as [|l ls]; [reflexivity|].
  rewrite concat_lines_join by congruence.
  apply trim_app_ws. reflexivity.
Qed.

Lemma startsWith_ws_false (p : jsstring) c (s : jsstring) :
  forallb isWhiteSpace s = true -> isWhiteSpace c = false ->
  startsWith (c :: p) s = false.
Proof.
  intros Hs Hc. unfold startsWith. destruct s as [|d s]; simpl; [reflexivity|].
  unfold beq. destruct (N.eqb_spec c d) as [->|]; [|reflexivity].
  simpl in Hs. rewrite Hc in Hs. discriminate.
Qed.

Lemma split_nonempty sep (s : jsstring) : exists x r, split sep s = x :: r.
Proof.
  induction s as [|c s (x & r & IH)]; simpl; [eauto|].
  destruct (beq c sep); [eauto|]. rewrite IH. eauto.
Qed.

Lemma split_app_line (l t x : jsstring) r :
  noNewline l = true -> split nl t = x :: r -> split nl (l ++ t) = (l ++ x) :: r.
Proof.
  intros Hl Ht. induction l as [|c l IHl]; simpl; [exact Ht|].
  simpl in Hl. apply andb_prop in Hl as [Hc Hl].
  destruct (beq c nl); [discriminate|]. rewrite (IHl Hl). reflexivity.
Qed.

(** [split] on the newline and [join] with it are inverse on lines without
    a newline. *)
Lemma split_join (ls : list jsstring) :
  ls <> [] -> Forall (fun l => noNewline l = true) ls ->
  split nl (join [nl] ls) = ls.
Proof.
  induction ls as [|l ls IH]; [congruence|]. intros _ Hall.
  inversion Hall as [|? ? Hl Hls]; subst.
  destruct ls as [|l' ls].
  - simpl. rewrite <- (app_nil_r l) at 1.
    rewrite (split_app_line l [] [] []) by (assumption || reflexivity).
    rewrite app_nil_r. reflexivity.
  - change (join [nl] (l :: l' :: ls)) with (l ++ nl :: join [nl] (l' :: ls)).
    rewrite (split_app_line l _ [] (l' :: ls)); [rewrite app_nil_r; reflexivity | assumption |].
    change (split nl (nl :: join [nl] (l' :: ls)))
      with ([] :: split nl (join [nl] (l' :: ls))).
    rewrite IH by (congruence || assumption). reflexivity.
Qed.

End JSFacts.

(** ** Patterns: what the matchers accept *)

Module ReFacts.
Import JS Re.

Lemma stripPrefix_Some (p s r : jsstring) : stripPrefix p s = Some r <-> s = p ++ r.
Proof.
  revert s. induction p as [|a p IH]; intros s; simpl.
  - split; [intros [= ->]; reflexivity | intros ->; reflexivity].
  - destruct s as [|b s]; [split; discriminate|].
    unfold beq. destruct (N.eqb_spec a b) as [->|Hne].
    + rewrite IH. split; [intros ->; reflexivity | intros [= ->]; reflexivity].
    + split; [discriminate | intros [= -> _]; congruence].
Qed.

Lemma startsWith_true (p s : jsstring) : startsWith p s = true <-> exists r, s = p ++ r.
Proof.
  unfold startsWith. destruct (stripPrefix p s) as [r|] eqn:H.
  - apply stripPrefix_Some in H. split; [eauto | reflexivity].
  - split; [discriminate|]. intros [r Hr]. apply stripPrefix_Some in Hr. congruence.
Qed.

Section Accepts.
Context {A : Type}.
Implicit Types (k : K A) (s : jsstring).

Lemma lit_accepts p k s :
  is_Some (lit p k s) <-> exists r, s = p ++ r /\ is_Some (k r).
Proof.
  unfold lit. destruct (stripPrefix p s) as [r|] eqn:H.
  - apply stripPrefix_Some in H. split; [eauto|].
    intros (r' & Hr & Hk). subst s. apply app_inv_head in Hr. subst. exact Hk.
  - split; [intros [? [=]]|]. intros (r & Hr & _).
    apply stripPrefix_Some in Hr. congruence.
Qed.

Lemma one_accepts p k s :
  is_Some (one p k s) <-> exists c r, s = c :: r /\ p c = true /\ is_Some (k r).
Proof.
  unfold one. destruct s as [|c s].
  - split; [intros [? [=]] | intros (? & ? & [=] & _)].
  - destruct (p c) eqn:Hc.
    + split; [eauto|]. intros (? & ? & [= <- <-] & _ & Hk). exact Hk.
    + split; [intros [? [=]] | intros (? & ? & [= <- <-] & Hp & _); congruence].
Qed.

Lemma star_accepts p k s :
  is_Some (star p k s) <->
  exists a r, s = a ++ r /\ forallb p a = true /\ is_Some (k r).
Proof.
  induction s as [|c s IH]; simpl.
  - split.
    + intros H. exists [], []. auto.
    + intros (a & r & Hs & _ & Hk). symmetry in Hs.
      apply app_eq_nil in Hs as [_ ->]. exact Hk.
  - destruct (p c) eqn:Hc.
    + destruct (star p k s) as [x|] eqn:Hst.
      * split; [intros _ | eauto].
        destruct (proj1 IH) as (a & r & -> & Ha & Hk); [eauto|].
        exists (c :: a), r. simpl. rewrite Hc. auto.
      * split.
        -- intros Hk. exists [], (c :: s). auto.
        -- intros (a & r & Hs & Ha & Hk). destruct a as [|d a].
           ++ simpl in Hs. subst r. exact Hk.
           ++ simpl in Hs. injection Hs as <- ->. simpl in Ha.
              apply andb_prop in Ha as [_ Ha].
              destruct (proj2 IH) as [? [=]]. eauto.
    + split.
      * intros Hk. exists [], (c :: s). auto.
      * intros (a & r & Hs & Ha & Hk). destruct a as [|d a].
        -- simpl in Hs. subst r. exact Hk.
        -- simpl in Hs. injection Hs as <- ->. simpl in Ha. rewrite Hc in Ha.
           discriminate.
Qed.

Lemma plus_accepts p k s :
  is_Some (plus p k s) <->
  exists a r, s = a ++ r /\ a <> [] /\ forallb p a = true /\ is_Some (k r).
Proof.
  unfold plus. rewrite one_accepts. split.
  - intros (c & t & -> & Hc & H). apply star_accepts in H as (a & r & -> & Ha & Hk).
    exists (c :: a), r. simpl. rewrite Hc. repeat split; auto; discriminate.
  - intros (a & r & -> & Hne & Ha & Hk). destruct a as [|c a]; [congruence|].
    simpl in Ha. apply andb_prop in Ha as [Hc Ha].
    exists c, (a ++ r). repeat split; auto. apply star_accepts. eauto.
Qed.

Lemma eos_accepts k s : is_Some (eos k s) <-> s = [] /\ is_Some (k []).
Proof.
  unfold eos. destruct s.
  - split; [auto | intros [_ H]; exact H].
  - split; [intros [? [=]] | intros [[=] _]].
Qed.

Lemma search_accepts k s :
  is_Some (search k s) <-> exists pre post, s = pre ++ post /\ is_Some (k post).
Proof.
  induction s as [|c s IH]; simpl.
  - destruct (k []) eqn:Hk.
    + split; [intros _; exists [], []; rewrite Hk; eauto | eauto].
    + split; [intros [? [=]]|]. intros (pre & post & Hs & H). symmetry in Hs.
      apply app_eq_nil in Hs as [_ ->]. rewrite Hk in H. exact H.
  - destruct (k (c :: s)) eqn:Hk.
    + split; [intros _; exists [], (c :: s); rewrite Hk; eauto | eauto].
    + rewrite IH. split.
      * intros (pre & post & -> & H). exists (c :: pre), post. auto.
      * intros (pre & post & Hs & H). destruct pre as [|d pre].
        -- simpl in Hs. subst post. rewrite Hk in H. destruct H as [? [=]].
        -- simpl in Hs. injection Hs as <- ->. eauto.
Qed.

Lemma exactly_accepts n p k s :
  is_Some (exactly n p k s) <->
  exists a r, s = a ++ r /\ List.length a = n /\ forallb p a = true /\ is_Some (k r).
Proof.
  revert s. induction n as [|n IH]; intros s; simpl.
  - split.
    + intros H. exists [], s. auto.
    + intros (a & r & -> & Hl & _ & Hk). destruct a; [exact Hk | discriminate].
  - rewrite one_accepts. split.
    + intros (c & t & -> & Hc & H). apply IH in H as (a & r & -> & Hl & Ha & Hk).
      exists (c :: a), r. simpl. rewrite Hc, Hl. auto.
    + intros (a & r & -> & Hl & Ha & Hk). destruct a as [|c a]; [discriminate|].
      simpl in Ha, Hl. apply andb_prop in Ha as [Hc Ha]. injection Hl as Hl.
      exists c, (a ++ r). repeat split; auto. apply IH. eauto 6.
Qed.

End Accepts.

Lemma test_true (k : K unit) s : test k s = true <-> is_Some (k s).
Proof.
  unfold test. destruct (k s); split; try discriminate; eauto.
  intros [? [=]].
Qed.

Lemma accept_ok s : is_Some (accept s).
Proof. unfold accept. eauto. Qed.

End ReFacts.

(** ** The block state machine *)

Module ParserFacts.
Import JS Re Tables Doc Parser JSFacts ReFacts.

Section Machine.

Variable isLink : jsstring -> bool.
Variable processBlockquote : list jsstring -> list jsstring.

Local Abbreviation processLine := (processLine isLink processBlockquote).
Local Abbreviation secondPass := (secondPass isLink processBlockquote).

Lemma secondPass_app g st (l1 l2 : list jsstring) :
  secondPass g st (l1 ++ l2) =
  let '(st1, ops1) := secondPass g st l1 in
  let '(st2, ops2) := secondPass g st1 l2 in
  (st2, ops1 ++ ops2).
Proof.
  revert st. induction l1 as [|l l1 IH]; intros st; simpl.
  - destruct (secondPass g st l2). reflexivity.
  - destruct (processLine g st l) as [st1 ops1]. rewrite IH.
    destruct (secondPass g st1 l1) as [st2 ops2].
    destruct (secondPass g st2 l2) as [st3 ops3].
    rewrite app_assoc. reflexivity.
Qed.

Lemma buffersClosed_initial : buffersClosed initialState.
Proof. repeat split. Qed.

Lemma processText_buffersClosed g st line :
  buffersClosed st -> buffersClosed (fst (processText g st line)).
Proof.
  intros (Hc & Hq & Ht). unfold processText.
  destruct (processFootnotesInText g (processAdvancedFormatting line)) as [t notes].
  destruct (inBlockquote st) eqn:Eq; [|destruct (negb (inTable st))]; simpl;
    repeat split; simpl; auto; try discriminate; congruence.
Qed.

Lemma processLine_buffersClosed g st line :
  buffersClosed st -> buffersClosed (fst (processLine g st line)).
Proof.
  intros H. pose proof H as (Hc & Hq & Ht). unfold Parser.processLine.
  repeat match goal with
         | |- context [if ?b then _ else _] => destruct b eqn:?
         | |- context [match ?o with Some _ => _ | None => _ end] => destruct o eqn:?
         end;
    try (apply processText_buffersClosed; exact H);
    simpl; try exact H; repeat split; simpl; auto; try discriminate; try congruence.
  intros Hf. rewrite Hf, andb_false_r in *. discriminate.
Qed.

Lemma secondPass_buffersClosed g st lines :
  buffersClosed st -> buffersClosed (fst (secondPass g st lines)).
Proof.
  revert st. induction lines as [|l lines IH]; intros st H; simpl; [exact H|].
  pose proof (processLine_buffersClosed g st l H) as H1.
  destruct (processLine g st l) as [st1 ops1]. specialize (IH st1 H1).
  destruct (secondPass g st1 lines). exact IH.
Qed.

Lemma setCode_same st : setCode st (inCodeBlock st) (codeBlockText st) = st.
Proof. destruct st. reflexivity. Qed.

Lemma setBlockquote_same st :
  setBlockquote st (inBlockquote st) (blockquoteLines st) = st.
Proof. destruct st. reflexivity. Qed.

(** *** Code blocks *)

(** Inside a code block every line that is not a fence goes to the buffer,
    followed by a newline, and nothing is emitted. *)
Lemma code_lines_buffered g st (interior : list jsstring) :
  inCodeBlock st = true ->
  Forall (fun l => startsWith fence l = false) interior ->
  secondPass g st interior =
  (setCode st true (codeBlockText st ++ List.concat (List.map (fun l => l ++ [nl]) interior)),
   []).
Proof.
  revert st. induction interior as [|l ls IH]; intros st Hin Hall.
  - simpl. rewrite app_nil_r, <- Hin, setCode_same. reflexivity.
  - inversion Hall as [|? ? Hl Hls]; subst. simpl.
    unfold Parser.processLine. rewrite Hl, Hin.
    rewrite IH by (assumption || reflexivity). simpl.
    rewrite <- !app_assoc. reflexivity.
Qed.

(** A fence, lines that are no fence, a fence: one [CodeBlock] holding the
    trimmed lines, and the state as it was. *)
Lemma fenced_block g st (opening closing : jsstring) (interior : list jsstring) :
  inCodeBlock st = false -> codeBlockText st = [] ->
  startsWith fence opening = true -> startsWith fence closing = true ->
  Forall (fun l => startsWith fence l = false) interior ->
  secondPass g st (opening :: interior ++ [closing]) =
  (st, [CodeBlock (trim (join [nl] interior))]).
Proof.
  intros Hin Htext Hopen Hclose Hall.
  change (opening :: interior ++ [closing]) with ([opening] ++ interior ++ [closing]).
  rewrite secondPass_app. simpl. unfold Parser.processLine at 1. rewrite Hopen, Hin.
  rewrite secondPass_app, code_lines_buffered by (assumption || reflexivity).
  simpl. unfold Parser.processLine. rewrite Hclose. simpl.
  rewrite Htext. simpl. rewrite trim_buffer.
  destruct st; simpl in *; subst; reflexivity.
Qed.

(** A block that leaves the state as it found it contributes its operations
    in place, whatever precedes and follows it. *)
Lemma block_in_context g (prefix block suffix : list jsstring) (blockOps : list Op) :
  secondPass g (fst (secondPass g initialState prefix)) block
    = (fst (secondPass g initialState prefix), blockOps) ->
  secondPass g initialState (prefix ++ block ++ suffix) =
  (fst (secondPass g (fst (secondPass g initialState prefix)) suffix),
   snd (secondPass g initialState prefix) ++ blockOps
   ++ snd (secondPass g (fst (secondPass g initialState prefix)) suffix)).
Proof.
  intros H. rewrite secondPass_app.
  destruct (secondPass g initialState prefix) as [st ops]. simpl in *.
  rewrite secondPass_app, H.
  destruct (secondPass g st suffix) as [st' ops']. reflexivity.
Qed.

(** *** Blank lines and blockquote lines *)

Lemma whitespace_no_char c (s : jsstring) :
  forallb isWhiteSpace s = true -> isWhiteSpace c = false -> ~ In c s.
Proof.
  intros Hs Hc Hin. rewrite forallb_forall in Hs. specialize (Hs c Hin). congruence.
Qed.

Lemma blank_not_image (b : jsstring) : forallb isWhiteSpace b = true -> isImage b = false.
Proof.
  intros Hb. unfold isImage. destruct (test _ b) eqn:E; [|reflexivity].
  apply test_true, search_accepts in E as (pre & post & -> & H).
  apply lit_accepts in H as (r & -> & _).
  exfalso. apply (whitespace_no_char 33 _ Hb); [reflexivity|].
  apply in_or_app. right. left. reflexivity.
Qed.

Lemma blank_not_blockquote (b : jsstring) :
  forallb isWhiteSpace b = true -> isBlockquote b = false.
Proof.
  intros Hb. unfold isBlockquote. destruct (test _ b) eqn:E; [|reflexivity].
  apply test_true, star_accepts in E as (a & r & -> & _ & H).
  apply lit_accepts in H as (r' & -> & _).
  exfalso. apply (whitespace_no_char 62 _ Hb); [reflexivity|].
  apply in_or_app. right. left. reflexivity.
Qed.

Lemma blank_not_fence (b : jsstring) :
  forallb isWhiteSpace b = true -> startsWith fence b = false.
Proof. intros Hb. exact (startsWith_ws_false [96; 96] 96 b Hb eq_refl). Qed.

Lemma blank_not_rule (b : jsstring) :
  forallb isWhiteSpace b = true -> startsWith rule b = false.
Proof. intros Hb. exact (startsWith_ws_false [45; 45] 45 b Hb eq_refl). Qed.

(** A blockquote line starts with white space or with the marker: it is
    neither a fence nor a rule. *)
Lemma blockquote_first_char (q : jsstring) :
  isBlockquote q = true ->
  exists c t, q = c :: t /\ (isWhiteSpace c = true \/ c = 62).
Proof.
  unfold isBlockquote. intros E.
  apply test_true, star_accepts in E as (a & r & -> & Ha & H).
  apply lit_accepts in H as (r' & -> & _).
  destruct a as [|c a]; simpl.
  - exists 62, r'. auto.
  - simpl in Ha. apply andb_prop in Ha as [Hc _]. exists c, (a ++ str ">" ++ r'). auto.
Qed.

Lemma startsWith_other_char x (p : jsstring) c (t : jsstring) :
  x <> c -> startsWith (x :: p) (c :: t) = false.
Proof.
  intros Hne. unfold startsWith. simpl. unfold beq.
  destruct (N.eqb_spec x c); [congruence | reflexivity].
Qed.

Lemma blockquote_not_fence (q : jsstring) :
  isBlockquote q = true -> startsWith fence q = false /\ startsWith rule q = false.
Proof.
  intros H. apply blockquote_first_char in H as (c & t & -> & Hc).
  split; apply startsWith_other_char; intros <-; destruct Hc as [Hc|Hc]; discriminate.
Qed.

(** Outside a code block, blockquote lines that hold no image are buffered,
    stripped of their marker, and nothing is emitted. *)
Lemma quote_lines_buffered g st (q : jsstring) (qs : list jsstring) :
  inCodeBlock st = false ->
  Forall (fun q => isBlockquote q = true /\ isImage q = false) (q :: qs) ->
  secondPass g st (q :: qs) =
  (setBlockquote st true (blockquoteLines st ++ List.map stripQuoteMarker (q :: qs)), []).
Proof.
  revert st q. induction qs as [|q' qs IH]; intros st q Hin Hall;
    inversion Hall as [|? ? [Hq Hi] Hqs]; subst;
    destruct (blockquote_not_fence q Hq) as [Hf Hr].
  - simpl. unfold Parser.processLine. rewrite Hf, Hin, Hr, Hi, Hq. reflexivity.
  - change (secondPass g st (q :: q' :: qs))
      with (let '(st1, ops1) := processLine g st q in
            let '(st2, ops2) := secondPass g st1 (q' :: qs) in (st2, ops1 ++ ops2)).
    unfold Parser.processLine at 1. rewrite Hf, Hin, Hr, Hi, Hq.
    rewrite IH by (assumption || reflexivity). simpl.
    rewrite <- !app_assoc. reflexivity.
Qed.

(** A run of blockquote lines and the blank line behind it: one
    [BlockquoteBlock], and the state as it was.  The blank line emits
    nothing of its own. *)
Lemma blockquote_run g st (q : jsstring) (qs : list jsstring) (blank : jsstring) :
  inCodeBlock st = false -> inBlockquote st = false -> blockquoteLines st = [] ->
  Forall (fun q => isBlockquote q = true /\ isImage q = false) (q :: qs) ->
  trim blank = [] ->
  secondPass g st ((q :: qs) ++ [blank]) =
  (st, [BlockquoteBlock
          (join [nl] (processBlockquote (List.map stripQuoteMarker (q :: qs))))]).
Proof.
  intros Hin Hbq Hlines Hall Hblank. apply trim_nil_iff in Hblank as Hws.
  rewrite secondPass_app, quote_lines_buffered by assumption.
  cbn [Parser.secondPass]. unfold Parser.processLine.
  rewrite (blank_not_fence _ Hws).
  cbn [inCodeBlock setBlockquote]. rewrite Hin.
  rewrite (blank_not_rule _ Hws).
  rewrite (blank_not_image _ Hws), (blank_not_blockquote _ Hws), Hblank.
  cbn [truthy negb andb inBlockquote setBlockquote blockquoteLines insertBlockquote app].
  rewrite Hlines. cbn [app].
  destruct st; simpl in *; subst; reflexivity.
Qed.

(** *** List items *)

Lemma split_line (l : jsstring) : noNewline l = true -> split nl l = [l].
Proof.
  intros H. rewrite <- (app_nil_r l) at 1.
  rewrite (split_app_line l [] [] [] H eq_refl), app_nil_r. reflexivity.
Qed.

Lemma split_lines_noNewline (text : jsstring) :
  Forall (fun l => noNewline l = true) (split nl text).
Proof.
  induction text as [|c text IH]; simpl; [repeat constructor|].
  destruct (beq c nl) eqn:Hc; [constructor; [reflexivity | exact IH]|].
  destruct (split nl text) as [|l ls]; [repeat constructor; simpl; rewrite Hc; reflexivity|].
  inversion IH; subst. constructor; [|assumption].
  unfold noNewline in *. simpl. rewrite Hc. assumption.
Qed.

Lemma nestingLevels_app (a b : list Op) :
  nestingLevels (a ++ b) = nestingLevels a ++ nestingLevels b.
Proof. unfold nestingLevels. rewrite List.map_app, List.concat_app. reflexivity. Qed.

(** Called on one line, [insertList] finds its stack empty. *)
Lemma insertList_one_line (line : jsstring) :
  noNewline line = true ->
  nestingLevels (insertList line) = if isList line then [0%Z] else [].
Proof.
  intros H. unfold insertList. rewrite (split_line line H). simpl.
  destruct (isList line); reflexivity.
Qed.

Lemma footnotes_no_item g (ids : list jsstring) :
  nestingLevels (List.concat (List.map (insertFootnoteContent g) ids)) = [].
Proof.
  induction ids as [|i ids IH]; [reflexivity|]. simpl. rewrite nestingLevels_app, IH.
  unfold insertFootnoteContent.
  destruct (footnoteTruthy _); [destruct (getFootnote _ _)|]; reflexivity.
Qed.

Lemma processText_no_item g st line :
  nestingLevels (snd (processText g st line)) = [].
Proof.
  unfold processText, processFootnotesInText.
  destruct (inBlockquote st); [|destruct (negb (inTable st))]; simpl;
    rewrite ?nestingLevels_app, footnotes_no_item; reflexivity.
Qed.

Lemma insertTable_no_item (tableLines : list jsstring) :
  nestingLevels (insertTable tableLines) = [].
Proof. unfold insertTable. destruct (_ <? _)%nat; reflexivity. Qed.

Lemma processLine_levels g st (line : jsstring) :
  noNewline line = true ->
  Forall (eq 0%Z) (nestingLevels (snd (processLine g st line))).
Proof.
  intros H. unfold Parser.processLine.
  repeat match goal with
         | |- context [if ?b then _ else _] => destruct b eqn:?
         | |- context [match ?o with Some _ => _ | None => _ end] => destruct o eqn:?
         end;
    cbn [snd];
    rewrite ?processText_no_item, ?insertTable_no_item; try (constructor; fail).
  rewrite (insertList_one_line line H).
  match goal with Hl : isList line = true |- _ => rewrite Hl end.
  repeat constructor.
Qed.

Lemma secondPass_levels g st (lines : list jsstring) :
  Forall (fun l => noNewline l = true) lines ->
  Forall (eq 0%Z) (nestingLevels (snd (secondPass g st lines))).
Proof.
  revert st. induction lines as [|l lines IH]; intros st Hall; [constructor|].
  inversion Hall as [|? ? Hl Hls]; subst. simpl.
  pose proof (processLine_levels g st l Hl) as H1.
  destruct (processLine g st l) as [st1 ops1]. specialize (IH st1 Hls).
  destruct (secondPass g st1 lines) as [st2 ops2]. cbn [snd] in *.
  rewrite nestingLevels_app. apply Forall_app. split; assumption.
Qed.

Lemma finalize_no_item st : nestingLevels (finalize processBlockquote st) = [].
Proof.
  unfold finalize. rewrite !nestingLevels_app.
  destruct (inTable st), (inBlockquote st), (inCodeBlock st);
    rewrite ?insertTable_no_item; reflexivity.
Qed.

(** The lines the loops run over are those of the text, split at
    newlines. *)
Lemma parse_joined_lines cursor g (lines : list jsstring) :
  lines <> [] -> Forall (fun l => noNewline l = true) lines ->
  parseAndInsertMarkdown isLink processBlockquote cursor g (join [nl] lines)
  = (fst (convertLines isLink processBlockquote g lines),
     insertRawText cursor (join [nl] lines)
     ++ snd (convertLines isLink processBlockquote g lines)).
Proof.
  intros Hne Hall. unfold parseAndInsertMarkdown. rewrite (split_join lines Hne Hall).
  destruct (convertLines isLink processBlockquote g lines). reflexivity.
Qed.

End Machine.

(** *** Table rows *)

Lemma dashes_repeat (a : jsstring) :
  forallb isDash a = true <-> a = repeat 45 (List.length a).
Proof.
  induction a as [|c a IH]; simpl; [tauto|]. unfold isDash at 1.
  destruct (N.eqb_spec c 45) as [->|Hne]; simpl.
  - rewrite IH. split; [intros <-; reflexivity | intros [= <-]; reflexivity].
  - split; [discriminate | intros [= ->]; congruence].
Qed.





Lemma combine_seq_nth {A} (cells : list A) start i c :
  nth_error cells i = Some c ->
  nth_error (List.combine (List.seq start (List.length cells)) cells) i = Some ((start + i)%nat, c).
Proof.
  revert start i. induction cells as [|x cells IH]; intros start i H.
  - destruct i; discriminate.
  - destruct i as [|i]; simpl in *.
    + injection H as ->. rewrite Nat.add_0_r. reflexivity.
    + rewrite (IH (S start) i H). f_equal. f_equal. lia.
Qed.


Lemma tableRow_nth alignments (cells : list jsstring) i cell :
  nth_error cells i = Some cell ->
  nth_error (tableRow alignments cells) i = Some (trim cell, List.nth i alignments LEFT).
Proof.
  intros H. unfold tableRow. rewrite nth_error_map, (combine_seq_nth cells 0 i cell H).
  reflexivity.
Qed.

(** *** Separator cells and the marker at the start of a line *)








(** [line.replace(/^>\s?/, '')] on a line that starts with the marker. *)
Lemma stripQuoteMarker_at_start (rest : jsstring) :
  stripQuoteMarker (str ">" ++ rest)
  = match rest with
    | c :: r => if isWhiteSpace c then r else rest
    | [] => []
    end.
Proof.
  unfold stripQuoteMarker, stripMatch, lit.
  rewrite (proj2 (stripPrefix_Some (str ">") (str ">" ++ rest) rest) eq_refl).
  unfold opt, alt, one. destruct rest as [|c r]; [reflexivity|].
  destruct (isWhiteSpace c); reflexivity.
Qed.

Lemma isBlockquote_at_start (rest : jsstring) : isBlockquote (str ">" ++ rest) = true.
Proof. reflexivity. Qed.

End ParserFacts.

(** ** The tables: collecting the same definitions again changes nothing *)

Module TableFacts.
Import JS Re Tables Doc Parser.

(** Writes of which any two either commute or the later one overrides the
    earlier one: performing a sequence of them twice is performing it
    once. *)
Section LastWriteWins.

Context {S W : Type} (write : W -> S -> S).

Hypothesis write_idem : forall w x, write w (write w x) = write w x.
Hypothesis write_pair : forall w w',
  (forall x, write w (write w' x) = write w x)
  \/ (forall x, write w (write w' x) = write w' (write w x)).

Local Abbreviation run := (List.fold_left (fun x w => write w x)).

Lemma run_absorb (ws : list W) w x :
  write w (run ws (write w x)) = write w (run ws x).
Proof.
  induction ws as [|w' ws IH] using rev_ind; simpl; [apply write_idem|].
  rewrite !fold_left_app. simpl.
  destruct (write_pair w w') as [H|H]; rewrite !H.
  - exact IH.
  - rewrite IH. reflexivity.
Qed.

Lemma run_twice (ws : list W) x : run ws (run ws x) = run ws x.
Proof.
  induction ws as [|w ws IH] using rev_ind; [reflexivity|].
  rewrite !fold_left_app. simpl. rewrite run_absorb, IH. reflexivity.
Qed.

End LastWriteWins.

Lemma collectDefinitions_tables (lines : list jsstring) g :
  collectDefinitions lines g =
  {| footnotes := List.fold_left (fun t l => writeFootnote l t) lines (footnotes g);
     referenceLinks := List.fold_left (fun t l => writeLink l t) lines (referenceLinks g) |}.
Proof.
  unfold collectDefinitions. revert g.
  induction lines as [|l lines IH]; intros g; simpl; [destruct g; reflexivity|].
  rewrite IH. unfold extractFootnoteDefinition, extractLinkDefinition, writeFootnote, writeLink.
  destruct (footnoteDefinition l) as [[i t]|]; destruct (linkDefinition l) as [[k d]|];
    reflexivity.
Qed.

Lemma setFootnote_pair k v k' v' :
  (forall t, setFootnote k v (setFootnote k' v' t) = setFootnote k v t)
  \/ (forall t, setFootnote k v (setFootnote k' v' t)
                = setFootnote k' v' (setFootnote k v t)).
Proof.
  unfold setFootnote. destruct (decide (k = k')) as [<-|Hne].
  - left. intros t. destruct (bool_decide (k = protoKey)); [reflexivity|].
    apply insert_insert_eq.
  - right. intros t.
    destruct (bool_decide (k = protoKey)), (bool_decide (k' = protoKey)); try reflexivity.
    apply insert_insert_ne. exact Hne.
Qed.

Lemma writeFootnote_pair l l' :
  (forall t, writeFootnote l (writeFootnote l' t) = writeFootnote l t)
  \/ (forall t, writeFootnote l (writeFootnote l' t) = writeFootnote l' (writeFootnote l t)).
Proof.
  unfold writeFootnote.
  destruct (footnoteDefinition l) as [[k v]|]; destruct (footnoteDefinition l') as [[k' v']|];
    try (right; reflexivity).
  apply setFootnote_pair.
Qed.

Lemma writeFootnote_idem l t : writeFootnote l (writeFootnote l t) = writeFootnote l t.
Proof.
  unfold writeFootnote. destruct (footnoteDefinition l) as [[k v]|]; [|reflexivity].
  unfold setFootnote. destruct (bool_decide (k = protoKey)); [reflexivity|].
  apply insert_insert_eq.
Qed.

Lemma setLink_pair k d k' d' :
  (forall t, setLink k d (setLink k' d' t) = setLink k d t)
  \/ (forall t, setLink k d (setLink k' d' t) = setLink k' d' (setLink k d t)).
Proof.
  unfold setLink. destruct (decide (k = k')) as [<-|Hne].
  - left. intros t. destruct (bool_decide (k = protoKey)); simpl; [reflexivity|].
    rewrite insert_insert_eq. reflexivity.
  - right. intros t.
    destruct (bool_decide (k = protoKey)) eqn:E, (bool_decide (k' = protoKey)) eqn:E';
      simpl; try reflexivity.
    + apply bool_decide_eq_true in E, E'. congruence.
    + rewrite (insert_insert_ne _ k k') by exact Hne. reflexivity.
Qed.

Lemma writeLink_pair l l' :
  (forall t, writeLink l (writeLink l' t) = writeLink l t)
  \/ (forall t, writeLink l (writeLink l' t) = writeLink l' (writeLink l t)).
Proof.
  unfold writeLink.
  destruct (linkDefinition l) as [[k d]|]; destruct (linkDefinition l') as [[k' d']|];
    try (right; reflexivity).
  apply setLink_pair.
Qed.

Lemma writeLink_idem l t : writeLink l (writeLink l t) = writeLink l t.
Proof.
  unfold writeLink. destruct (linkDefinition l) as [[k d]|]; [|reflexivity].
  destruct (setLink_pair k d k d) as [H|H]; [apply H|].
  unfold setLink. destruct (bool_decide (k = protoKey)); simpl; [reflexivity|].
  rewrite insert_insert_eq. reflexivity.
Qed.

(** The pre-scan of a text over the tables its own pre-scan left behind
    leaves them as they are. *)
Lemma collectDefinitions_twice (lines : list jsstring) g :
  collectDefinitions lines (collectDefinitions lines g) = collectDefinitions lines g.
Proof.
  rewrite !collectDefinitions_tables. cbn [footnotes referenceLinks]. f_equal.
  - apply (run_twice writeFootnote writeFootnote_idem writeFootnote_pair).
  - apply (run_twice writeLink writeLink_idem writeLink_pair).
Qed.

(** X2.  Two conversions of the same text in a row make the same calls on
    the document and leave the same tables: what a conversion adds to the
    tables it would add again. *)
Lemma same_text_twice_same_operations isLink processBlockquote cursor g (text : jsstring) :
  parseAndInsertMarkdown isLink processBlockquote cursor
    (fst (parseAndInsertMarkdown isLink processBlockquote cursor g text)) text
  = parseAndInsertMarkdown isLink processBlockquote cursor g text.
Proof.
  unfold parseAndInsertMarkdown, convertLines.
  destruct (secondPass isLink processBlockquote (collectDefinitions (split nl text) g)
              initialState (split nl text)) as [st ops] eqn:E.
  cbn [fst]. rewrite collectDefinitions_twice, E. reflexivity.
Qed.

End TableFacts.

(** ** Reference-style links in a text *)

Module InlineFacts.
Import JS Re Tables Doc Parser ReFacts.

(** A greedy run stops where the class ends: when what follows lets the
    rest of the pattern succeed, that is the match. *)
Lemma star_run {A} p (k : K A) (a r : jsstring) x :
  forallb p a = true ->
  match r with c :: _ => p c = false | [] => True end ->
  k r = Some x ->
  star p k (a ++ r) = Some x.
Proof.
  intros Ha Hr Hk. induction a as [|c a IH]; simpl.
  - destruct r as [|c r]; simpl; [exact Hk|]. rewrite Hr. exact Hk.
  - simpl in Ha. apply andb_prop in Ha as [Hc Ha]. rewrite Hc, (IH Ha). reflexivity.
Qed.

Lemma firstn_consumed (a r : jsstring) :
  List.firstn (List.length (a ++ r) - List.length r) (a ++ r) = a.
Proof.
  rewrite length_app. replace (List.length a + List.length r - List.length r)%nat
    with (List.length a + 0)%nat by lia.
  rewrite firstn_app_2. simpl. apply app_nil_r.
Qed.

Lemma capture_plus_run {A} p (k : jsstring -> K A) (a r : jsstring) x :
  a <> [] -> forallb p a = true ->
  match r with c :: _ => p c = false | [] => True end ->
  k a r = Some x ->
  capture (plus p) k (a ++ r) = Some x.
Proof.
  intros Hne Ha Hr Hk. destruct a as [|c a]; [congruence|].
  simpl in Ha. apply andb_prop in Ha as [Hc Ha].
  unfold capture, plus, one. cbn [app]. rewrite Hc.
  apply star_run; [exact Ha | exact Hr |].
  change (c :: a ++ r) with ((c :: a) ++ r). rewrite firstn_consumed. exact Hk.
Qed.

Lemma referenceLinkUsage_matches (linkText linkId rest : jsstring) :
  linkText <> [] -> forallb notRBracket linkText = true ->
  linkId <> [] -> forallb isWordChar linkId = true ->
  referenceLinkUsage (str "[" ++ linkText ++ str "][" ++ linkId ++ str "]" ++ rest)
  = Some ((linkText, linkId), rest).
Proof.
  intros Ht1 Ht2 Hi1 Hi2. unfold referenceLinkUsage.
  unfold lit at 1. cbn [str List.map list_ascii_of_string app stripPrefix]. simpl beq. cbv iota.
  apply capture_plus_run; [assumption | assumption | reflexivity |].
  unfold lit at 1. simpl stripPrefix.
  apply capture_plus_run; [assumption | assumption | reflexivity |].
  reflexivity.
Qed.

(** Past a match the scan resumes behind it. *)
Lemma scan_skip {D} (m : jsstring -> option (D * nat)) (a rest : jsstring) :
  scan m (List.length a) (a ++ rest) = scan m O rest.
Proof. induction a as [|c a IH]; [reflexivity | exact IH]. Qed.

Lemma replaceAll_match {D} (m : jsstring -> option (D * nat)) f (u rest : jsstring) d :
  u <> [] -> m (u ++ rest) = Some (d, List.length u) ->
  replaceAll m f (u ++ rest) = f d ++ replaceAll m f rest.
Proof.
  intros Hne Hm. unfold replaceAll. destruct u as [|c u]; [congruence|].
  cbn [app scan]. change (c :: u ++ rest) with ((c :: u) ++ rest). rewrite Hm.
  cbn [List.length Nat.pred]. rewrite scan_skip. reflexivity.
Qed.

(** A usage [[text][id]] at the start of a text is replaced by what the
    callback returns for it, and the scan goes on behind it. *)
Lemma reference_link_usage_replaced g (linkText linkId rest : jsstring) :
  linkText <> [] -> forallb notRBracket linkText = true ->
  linkId <> [] -> forallb isWordChar linkId = true ->
  processReferenceLinksInText g (str "[" ++ linkText ++ str "][" ++ linkId ++ str "]" ++ rest)
  = resolveReferenceLink g (linkText, linkId) ++ processReferenceLinksInText g rest.
Proof.
  intros Ht1 Ht2 Hi1 Hi2. unfold processReferenceLinksInText.
  rewrite !app_assoc. rewrite <- !app_assoc.
  replace (str "[" ++ linkText ++ str "][" ++ linkId ++ str "]" ++ rest)
    with ((str "[" ++ linkText ++ str "][" ++ linkId ++ str "]") ++ rest)
    by (rewrite <- !app_assoc; reflexivity).
  apply replaceAll_match; [discriminate|].
  unfold matchLen. rewrite <- !app_assoc.
  rewrite (referenceLinkUsage_matches linkText linkId rest) by assumption.
  f_equal. f_equal. rewrite !length_app. lia.
Qed.

(** The callback: an identifier with a definition of its own gives the text
    and the URL in parentheses; an identifier for which the table yields
    [undefined] gives the bare text. *)
Lemma resolve_defined g (linkText linkId : jsstring) d :
  own (referenceLinks g) !! linkId = Some d ->
  resolveReferenceLink g (linkText, linkId) = linkText ++ str " (" ++ url d ++ str ")".
Proof. intros H. unfold resolveReferenceLink, getLink. rewrite H. reflexivity. Qed.

Lemma resolve_undefined g (linkText linkId : jsstring) :
  getLink (referenceLinks g) linkId = None ->
  resolveReferenceLink g (linkText, linkId) = linkText.
Proof. intros H. unfold resolveReferenceLink. rewrite H. reflexivity. Qed.

(** The table yields [undefined] for a name that has no definition and is
    not inherited. *)
Lemma getLink_undefined t (linkId : jsstring) :
  own t !! linkId = None -> proto t = None -> isInherited linkId = false ->
  getLink t linkId = None.
Proof. intros Ho Hp Hi. unfold getLink. rewrite Ho, Hp, Hi. reflexivity. Qed.

End InlineFacts.

(** * The specification, claim by claim *)

Import JS Re Tables Doc Parser JSFacts ReFacts ParserFacts.

Section Claims.

Variable isLink : jsstring -> bool.
Variable processBlockquote : list jsstring -> list jsstring.

Local Abbreviation processLine := (processLine isLink processBlockquote).
Local Abbreviation secondPass := (secondPass isLink processBlockquote).
Local Abbreviation convertLines := (convertLines isLink processBlockquote).
Local Abbreviation finalize := (finalize processBlockquote).

(** C2, as the code has it.  A fenced code block met outside a code block
    (a line starting with three backticks, lines that do not start with
    three backticks, a line starting with three backticks) yields exactly
    one [CodeBlock]; its raw text is the interior lines joined by newlines
    and then trimmed of the white space at both ends of the whole text.
    The interior lines are not rewritten in any other way, and what comes
    before and after the block is processed as without it. *)
Theorem code_block_text_is_trimmed_interior
    g (prefix : list jsstring) (opening : jsstring) (interior : list jsstring)
    (closing : jsstring) (suffix : list jsstring) :
  inCodeBlock (fst (secondPass g initialState prefix)) = false ->
  startsWith fence opening = true ->
  startsWith fence closing = true ->
  Forall (fun l => startsWith fence l = false) interior ->
  secondPass g initialState (prefix ++ (opening :: interior ++ [closing]) ++ suffix) =
  (fst (secondPass g (fst (secondPass g initialState prefix)) suffix),
   snd (secondPass g initialState prefix)
   ++ [CodeBlock (trim (join [nl] interior))]
   ++ snd (secondPass g (fst (secondPass g initialState prefix)) suffix)).
Proof.
  intros Hin Hopen Hclose Hall. apply block_in_context.
  apply fenced_block; try assumption.
  apply (secondPass_buffersClosed isLink processBlockquote g initialState prefix
           buffersClosed_initial). exact Hin.
Qed.

(** C6, as the code has it.  A run of lines that each start with the marker
    ">" and hold no image, met outside a blockquote and outside a code block
    and followed by a blank line, yields exactly one [BlockquoteBlock]: the
    lines of the run, each without its marker and without one white-space
    character directly behind the marker, as [processBlockquote] returns them,
    joined by newlines.  The blank line ends the blockquote and nothing is
    emitted for it. *)
Theorem blockquote_closed_by_blank_line
    g (prefix : list jsstring) (rest : jsstring) (rests : list jsstring)
    (blank : jsstring) (suffix : list jsstring) :
  inCodeBlock (fst (secondPass g initialState prefix)) = false ->
  inBlockquote (fst (secondPass g initialState prefix)) = false ->
  Forall (fun r => isImage (str ">" ++ r) = false) (rest :: rests) ->
  trim blank = [] ->
  secondPass g initialState
    (prefix ++ (List.map (fun r => str ">" ++ r) (rest :: rests) ++ [blank]) ++ suffix) =
  (fst (secondPass g (fst (secondPass g initialState prefix)) suffix),
   snd (secondPass g initialState prefix)
   ++ [BlockquoteBlock
         (join [nl]
            (processBlockquote
               (List.map (fun r => match r with
                                   | c :: r' => if isWhiteSpace c then r' else r
                                   | [] => []
                                   end) (rest :: rests))))]
   ++ snd (secondPass g (fst (secondPass g initialState prefix)) suffix)).
Proof.
  intros Hin Hbq Hall Hblank. apply block_in_context.
  assert (Hquotes : Forall (fun q => isBlockquote q = true /\ isImage q = false)
                      ((str ">" ++ rest) :: List.map (fun r => str ">" ++ r) rests)).
  { change (Forall (fun q => isBlockquote q = true /\ isImage q = false)
              (List.map (fun r => str ">" ++ r) (rest :: rests))).
    rewrite List.Forall_map. eapply List.Forall_impl; [|exact Hall].
    intros r Hr. split; [apply isBlockquote_at_start | exact Hr]. }
  pose proof (blockquote_run isLink processBlockquote g
                (fst (secondPass g initialState prefix)) (str ">" ++ rest)
                (List.map (fun r => str ">" ++ r) rests) blank Hin Hbq
                (proj1 (proj2 (secondPass_buffersClosed isLink processBlockquote g
                                 initialState prefix buffersClosed_initial)) Hbq)
                Hquotes Hblank) as Hrun.
  etransitivity; [exact Hrun|]. f_equal. f_equal. f_equal. f_equal. f_equal.
  change (List.map stripQuoteMarker (List.map (fun r => str ">" ++ r) (rest :: rests))
          = List.map (fun r => match r with
                               | c :: r' => if isWhiteSpace c then r' else r
                               | [] => []
                               end) (rest :: rests)).
  rewrite List.map_map. apply List.map_ext. intros r. apply stripQuoteMarker_at_start.
Qed.

(** C3, as the code has it.  After the last line the buffers still open are
    flushed, the table first, then the blockquote, then the code block: an
    open code block as one [CodeBlock] of its trimmed buffer, an open
    blockquote as one [BlockquoteBlock], an open table as one [TableBlock]
    when it has buffered at least three lines (with fewer, [insertTable]
    emits nothing).  An input that ends inside a fenced block, the fence
    never closed, ends with the [CodeBlock] of the trimmed interior lines; in
    particular a fence line, the line "code" and no closing fence yield one
    [CodeBlock] holding "code". *)
Theorem open_constructs_flushed_at_end g :
  (forall lines : list jsstring,
      let g' := collectDefinitions lines g in
      let st := fst (secondPass g' initialState lines) in
      snd (convertLines g lines) =
      snd (secondPass g' initialState lines)
      ++ (if inTable st && (3 <=? List.length (tableLines st))%nat
          then insertTable (tableLines st) else [])
      ++ (if inBlockquote st
          then [BlockquoteBlock (join [nl] (processBlockquote (blockquoteLines st)))]
          else [])
      ++ (if inCodeBlock st then [CodeBlock (trim (codeBlockText st))] else []))
  /\ (forall tableLines : list jsstring,
        (3 <= List.length tableLines)%nat ->
        exists header rows, insertTable tableLines = [TableBlock header rows])
  /\ (forall (prefix : list jsstring) (opening : jsstring) (interior : list jsstring),
        let g' := collectDefinitions (prefix ++ opening :: interior) g in
        inCodeBlock (fst (secondPass g' initialState prefix)) = false ->
        startsWith fence opening = true ->
        Forall (fun l => startsWith fence l = false) interior ->
        snd (convertLines g (prefix ++ opening :: interior)) =
        snd (secondPass g' initialState prefix)
        ++ finalize (fst (secondPass g' initialState prefix))
        ++ [CodeBlock (trim (join [nl] interior))])
  /\ snd (convertLines g (split nl (str "```" ++ [nl] ++ str "code" ++ [nl])))
     = [CodeBlock (str "code")].
Proof.
  split; [|split; [|split; [|reflexivity]]].
  - intros lines g' st. unfold Parser.convertLines. fold g'.
    destruct (secondPass g' initialState lines) as [st' ops] eqn:E.
    subst st. cbn [fst snd]. f_equal. unfold Parser.finalize, insertBlockquote, insertCodeBlock.
    rewrite trim_idem. f_equal.
    destruct (inTable st'); [|reflexivity]. cbn [andb].
    unfold insertTable.
    destruct (3 <=? List.length (tableLines st'))%nat eqn:E3.
    + apply Nat.leb_le in E3. destruct (Nat.ltb_spec (List.length (tableLines st')) 3);
        [lia | reflexivity].
    + apply Nat.leb_gt in E3. destruct (Nat.ltb_spec (List.length (tableLines st')) 3);
        [reflexivity | lia].
  - intros tl Hlen. unfold insertTable.
    destruct (Nat.ltb_spec (List.length tl) 3); [lia|]. eauto.
  - intros prefix opening interior g' Hin Hopen Hall. unfold Parser.convertLines. fold g'.
    rewrite secondPass_app.
    pose proof (secondPass_buffersClosed isLink processBlockquote g' initialState prefix
                  buffersClosed_initial) as (Hc & _).
    destruct (secondPass g' initialState prefix) as [st ops]. cbn [fst snd] in *.
    change (opening :: interior) with ([opening] ++ interior).
    rewrite secondPass_app. cbn [Parser.secondPass]. unfold Parser.processLine at 1.
    rewrite Hopen, Hin.
    rewrite code_lines_buffered by (assumption || reflexivity).
    cbn [fst snd app]. rewrite app_nil_r. f_equal.
    unfold Parser.finalize.
    cbn [inTable inBlockquote inCodeBlock setCode tableLines blockquoteLines codeBlockText].
    rewrite Hin, (Hc Hin), app_nil_r. cbn [app]. unfold insertCodeBlock.
    rewrite trim_buffer. rewrite <- !app_assoc. reflexivity.
Qed.

End Claims.

(** ** C1: list nesting *)

(** [insertList] itself implements the stack: given the five lines as one
    text it emits the levels 0, 1, 2, 1, 0. *)
Lemma insertList_on_whole_text :
  insertList (join [nl] [str "- a"; str "  - b"; str "    - c"; str "  - d"; str "- e"])
  = [ListItem (str "a") false 0; ListItem (str "b") false 1; ListItem (str "c") false 2;
     ListItem (str "d") false 1; ListItem (str "e") false 0].
Proof. vm_compute. reflexivity. Qed.

(** C1, what the code does.  For every text, every list item the conversion
    emits is at nesting level 0: the parser calls [insertList] once for each
    line, and each call starts from an empty stack.  At the input "- a",
    "  - b", "    - c", "  - d", "- e" the five items are emitted at levels
    0, 0, 0, 0, 0. *)
Theorem list_items_all_at_level_zero :
  (forall isLink processBlockquote cursor g (text : jsstring),
      Forall (eq 0%Z)
        (nestingLevels (snd (parseAndInsertMarkdown isLink processBlockquote cursor g text))))
  /\ (let text := join [nl] [str "- a"; str "  - b"; str "    - c"; str "  - d"; str "- e"] in
      snd (convert NoCursor freshGlobals text)
      = [AppendParagraph text;
         ListItem (str "a") false 0; ListItem (str "b") false 0; ListItem (str "c") false 0;
         ListItem (str "d") false 0; ListItem (str "e") false 0]).
Proof.
  split; [|vm_compute; reflexivity].
  intros isLink processBlockquote cursor g text.
  unfold parseAndInsertMarkdown, convertLines.
  pose proof (secondPass_levels isLink processBlockquote
                (collectDefinitions (split nl text) g) initialState (split nl text)
                (split_lines_noNewline text)) as H.
  destruct (secondPass _ _ _ _ _) as [st ops]. cbn [snd] in *.
  rewrite !nestingLevels_app, finalize_no_item, app_nil_r.
  destruct cursor as [|[|]]; exact H.
Qed.

(** ** C2: code blocks *)

Lemma code_block_text_witness :
  blocks freshGlobals initialState
    ([str "# T"] ++ (str "```js" :: [str "  **x**"; str "# y |"] ++ [str "```"]) ++ [str "end"])
  = (fst (blocks freshGlobals (fst (blocks freshGlobals initialState [str "# T"])) [str "end"]),
     snd (blocks freshGlobals initialState [str "# T"])
     ++ [CodeBlock (trim (join [nl] [str "  **x**"; str "# y |"]))]
     ++ snd (blocks freshGlobals (fst (blocks freshGlobals initialState [str "# T"])) [str "end"])).
Proof.
  apply (code_block_text_is_trimmed_interior isLinkSpec processBlockquoteSpec freshGlobals
           [str "# T"] (str "```js") [str "  **x**"; str "# y |"] (str "```") [str "end"]).
  - vm_compute. reflexivity.
  - vm_compute. reflexivity.
  - vm_compute. reflexivity.
  - repeat constructor.
Defined.

(** C2 as stated fails when the interior starts or ends with white space:
    the one interior line "  x" is emitted as "x", which is not the interior
    lines joined by newlines. *)
Lemma code_block_loses_outer_white_space :
  let text := join [nl] [str "```"; str "  x"; str "```"] in
  snd (convert NoCursor freshGlobals text) = [AppendParagraph text; CodeBlock (str "x")]
  /\ str "x" <> join [nl] [str "  x"].
Proof. split; [vm_compute; reflexivity | discriminate]. Qed.

(** ** C3: finalization *)

Lemma open_fence_flushed_witness :
  snd (Parser.convertLines isLinkSpec processBlockquoteSpec freshGlobals
         ([str "> q"] ++ str "```" :: [str "a"; str " b "]))
  = snd (blocks (collectDefinitions ([str "> q"] ++ str "```" :: [str "a"; str " b "]) freshGlobals)
           initialState [str "> q"])
    ++ Parser.finalize processBlockquoteSpec
         (fst (blocks (collectDefinitions ([str "> q"] ++ str "```" :: [str "a"; str " b "]) freshGlobals)
                 initialState [str "> q"]))
    ++ [CodeBlock (trim (join [nl] [str "a"; str " b "]))].
Proof.
  apply (proj1 (proj2 (proj2
           (open_constructs_flushed_at_end isLinkSpec processBlockquoteSpec freshGlobals)))
           [str "> q"] (str "```") [str "a"; str " b "]).
  - vm_compute. reflexivity.
  - vm_compute. reflexivity.
  - repeat constructor.
Defined.

(** C3 as stated fails for a short table: two table lines and the end of the
    input leave the table open with both lines buffered, and finalization
    emits nothing for them. *)
Lemma short_table_dropped_at_end :
  let text := join [nl] [str "| a |"; str "| b |"] in
  snd (convert NoCursor freshGlobals text) = [AppendParagraph text]
  /\ inTable (fst (blocks freshGlobals initialState (split nl text))) = true
  /\ tableLines (fst (blocks freshGlobals initialState (split nl text)))
     = [str "| a |"; str "| b |"].
Proof. repeat split; vm_compute; reflexivity. Qed.

(** ** C4: footnotes *)

(** C4 at the input "[^a]: note", "text[^a]": the definition line is
    processed as text, so its own "[^a]" inserts the footnote once more and
    what is left of it, ": note", is appended as a paragraph (twice: with the
    indentation and plainly); the reference in the second line inserts the
    footnote a second time. *)
Theorem footnote_definition_line_is_rendered :
  let text := join [nl] [str "[^a]: note"; str "text[^a]"] in
  snd (convert NoCursor freshGlobals text)
  = [AppendParagraph text;
     FootnoteRef (FootText (str "note"));
     IndentedParagraph (str ": note") 0; AppendParagraph (str ": note");
     FootnoteRef (FootText (str "note"));
     IndentedParagraph (str "text") 0; AppendParagraph (str "text")].
Proof. vm_compute. reflexivity. Qed.

(** ** C5: table alignments *)



(** ** C6: blockquotes *)

Lemma blockquote_closed_witness :
  blocks freshGlobals initialState
    ([str "# T"] ++ (List.map (fun r => str ">" ++ r) [str " q"; str "r"] ++ [str "  "])
     ++ [str "end"])
  = (fst (blocks freshGlobals (fst (blocks freshGlobals initialState [str "# T"])) [str "end"]),
     snd (blocks freshGlobals initialState [str "# T"])
     ++ [BlockquoteBlock (str "q" ++ [nl] ++ str "r")]
     ++ snd (blocks freshGlobals (fst (blocks freshGlobals initialState [str "# T"])) [str "end"])).
Proof.
  apply (blockquote_closed_by_blank_line isLinkSpec processBlockquoteSpec freshGlobals
           [str "# T"] (str " q") [str "r"] (str "  ") [str "end"]);
    [reflexivity | reflexivity | repeat constructor | reflexivity].
Defined.

(** C6 as stated fails in three ways.  A terminating line that is not blank
    does not close the blockquote: after "> q" the heading "# T" is emitted
    while the blockquote stays open, and the line "text" is appended to the
    buffer.  A blank terminating line is not processed on its own: after
    "> q" it emits nothing, where a blank line outside a blockquote emits two
    paragraphs.  A marker behind white space is not removed: "  > q" is
    emitted with its marker. *)
Lemma blockquote_not_closed_by_other_line :
  snd (blocks freshGlobals initialState [str "> q"; str "# T"]) = [Heading 1 (str "T")]
  /\ inBlockquote (fst (blocks freshGlobals initialState [str "> q"; str "# T"])) = true
  /\ snd (blocks freshGlobals initialState [str "> q"; str "# T"])
     <> BlockquoteBlock (str "q") :: snd (blocks freshGlobals initialState [str "# T"])
  /\ snd (convert NoCursor freshGlobals (join [nl] [str "> q"; str "# T"]))
     = [AppendParagraph (join [nl] [str "> q"; str "# T"]);
        Heading 1 (str "T"); BlockquoteBlock (str "q")]
  /\ snd (convert NoCursor freshGlobals (join [nl] [str "> q"; str "text"]))
     = [AppendParagraph (join [nl] [str "> q"; str "text"]);
        IndentedParagraph (str "text") 0;
        BlockquoteBlock (join [nl] [str "q"; str "text"])]
  /\ snd (blocks freshGlobals initialState [str "> q"; str ""]) = [BlockquoteBlock (str "q")]
  /\ snd (blocks freshGlobals initialState [str ""])
     = [IndentedParagraph (str "") 0; AppendParagraph (str "")]
  /\ snd (blocks freshGlobals initialState [str "  > q"; str ""])
     = [BlockquoteBlock (str "  > q")].
Proof. repeat split; try (vm_compute; reflexivity). vm_compute. discriminate. Qed.

(** ** C7: inline emphasis *)

(** C7, as the code has it.  [processAdvancedFormatting] rewrites the
    markers into tags inside the text of the line, bold ("**", then "__")
    before italic ("*", then "_") before strikethrough; it has no pattern
    of its own for bold-italic.  For "***bold-italic***" the text becomes
    "<b><i>bold-italic</b></i>", in which no asterisk is left; for
    "**bold** and *italic*" it becomes "<b>bold</b> and <i>italic</i>".
    The order shows: with italic resolved before bold the second text would
    come out differently. *)
Theorem emphasis_rewritten_as_tags_bold_first :
  (forall line,
      processAdvancedFormatting line =
      simulate (str "~~") (str "~~") (str "strike")
        (simulate (str "_") (str "_") (str "i")
           (simulate (str "*") (str "*") (str "i")
              (simulate (str "__") (str "__") (str "b")
                 (simulate (str "**") (str "**") (str "b") line)))))
  /\ processAdvancedFormatting (str "***bold-italic***") = str "<b><i>bold-italic</b></i>"
  /\ Forall (fun c => c <> 42) (processAdvancedFormatting (str "***bold-italic***"))
  /\ processAdvancedFormatting (str "**bold** and *italic*")
     = str "<b>bold</b> and <i>italic</i>"
  /\ simulate (str "**") (str "**") (str "b")
       (simulate (str "*") (str "*") (str "i") (str "**bold** and *italic*"))
     <> processAdvancedFormatting (str "**bold** and *italic*").
Proof.
  split; [reflexivity|]. split; [vm_compute; reflexivity|].
  split; [vm_compute; repeat constructor; discriminate|].
  split; [vm_compute; reflexivity|]. vm_compute. discriminate.
Qed.

(** C7 as stated fails: for "***bold-italic***" the parser appends plain
    paragraphs whose text holds the tags; there is no run with the bold or
    the italic flag set, and no run whose text is "bold-italic". *)
Lemma emphasis_yields_no_styled_run :
  let ops := snd (convert NoCursor freshGlobals (str "***bold-italic***")) in
  ops = [AppendParagraph (str "***bold-italic***");
         IndentedParagraph (str "<b><i>bold-italic</b></i>") 0;
         AppendParagraph (str "<b><i>bold-italic</b></i>")]
  /\ Forall (fun r => runBold r = false /\ runItalic r = false
                      /\ runText r <> str "bold-italic")
       (List.concat (List.map runs ops))
  /\ List.concat (List.map runs ops)
     <> [{| runText := str "bold-italic"; runBold := true; runItalic := true;
            runStrikethrough := false |}].
Proof.
  split; [vm_compute; reflexivity|].
  split; [vm_compute; repeat constructor; discriminate | vm_compute; discriminate].
Qed.

(** The styling of MarkdownUtils.js does resolve bold-italic first, then
    bold, italic and strikethrough, but over the text of the paragraph as it
    was appended: the markers stay in the text. *)
Lemma applyBasicFormatting_keeps_markers :
  MarkdownUtils.insertParagraph (str "***bold-italic***")
  = (AppendParagraph (str "***bold-italic***"),
     [MarkdownUtils.SetBold 3 13; MarkdownUtils.SetItalic 3 13;
      MarkdownUtils.SetBold 2 13;
      MarkdownUtils.SetItalic 0 (-1); MarkdownUtils.SetItalic 3 13;
      MarkdownUtils.SetItalic 0 (-1)]).
Proof. vm_compute. reflexivity. Qed.

(** ** C8: horizontal rules *)

(** X15.  [regex.horizontalRule] of MarkdownUtils.js accepts exactly the
    lines of three or more dashes. *)
Lemma horizontalRule_pattern (line : jsstring) :
  test MarkdownUtils.horizontalRule line = true
  <-> exists n, (3 <= n)%nat /\ line = repeat 45 n.
Proof.
  unfold MarkdownUtils.horizontalRule. rewrite test_true, exactly_accepts. split.
  - intros (a & r & -> & Hl & Ha & H). apply star_accepts in H as (b & r' & -> & Hb & H).
    apply eos_accepts in H as [-> _]. rewrite app_nil_r.
    exists (List.length (a ++ b)). split; [rewrite length_app; lia|].
    apply dashes_repeat. rewrite forallb_app, Ha, Hb. reflexivity.
  - intros (n & Hn & ->). exists (repeat 45 3), (repeat 45 (n - 3)).
    rewrite <- repeat_app. replace (3 + (n - 3))%nat with n by lia.
    split; [reflexivity|]. split; [reflexivity|]. split; [reflexivity|].
    apply star_accepts. exists (repeat 45 (n - 3)), [].
    rewrite app_nil_r. split; [reflexivity|]. split.
    + apply dashes_repeat. rewrite repeat_length. reflexivity.
    + apply eos_accepts. split; [reflexivity | apply accept_ok].
Qed.

(** C8 at the input "---x": the parser tests [line.startsWith('---')], so a
    line that begins with three dashes and goes on with other characters is
    emitted as a horizontal rule, whatever the tables and the cursor; the
    pattern of MarkdownUtils.js rejects the same line. *)
Theorem dashes_prefix_is_a_rule :
  (forall isLink processBlockquote cursor g,
      snd (parseAndInsertMarkdown isLink processBlockquote cursor g (str "---x"))
      = insertRawText cursor (str "---x") ++ [HorizontalRule])
  /\ test MarkdownUtils.horizontalRule (str "---x") = false.
Proof. split; [intros; reflexivity | vm_compute; reflexivity]. Qed.

(** ** C9: the tables between calls *)

(** C9 at two calls in a row, the first on "[^a]: note", the second on
    "see[^a]": the pre-scan of the second call collects no definition, yet
    its main pass finds the footnote of the first call in the table and
    inserts it.  On fresh tables the same input inserts no footnote. *)
Theorem footnote_of_earlier_call_is_used :
  let first := convert NoCursor freshGlobals (str "[^a]: note") in
  let second := convert NoCursor (fst first) (str "see[^a]") in
  footnotes (collectDefinitions (split nl (str "see[^a]")) freshGlobals) = ∅
  /\ footnotes (fst second) !! str "a" = Some (str "note")
  /\ snd second
     = [AppendParagraph (str "see[^a]"); FootnoteRef (FootText (str "note"));
        IndentedParagraph (str "see") 0; AppendParagraph (str "see")]
  /\ snd (convert NoCursor freshGlobals (str "see[^a]"))
     = [AppendParagraph (str "see[^a]");
        IndentedParagraph (str "see") 0; AppendParagraph (str "see")].
Proof. repeat split; vm_compute; reflexivity. Qed.

(** ** C10: reference-style links *)

(** C10 at the usage "[x][constructor]" with no definition collected:
    [referenceLinks["constructor"]] is the member inherited from
    [Object.prototype], which is truthy and has no [url]. *)
Theorem inherited_name_taken_for_a_definition :
  own (referenceLinks freshGlobals) !! str "constructor" = None
  /\ processReferenceLinksInText freshGlobals (str "[x][constructor]")
     = str "x (undefined)".
Proof. split; vm_compute; reflexivity. Qed.

(** * Further properties of the code *)

Module MoreFacts.
Import JS Re Tables Doc Parser JSFacts ReFacts ParserFacts InlineFacts.

Lemma firstn_whole (s : jsstring) : List.firstn (List.length s - List.length (@nil char)) s = s.
Proof. simpl. rewrite Nat.sub_0_r. apply firstn_all. Qed.

(** A greedy run that reaches the end of the input. *)
Lemma star_to_end {A} p (k : K A) (a : jsstring) x :
  forallb p a = true -> k [] = Some x -> star p k a = Some x.
Proof.
  intros Ha Hk. rewrite <- (app_nil_r a). apply star_run; [exact Ha | exact I | exact Hk].
Qed.

Lemma footnoteDefinition_matches (identifier ws text : jsstring) :
  identifier <> [] -> forallb isWordChar identifier = true ->
  forallb isWhiteSpace ws = true ->
  forallb dot text = true ->
  match text with c :: _ => isWhiteSpace c = false | [] => True end ->
  footnoteDefinition (str "[^" ++ identifier ++ str "]:" ++ ws ++ text)
  = Some (identifier, text).
Proof.
  intros Hi1 Hi2 Hws Ht1 Ht2. unfold footnoteDefinition.
  unfold lit at 1. simpl stripPrefix.
  apply capture_plus_run; [assumption | assumption | reflexivity |].
  unfold lit at 1. simpl stripPrefix.
  apply star_run; [assumption | assumption |].
  unfold capture. apply star_to_end; [assumption|].
  unfold eos. rewrite firstn_whole. reflexivity.
Qed.

Lemma linkDefinition_matches (linkId ws u : jsstring) :
  linkId <> [] -> forallb isWordChar linkId = true ->
  forallb isWhiteSpace ws = true ->
  u <> [] -> forallb notWhiteSpace u = true ->
  linkDefinition (str "[" ++ linkId ++ str "]:" ++ ws ++ u)
  = Some (linkId, {| url := u; title := [] |}).
Proof.
  intros Hi1 Hi2 Hws Hu1 Hu2. unfold linkDefinition.
  unfold lit at 1. simpl stripPrefix.
  apply capture_plus_run; [assumption | assumption | reflexivity |].
  unfold lit at 1. simpl stripPrefix.
  apply star_run; [assumption | |].
  { destruct u as [|c u]; [congruence|]. simpl in Hu2.
    apply andb_prop in Hu2 as [Hc _]. unfold notWhiteSpace in Hc.
    destruct (isWhiteSpace c); [discriminate | reflexivity]. }
  pose proof (fun k x => @capture_plus_run (jsstring * LinkDef) notWhiteSpace k u [] x
                           Hu1 Hu2 I) as H.
  rewrite app_nil_r in H. apply H. reflexivity.
Qed.

(** Lines that do not define a key leave its entry alone. *)
Lemma writeFootnote_other (l : jsstring) (t : Footnotes) (k : jsstring) :
  (forall v, footnoteDefinition l <> Some (k, v)) ->
  writeFootnote l t !! k = t !! k.
Proof.
  intros H. unfold writeFootnote. destruct (footnoteDefinition l) as [[i v]|]; [|reflexivity].
  unfold setFootnote. destruct (bool_decide (i = protoKey)); [reflexivity|].
  apply lookup_insert_ne. intros ->. exact (H v eq_refl).
Qed.

Lemma fold_writeFootnote_other (lines : list jsstring) (t : Footnotes) (k : jsstring) :
  Forall (fun l => forall v, footnoteDefinition l <> Some (k, v)) lines ->
  List.fold_left (fun t l => writeFootnote l t) lines t !! k = t !! k.
Proof.
  revert t. induction lines as [|l lines IH]; intros t Hall; [reflexivity|].
  inversion Hall; subst. simpl. rewrite IH by assumption.
  apply writeFootnote_other. assumption.
Qed.

Lemma matchAll_match {D} (m : jsstring -> option (D * nat)) (u rest : jsstring) d :
  u <> [] -> m (u ++ rest) = Some (d, List.length u) ->
  matchAll m (u ++ rest) = d :: matchAll m rest.
Proof.
  intros Hne Hm. unfold matchAll. destruct u as [|c u]; [congruence|].
  cbn [app scan]. change (c :: u ++ rest) with ((c :: u) ++ rest). rewrite Hm.
  cbn [List.length Nat.pred]. rewrite scan_skip. reflexivity.
Qed.

Lemma lit_prefix {A} (p : jsstring) (k : K A) (r : jsstring) : lit p k (p ++ r) = k r.
Proof.
  unfold lit. destruct (stripPrefix p (p ++ r)) as [r'|] eqn:E.
  - apply stripPrefix_Some, app_inv_head in E. subst. reflexivity.
  - assert (H : stripPrefix p (p ++ r) = Some r) by (apply stripPrefix_Some; reflexivity).
    congruence.
Qed.

Lemma footnoteReference_matches (identifier rest : jsstring) :
  identifier <> [] -> forallb isWordChar identifier = true ->
  matchLen footnoteReference (str "[^" ++ identifier ++ str "]" ++ rest)
  = Some (identifier, List.length (str "[^" ++ identifier ++ str "]")).
Proof.
  intros H1 H2. unfold matchLen, footnoteReference. rewrite lit_prefix.
  rewrite (capture_plus_run isWordChar _ identifier (str "]" ++ rest) (identifier, rest));
    [| assumption | assumption | reflexivity | rewrite lit_prefix; reflexivity].
  f_equal. f_equal. rewrite !length_app. simpl. lia.
Qed.

End MoreFacts.

Import MoreFacts InlineFacts TableFacts.

(** ** The loop of [parseAndInsertMarkdown] *)

(** X1.  Whatever lines the second pass has gone through, the buffer of
    every construct that is not open is empty: a closed code block leaves no
    text behind, a closed blockquote and a closed table no lines. *)
Theorem closed_construct_buffer_empty isLink processBlockquote g (lines : list jsstring) :
  (inCodeBlock (fst (secondPass isLink processBlockquote g initialState lines)) = false ->
   codeBlockText (fst (secondPass isLink processBlockquote g initialState lines)) = [])
  /\ (inBlockquote (fst (secondPass isLink processBlockquote g initialState lines)) = false ->
      blockquoteLines (fst (secondPass isLink processBlockquote g initialState lines)) = [])
  /\ (inTable (fst (secondPass isLink processBlockquote g initialState lines)) = false ->
      tableLines (fst (secondPass isLink processBlockquote g initialState lines)) = []).
Proof.
  exact (secondPass_buffersClosed isLink processBlockquote g initialState lines
           buffersClosed_initial).
Qed.

(** ** The first pass: definitions *)

(** X3.  A line "[^id]:", white space, text (the identifier made of word
    characters, the text free of line terminators and not starting with white
    space) is a footnote definition: [extractFootnoteDefinition] returns
    [true] and afterwards [footnotes[id]] is the text.  The identifier
    [__proto__] is the exception: the table is left as it was. *)
Theorem footnote_definition_stored g (identifier ws text : jsstring) :
  identifier <> [] -> forallb isWordChar identifier = true ->
  forallb isWhiteSpace ws = true ->
  forallb dot text = true ->
  match text with c :: _ => isWhiteSpace c = false | [] => True end ->
  let line := str "[^" ++ identifier ++ str "]:" ++ ws ++ text in
  snd (extractFootnoteDefinition line g) = true
  /\ (identifier <> protoKey ->
      getFootnote (footnotes (fst (extractFootnoteDefinition line g))) identifier
      = Some (FootText text))
  /\ (identifier = protoKey -> fst (extractFootnoteDefinition line g) = g).
Proof.
  intros H1 H2 Hws Ht1 Ht2 line. unfold extractFootnoteDefinition, line.
  rewrite (footnoteDefinition_matches identifier ws text) by assumption.
  cbn [fst snd footnotes]. split; [reflexivity|]. unfold setFootnote, getFootnote. split.
  - intros Hne. rewrite bool_decide_eq_false_2 by exact Hne.
    rewrite lookup_insert_eq. reflexivity.
  - intros ->. rewrite bool_decide_eq_true_2 by reflexivity. destruct g. reflexivity.
Qed.

Lemma footnote_definition_stored_witness :
  snd (extractFootnoteDefinition (str "[^" ++ str "n1" ++ str "]:" ++ str "  " ++ str "a note")
         freshGlobals) = true
  /\ (str "n1" <> protoKey ->
      getFootnote
        (footnotes (fst (extractFootnoteDefinition
                           (str "[^" ++ str "n1" ++ str "]:" ++ str "  " ++ str "a note")
                           freshGlobals))) (str "n1")
      = Some (FootText (str "a note")))
  /\ (str "n1" = protoKey ->
      fst (extractFootnoteDefinition (str "[^" ++ str "n1" ++ str "]:" ++ str "  " ++ str "a note")
             freshGlobals) = freshGlobals).
Proof.
  apply (footnote_definition_stored freshGlobals (str "n1") (str "  ") (str "a note"));
    solve [discriminate | reflexivity].
Defined.

(** X4.  Of several definitions of one footnote identifier the last one is
    the one the main pass finds: after the pre-scan, the table holds for an
    identifier (other than [__proto__]) the text of the last line that
    defines it, whatever the table held before and whatever the other lines
    are. *)
Theorem last_footnote_definition_wins g (before : list jsstring) (line : jsstring)
    (after : list jsstring) (identifier text : jsstring) :
  footnoteDefinition line = Some (identifier, text) ->
  identifier <> protoKey ->
  Forall (fun l => forall v, footnoteDefinition l <> Some (identifier, v)) after ->
  footnotes (collectDefinitions (before ++ line :: after) g) !! identifier = Some text.
Proof.
  intros Hdef Hne Hafter. rewrite collectDefinitions_tables. cbn [footnotes].
  rewrite fold_left_app. cbn [List.fold_left].
  rewrite fold_writeFootnote_other by exact Hafter.
  unfold writeFootnote at 1. rewrite Hdef. unfold setFootnote.
  rewrite bool_decide_eq_false_2 by exact Hne. apply lookup_insert_eq.
Qed.

Lemma last_footnote_definition_wins_witness :
  footnotes (collectDefinitions ([str "[^a]: first"] ++ str "[^a]: second" :: [str "[^b]: other"])
               freshGlobals) !! str "a" = Some (str "second").
Proof.
  apply (last_footnote_definition_wins freshGlobals [str "[^a]: first"] (str "[^a]: second")
           [str "[^b]: other"] (str "a") (str "second")).
  - vm_compute. reflexivity.
  - discriminate.
  - repeat constructor. intros v. vm_compute. discriminate.
Defined.

(** X5.  A link definition and its use.  After [extractLinkDefinition] has
    read the line "[id]:", white space, url (no title), a usage "[text][id]"
    at the start of a text is replaced by the text followed by the url in
    parentheses, and the replacement goes on behind the usage. *)
Theorem link_definition_then_usage g (linkId ws u linkText rest : jsstring) :
  linkId <> [] -> forallb isWordChar linkId = true ->
  forallb isWhiteSpace ws = true ->
  u <> [] -> forallb notWhiteSpace u = true ->
  linkText <> [] -> forallb notRBracket linkText = true ->
  linkId <> protoKey ->
  let g' := fst (extractLinkDefinition (str "[" ++ linkId ++ str "]:" ++ ws ++ u) g) in
  processReferenceLinksInText g' (str "[" ++ linkText ++ str "][" ++ linkId ++ str "]" ++ rest)
  = linkText ++ str " (" ++ u ++ str ")" ++ processReferenceLinksInText g' rest.
Proof.
  intros Hi1 Hi2 Hws Hu1 Hu2 Ht1 Ht2 Hne g'.
  rewrite reference_link_usage_replaced by assumption.
  rewrite (resolve_defined g' linkText linkId {| url := u; title := [] |}).
  - cbn [url]. rewrite <- !app_assoc. reflexivity.
  - unfold g', extractLinkDefinition.
    rewrite (linkDefinition_matches linkId ws u) by assumption.
    cbn [fst referenceLinks]. unfold setLink.
    rewrite bool_decide_eq_false_2 by exact Hne. cbn [own]. apply lookup_insert_eq.
Qed.

Lemma link_definition_then_usage_witness :
  processReferenceLinksInText
    (fst (extractLinkDefinition (str "[" ++ str "home" ++ str "]:" ++ str " " ++ str "http://x.org")
            freshGlobals))
    (str "[" ++ str "the site" ++ str "][" ++ str "home" ++ str "]" ++ str " is up")
  = str "the site" ++ str " (" ++ str "http://x.org" ++ str ")"
    ++ processReferenceLinksInText
         (fst (extractLinkDefinition
                 (str "[" ++ str "home" ++ str "]:" ++ str " " ++ str "http://x.org")
                 freshGlobals))
         (str " is up").
Proof.
  apply (link_definition_then_usage freshGlobals (str "home") (str " ") (str "http://x.org")
           (str "the site") (str " is up")); solve [discriminate | reflexivity].
Defined.

(** ** Inline text *)

(** X6.  A footnote reference "[^id]" at the start of a text is always
    removed from the text.  A footnote is inserted for it exactly when
    [footnotes[id]] is truthy: for an entry of its own with a non-empty text
    the footnote holds that text; with no entry of its own, a name inherited
    from [Object.prototype] ("constructor", say) inserts a footnote made from
    the inherited member.  An entry with an empty text, and a name that is
    neither defined nor inherited, insert nothing. *)
Theorem footnote_reference_removed g (identifier rest : jsstring) :
  identifier <> [] -> forallb isWordChar identifier = true ->
  processFootnotesInText g (str "[^" ++ identifier ++ str "]" ++ rest)
  = (fst (processFootnotesInText g rest),
     insertFootnoteContent g identifier ++ snd (processFootnotesInText g rest))
  /\ insertFootnoteContent g identifier
     = match footnotes g !! identifier with
       | Some text => if truthy text then [FootnoteRef (FootText text)] else []
       | None =>
           if isInherited identifier then [FootnoteRef (FootInherited identifier)] else []
       end.
Proof.
  intros H1 H2. split.
  - unfold processFootnotesInText.
    replace (str "[^" ++ identifier ++ str "]" ++ rest)
      with ((str "[^" ++ identifier ++ str "]") ++ rest) by (rewrite <- !app_assoc; reflexivity).
    assert (Hm : matchLen footnoteReference ((str "[^" ++ identifier ++ str "]") ++ rest)
                 = Some (identifier, List.length (str "[^" ++ identifier ++ str "]"))).
    { rewrite <- !app_assoc. apply footnoteReference_matches; assumption. }
    assert (Hne : str "[^" ++ identifier ++ str "]" <> []) by discriminate.
    rewrite (replaceAll_match _ _ _ rest identifier Hne Hm).
    rewrite (matchAll_match _ _ rest identifier Hne Hm).
    reflexivity.
  - unfold insertFootnoteContent, getFootnote.
    destruct (footnotes g !! identifier) as [text|].
    + cbn [footnoteTruthy]. destruct (truthy text); reflexivity.
    + destruct (isInherited identifier); reflexivity.
Qed.

Lemma footnote_reference_removed_witness :
  processFootnotesInText freshGlobals (str "[^" ++ str "a" ++ str "]" ++ str " end")
  = (fst (processFootnotesInText freshGlobals (str " end")),
     insertFootnoteContent freshGlobals (str "a")
     ++ snd (processFootnotesInText freshGlobals (str " end"))).
Proof.
  refine (proj1 (footnote_reference_removed freshGlobals (str "a") (str " end") _ _));
    [discriminate | reflexivity].
Defined.

(** X7.  A usage "[text][id]" at the start of a text, the text free of "]"
    and the identifier made of word characters: with a definition of its own
    for the identifier it becomes the text followed by the url in
    parentheses; with no definition, for an identifier that is not inherited
    from [Object.prototype] and a table whose prototype was never set, it
    becomes the bare text.  In both cases the replacement goes on behind
    the usage. *)
Theorem reference_link_usage_resolved g (linkText linkId rest : jsstring) :
  linkText <> [] -> forallb notRBracket linkText = true ->
  linkId <> [] -> forallb isWordChar linkId = true ->
  (forall d, own (referenceLinks g) !! linkId = Some d ->
     processReferenceLinksInText g (str "[" ++ linkText ++ str "][" ++ linkId ++ str "]" ++ rest)
     = linkText ++ str " (" ++ url d ++ str ")" ++ processReferenceLinksInText g rest)
  /\ (own (referenceLinks g) !! linkId = None -> proto (referenceLinks g) = None ->
      isInherited linkId = false ->
      processReferenceLinksInText g (str "[" ++ linkText ++ str "][" ++ linkId ++ str "]" ++ rest)
      = linkText ++ processReferenceLinksInText g rest).
Proof.
  intros Ht1 Ht2 Hi1 Hi2. split.
  - intros d Hd. rewrite reference_link_usage_replaced by assumption.
    rewrite (resolve_defined g linkText linkId d Hd). rewrite <- !app_assoc. reflexivity.
  - intros Ho Hp Hi. rewrite reference_link_usage_replaced by assumption.
    rewrite resolve_undefined; [reflexivity|]. apply getLink_undefined; assumption.
Qed.

Lemma reference_link_usage_resolved_witness :
  processReferenceLinksInText freshGlobals
    (str "[" ++ str "docs" ++ str "][" ++ str "d1" ++ str "]" ++ str "!")
  = str "docs" ++ processReferenceLinksInText freshGlobals (str "!").
Proof.
  refine (proj2 (reference_link_usage_resolved freshGlobals (str "docs") (str "d1") (str "!")
                   _ _ _ _) _ _ _);
    solve [discriminate | reflexivity].
Defined.

Module PlainFacts.
Import JS Re Tables Doc Parser ReFacts.

Lemma scan_absent {D} (m : jsstring -> option (D * nat)) a (s : jsstring) :
  (forall c t, c <> a -> m (c :: t) = None) ->
  Forall (fun c => c <> a) s -> scan m O s = List.map inl s.
Proof.
  intros Hm Hall. induction Hall as [|c s Hc Hs IH]; [reflexivity|].
  simpl. rewrite (Hm c s Hc), IH. reflexivity.
Qed.

Lemma matchLen_lit_head {D} a (p : jsstring) (k : K (D * jsstring)) c (t : jsstring) :
  c <> a -> matchLen (lit (a :: p) k) (c :: t) = None.
Proof.
  intros Hne. unfold matchLen, lit. simpl. unfold beq.
  destruct (N.eqb_spec a c); [congruence | reflexivity].
Qed.

Lemma concat_map_inl {D} (f : D -> jsstring) (s : jsstring) :
  List.concat (List.map (fun p : char + D => match p with inl c => [c] | inr d => f d end)
                 (List.map inl s)) = s.
Proof. induction s as [|c s IH]; [reflexivity|]. simpl. rewrite IH. reflexivity. Qed.

Lemma concat_map_inl_nil {D} (s : jsstring) :
  List.concat (List.map (fun p : char + D => match p with inl _ => [] | inr d => [d] end)
                 (List.map inl s)) = [].
Proof. induction s as [|c s IH]; [reflexivity|]. simpl. exact IH. Qed.

(** A global replacement leaves a text alone in which the first character of
    the pattern does not occur. *)
Lemma replaceAll_absent {D} a (p q : jsstring) (k : K (D * jsstring)) f (s : jsstring) :
  q = a :: p ->
  Forall (fun c => c <> a) s -> replaceAll (matchLen (lit q k)) f s = s.
Proof.
  intros -> H. unfold replaceAll.
  rewrite (scan_absent _ a s (fun c t => matchLen_lit_head a p k c t) H).
  apply concat_map_inl.
Qed.

Lemma matchAll_absent {D} a (p q : jsstring) (k : K (D * jsstring)) (s : jsstring) :
  q = a :: p ->
  Forall (fun c => c <> a) s -> matchAll (matchLen (lit q k)) s = [].
Proof.
  intros -> H. unfold matchAll.
  rewrite (scan_absent _ a s (fun c t => matchLen_lit_head a p k c t) H).
  apply concat_map_inl_nil.
Qed.

Lemma simulate_absent a (p opening closing tag line : jsstring) :
  opening = a :: p ->
  Forall (fun c => c <> a) line -> simulate opening closing tag line = line.
Proof.
  intros Ho H. unfold simulate, delimited. apply (replaceAll_absent a p); assumption.
Qed.

End PlainFacts.

Import PlainFacts.

(** The inline passes on a text in which the first character of their
    pattern does not occur. *)
Lemma processAdvancedFormatting_without_markers (text : jsstring) :
  Forall (fun c => c <> 42) text -> Forall (fun c => c <> 95) text ->
  Forall (fun c => c <> 126) text ->
  processAdvancedFormatting text = text.
Proof.
  intros H42 H95 H126. unfold processAdvancedFormatting.
  rewrite (simulate_absent 42 [42] (str "**") (str "**") (str "b") text eq_refl H42).
  rewrite (simulate_absent 95 [95] (str "__") (str "__") (str "b") text eq_refl H95).
  rewrite (simulate_absent 42 [] (str "*") (str "*") (str "i") text eq_refl H42).
  rewrite (simulate_absent 95 [] (str "_") (str "_") (str "i") text eq_refl H95).
  apply (simulate_absent 126 [126] (str "~~") (str "~~") (str "strike") text eq_refl H126).
Qed.

Lemma processFootnotesInText_without_bracket g (text : jsstring) :
  Forall (fun c => c <> 91) text -> processFootnotesInText g text = (text, []).
Proof.
  intros H91. unfold processFootnotesInText, footnoteReference.
  rewrite (replaceAll_absent 91 [94] (str "[^") _ _ text eq_refl H91).
  rewrite (matchAll_absent 91 [94] (str "[^") _ text eq_refl H91).
  reflexivity.
Qed.

Lemma processReferenceLinksInText_without_bracket g (text : jsstring) :
  Forall (fun c => c <> 91) text -> processReferenceLinksInText g text = text.
Proof.
  intros H91. unfold processReferenceLinksInText, referenceLinkUsage.
  apply (replaceAll_absent 91 [] (str "[") _ _ text eq_refl H91).
Qed.

(** X8.  Text in which none of the characters "*", "_", "~" and "[" occurs
    goes through the inline processing unchanged: [processAdvancedFormatting]
    and [processReferenceLinksInText] return it as it is, and
    [processFootnotesInText] returns it as it is and inserts no footnote. *)
Theorem plain_text_is_left_alone g (text : jsstring) :
  Forall (fun c => c <> 42 /\ c <> 95 /\ c <> 126 /\ c <> 91) text ->
  processAdvancedFormatting text = text
  /\ processFootnotesInText g text = (text, [])
  /\ processReferenceLinksInText g text = text.
Proof.
  intros H.
  pose proof (List.Forall_impl (fun c => c <> 42) (fun c Hc => proj1 Hc) H) as H42.
  pose proof (List.Forall_impl (fun c => c <> 95) (fun c Hc => proj1 (proj2 Hc)) H) as H95.
  pose proof (List.Forall_impl (fun c => c <> 126)
                (fun c Hc => proj1 (proj2 (proj2 Hc))) H) as H126.
  pose proof (List.Forall_impl (fun c => c <> 91)
                (fun c Hc => proj2 (proj2 (proj2 Hc))) H) as H91.
  split; [|split].
  - apply processAdvancedFormatting_without_markers; assumption.
  - apply processFootnotesInText_without_bracket; assumption.
  - apply processReferenceLinksInText_without_bracket; assumption.
Qed.

Lemma plain_text_is_left_alone_witness :
  processAdvancedFormatting (str "hello, world") = str "hello, world"
  /\ processFootnotesInText freshGlobals (str "hello, world") = (str "hello, world", [])
  /\ processReferenceLinksInText freshGlobals (str "hello, world") = str "hello, world".
Proof.
  apply (plain_text_is_left_alone freshGlobals (str "hello, world")).
  repeat constructor; discriminate.
Defined.

Module HeadingFacts.
Import JS Re Tables Doc Parser ReFacts InlineFacts.

Lemma upTo_accepts {A} extra p (k : K A) (s : jsstring) :
  is_Some (upTo extra p k s) <->
  exists a r, s = a ++ r /\ (List.length a <= extra)%nat /\ forallb p a = true
              /\ is_Some (k r).
Proof.
  revert s. induction extra as [|e IH]; intros s; simpl.
  - split.
    + intros H. exists [], s. repeat split; auto.
    + intros (a & r & -> & Hl & _ & Hk). destruct a; [exact Hk | simpl in Hl; lia].
  - destruct s as [|c s].
    + split.
      * intros H. exists [], []. repeat split; auto with arith.
      * intros (a & r & Hs & _ & _ & Hk). symmetry in Hs.
        apply app_eq_nil in Hs as [_ ->]. exact Hk.
    + destruct (p c) eqn:Hc.
      * destruct (upTo e p k s) as [x|] eqn:Hu.
        -- split; [intros _ | eauto].
           destruct (proj1 (IH s)) as (a & r & -> & Hl & Ha & Hk); [rewrite Hu; eauto|].
           exists (c :: a), r. simpl. rewrite Hc. repeat split; auto with arith.
        -- split.
           ++ intros Hk. exists [], (c :: s). repeat split; auto with arith.
           ++ intros (a & r & Hs & Hl & Ha & Hk). destruct a as [|d a].
              ** simpl in Hs. subst r. exact Hk.
              ** simpl in Hs. injection Hs as <- ->. simpl in Ha, Hl.
                 apply andb_prop in Ha as [_ Ha].
                 destruct (proj2 (IH (a ++ r))) as [? Hx]; [|rewrite Hu in Hx; discriminate].
                 exists a, r. repeat split; auto with arith.
      * split.
        -- intros Hk. exists [], (c :: s). repeat split; auto with arith.
        -- intros (a & r & Hs & Hl & Ha & Hk). destruct a as [|d a].
           ++ simpl in Hs. subst r. exact Hk.
           ++ simpl in Hs. injection Hs as <- ->. simpl in Ha. rewrite Hc in Ha.
              discriminate.
Qed.

Lemma hashes_repeat (a : jsstring) :
  forallb isHash a = true <-> a = repeat 35 (List.length a).
Proof.
  induction a as [|c a IH]; simpl; [tauto|]. unfold isHash at 1.
  destruct (N.eqb_spec c 35) as [->|Hne]; simpl.
  - rewrite IH. split; [intros <-; reflexivity | intros [= <-]; reflexivity].
  - split; [discriminate | intros [= ->]; congruence].
Qed.

Lemma hashes_all n : forallb isHash (repeat 35 n) = true.
Proof. apply hashes_repeat. rewrite repeat_length. reflexivity. Qed.

Lemma whitespace_not_hash c : isWhiteSpace c = true -> isHash c = false.
Proof.
  intros H. unfold isHash. destruct (N.eqb_spec c 35) as [->|]; [discriminate | reflexivity].
Qed.

Lemma takeWhile_run p (a : jsstring) c (r : jsstring) :
  forallb p a = true -> p c = false -> takeWhile p (a ++ c :: r) = a.
Proof.
  intros Ha Hc. induction a as [|d a IH]; simpl.
  - rewrite Hc. reflexivity.
  - simpl in Ha. apply andb_prop in Ha as [Hd Ha]. rewrite Hd, (IH Ha). reflexivity.
Qed.

Lemma stripMatch_plus_one p q (a : jsstring) c (r : jsstring) :
  forallb p a = true -> a <> [] -> p c = false -> q c = true ->
  stripMatch (fun k => plus p (one q k)) (a ++ c :: r) = r.
Proof.
  intros Ha Hne Hc Hq. unfold stripMatch, plus. destruct a as [|d a]; [congruence|].
  simpl in Ha. apply andb_prop in Ha as [Hd Ha]. cbn [app one]. rewrite Hd.
  rewrite (star_run p _ a (c :: r) r Ha Hc); [reflexivity|].
  unfold one. rewrite Hq. reflexivity.
Qed.

End HeadingFacts.

Import HeadingFacts.

(** ** Headings and lists *)

(** X9.  [isHeading] accepts exactly the lines made of one to six "#", one
    white space character and anything behind it; seven or more "#" are no
    heading.  For such a line [insertHeading] appends one heading whose level
    is the number of "#" (so the name "HEADING" + level is one of HEADING1 to
    HEADING6) and whose text is what follows the white space character. *)
Theorem heading_level_and_text (line : jsstring) :
  (isHeading line = true <->
   exists n c rest, (1 <= n <= 6)%nat /\ isWhiteSpace c = true
                    /\ line = repeat 35 n ++ c :: rest)
  /\ (forall n c rest,
        (1 <= n)%nat -> isWhiteSpace c = true -> line = repeat 35 n ++ c :: rest ->
        insertHeading line = [Heading n rest]).
Proof.
  split.
  - unfold isHeading, between. rewrite test_true, exactly_accepts. split.
    + intros (a1 & r1 & -> & Hl1 & Ha1 & H).
      apply upTo_accepts in H as (a2 & r2 & -> & Hl2 & Ha2 & H).
      apply one_accepts in H as (c & rest & -> & Hc & _).
      exists (List.length (a1 ++ a2)), c, rest. rewrite length_app. split; [simpl in *; lia|].
      split; [exact Hc|]. rewrite app_assoc. f_equal.
      rewrite <- length_app. apply hashes_repeat. rewrite forallb_app, Ha1, Ha2. reflexivity.
    + intros (n & c & rest & [Hn1 Hn6] & Hc & ->).
      exists (repeat 35 1), (repeat 35 (n - 1) ++ c :: rest).
      split; [rewrite app_assoc, <- repeat_app; f_equal; f_equal; lia|].
      split; [reflexivity|]. split; [reflexivity|].
      apply upTo_accepts. exists (repeat 35 (n - 1)), (c :: rest).
      split; [reflexivity|]. split; [rewrite repeat_length; simpl; lia|].
      split; [apply hashes_all|]. apply one_accepts. exists c, rest.
      split; [reflexivity|]. split; [exact Hc | apply accept_ok].
  - intros n c rest Hn Hc ->. unfold insertHeading.
    f_equal. f_equal.
    + rewrite <- (repeat_length (35 : char) n) at 2. f_equal.
      apply takeWhile_run; [apply hashes_all | apply whitespace_not_hash; exact Hc].
    + apply stripMatch_plus_one;
        [apply hashes_all | destruct n; [lia | discriminate]
        | apply whitespace_not_hash; exact Hc | exact Hc].
Qed.

Module ListFacts.
Import JS Re Tables Doc Parser.

Lemma popFrames_length (stack : list Q) (lvl : Q) :
  snd (popFrames stack (Z.of_nat (List.length stack)) lvl)
  = Z.of_nat (List.length (fst (popFrames stack (Z.of_nat (List.length stack)) lvl)))
  /\ (List.length (fst (popFrames stack (Z.of_nat (List.length stack)) lvl))
      <= List.length stack)%nat.
Proof.
  induction stack as [|top below IH]; [split; reflexivity|].
  cbn [popFrames]. destruct (Qle_bool lvl top).
  - replace (Z.of_nat (List.length (top :: below)) - 1)%Z with (Z.of_nat (List.length below))
      by (cbn [List.length]; lia).
    destruct IH as [IH1 IH2]. split; [exact IH1 | cbn [List.length]; lia].
  - split; reflexivity.
Qed.

Lemma insertListLines_climb (stack : list Q) (lines : list jsstring) :
  levelsClimb (Z.of_nat (List.length stack))
    (nestingLevels (insertListLines stack (Z.of_nat (List.length stack)) lines)).
Proof.
  revert stack. induction lines as [|line rest IH]; intros stack; [exact I|].
  cbn [insertListLines]. destruct (isList line); [|apply IH].
  pose proof (popFrames_length stack (indentLevel (getListDetails line))) as [Hc Hl].
  destruct (popFrames stack (Z.of_nat (List.length stack)) (indentLevel (getListDetails line)))
    as [stack' level]. cbn [fst snd] in *. subst level.
  change (nestingLevels (?op :: ?ops)) with (Z.of_nat (List.length stack') :: nestingLevels ops).
  cbn [levelsClimb]. split; [lia|].
  replace (Z.of_nat (List.length stack') + 1)%Z
    with (Z.of_nat (List.length (indentLevel (getListDetails line) :: stack')))
    by (cbn [List.length]; lia).
  apply IH.
Qed.

End ListFacts.

(** X10.  Within one call of [insertList], whatever the text and its
    indentation, the nesting levels of the items it emits start at 0, are
    never negative and rise by at most one from an item to the next. *)
Theorem list_levels_rise_by_one (text : jsstring) :
  levelsClimb 0 (nestingLevels (insertList text)).
Proof.
  unfold insertList. change 0%Z with (Z.of_nat (List.length (@nil Q))).
  apply ListFacts.insertListLines_climb.
Qed.

Module AcceptFacts.
Import JS Re Tables Doc Parser ReFacts.

(** Whether a pattern accepts depends only on whether what follows it
    accepts. *)
Lemma lit_ext {A B} (p : jsstring) (k1 : K A) (k2 : K B) :
  (forall s, is_Some (k1 s) <-> is_Some (k2 s)) ->
  forall s, is_Some (lit p k1 s) <-> is_Some (lit p k2 s).
Proof.
  intros H s. rewrite !lit_accepts. split; intros (r & -> & Hk); exists r; split; auto;
    apply H; exact Hk.
Qed.

Lemma star_ext {A B} p (k1 : K A) (k2 : K B) :
  (forall s, is_Some (k1 s) <-> is_Some (k2 s)) ->
  forall s, is_Some (star p k1 s) <-> is_Some (star p k2 s).
Proof.
  intros H s. rewrite !star_accepts.
  split; intros (a & r & -> & Ha & Hk); exists a, r; repeat split; auto; apply H; exact Hk.
Qed.

Lemma search_ext {A B} (k1 : K A) (k2 : K B) :
  (forall s, is_Some (k1 s) <-> is_Some (k2 s)) ->
  forall s, is_Some (search k1 s) <-> is_Some (search k2 s).
Proof.
  intros H s. rewrite !search_accepts.
  split; intros (pre & post & -> & Hk); exists pre, post; split; auto; apply H; exact Hk.
Qed.

Lemma alt_accepts {A} (a b : Pat A) (k : K A) (s : jsstring) :
  is_Some (alt a b k s) <-> is_Some (a k s) \/ is_Some (b k s).
Proof.
  unfold alt. destruct (a k s) as [x|].
  - split; [left; eauto | eauto].
  - split; [right; assumption | intros [[? [=]] | H]; exact H].
Qed.

Lemma lit_other {A} x (p q : jsstring) (k : K A) c (t : jsstring) :
  q = x :: p -> x <> c -> lit q k (c :: t) = None.
Proof.
  intros -> Hne. unfold lit. simpl. unfold beq.
  destruct (N.eqb_spec x c); [congruence | reflexivity].
Qed.

End AcceptFacts.

Import AcceptFacts.

(** ** Images and blockquotes *)

(** X11.  The two image patterns agree: [extractImageUrl] finds a url (it
    does not return [null]) exactly for the lines [isImage] accepts. *)
Theorem image_line_has_url (line : jsstring) :
  is_Some (extractImageUrl line) <-> isImage line = true.
Proof.
  unfold extractImageUrl, isImage. rewrite test_true.
  apply search_ext. apply lit_ext. apply star_ext. apply lit_ext.
  intros s. unfold capture. apply star_ext. intros r.
  rewrite !lit_accepts. split; intros (r' & -> & _); exists r'; split; eauto.
Qed.

(** X12.  [isBlockquote] accepts a line whose marker ">" comes after white
    space, but the marker is stripped only when it is the first character:
    behind leading white space the line goes to the buffer as it is, marker
    included.  At the start of the line, the marker and one white space
    character behind it are removed. *)
Theorem blockquote_marker_stripped_at_line_start (ws rest : jsstring) :
  forallb isWhiteSpace ws = true ->
  isBlockquote (ws ++ str ">" ++ rest) = true
  /\ (ws <> [] -> stripQuoteMarker (ws ++ str ">" ++ rest) = ws ++ str ">" ++ rest)
  /\ stripQuoteMarker (str ">" ++ rest)
     = match rest with
       | c :: r => if isWhiteSpace c then r else rest
       | [] => []
       end.
Proof.
  intros Hws. split; [|split].
  - unfold isBlockquote. apply test_true, star_accepts.
    exists ws, (str ">" ++ rest). split; [reflexivity|]. split; [exact Hws|].
    apply lit_accepts. exists rest. split; [reflexivity | apply accept_ok].
  - intros Hne. destruct ws as [|c ws]; [congruence|].
    simpl in Hws. apply andb_prop in Hws as [Hc _].
    unfold stripQuoteMarker, stripMatch. cbn [app].
    rewrite (lit_other 62 [] (str ">") _ c _ eq_refl); [reflexivity|].
    intros <-. discriminate.
  - unfold stripQuoteMarker, stripMatch. rewrite MoreFacts.lit_prefix.
    unfold opt, alt, one. destruct rest as [|c r]; [reflexivity|].
    destruct (isWhiteSpace c); reflexivity.
Qed.

Lemma blockquote_marker_stripped_witness :
  isBlockquote (str "  " ++ str ">" ++ str " quoted") = true
  /\ (str "  " <> [] ->
      stripQuoteMarker (str "  " ++ str ">" ++ str " quoted")
      = str "  " ++ str ">" ++ str " quoted")
  /\ stripQuoteMarker (str ">" ++ str " quoted")
     = match str " quoted" with
       | c :: r => if isWhiteSpace c then r else str " quoted"
       | [] => []
       end.
Proof.
  apply (blockquote_marker_stripped_at_line_start (str "  ") (str " quoted")). reflexivity.
Defined.

Module PlainLineFacts.
Import JS Re Tables Doc Parser JSFacts ReFacts ParserFacts AcceptFacts.

Lemma plain_absent x (line : jsstring) :
  forallb plainChar line = true -> plainChar x = false -> ~ In x line.
Proof.
  intros Hl Hx Hin. rewrite forallb_forall in Hl. specialize (Hl x Hin). congruence.
Qed.

Lemma no_image_without_bang (line : jsstring) : ~ In 33 line -> isImage line = false.
Proof.
  intros Hno. unfold isImage. destruct (test _ line) eqn:E; [|reflexivity].
  apply test_true, search_accepts in E as (pre & post & -> & H).
  apply lit_accepts in H as (r & -> & _).
  exfalso. apply Hno. apply in_or_app. right. left. reflexivity.
Qed.

Lemma no_blockquote_without_marker (line : jsstring) : ~ In 62 line -> isBlockquote line = false.
Proof.
  intros Hno. unfold isBlockquote. destruct (test _ line) eqn:E; [|reflexivity].
  apply test_true, star_accepts in E as (a & r & -> & _ & H).
  apply lit_accepts in H as (r' & -> & _).
  exfalso. apply Hno. apply in_or_app. right. left. reflexivity.
Qed.

Lemma no_table_without_pipe (line : jsstring) : ~ In 124 line -> isTable line = false.
Proof.
  intros Hno. unfold isTable. destruct (test (search _) line) eqn:E; [|reflexivity].
  apply test_true, search_accepts in E as (pre & post & -> & H).
  apply lit_accepts in H as (r & -> & _).
  exfalso. apply Hno. apply in_or_app. right. left. reflexivity.
Qed.

Lemma no_list_without_marker (line : jsstring) :
  ~ In 45 line -> ~ In 42 line -> ~ In 43 line -> ~ In 46 line -> isList line = false.
Proof.
  intros H45 H42 H43 H46. unfold isList. destruct (test _ line) eqn:E; [|reflexivity].
  exfalso. apply test_true, star_accepts in E as (a & r & -> & _ & H).
  unfold listMarker in H.
  apply alt_accepts in H as [H|H]; [|apply alt_accepts in H as [H|H];
                                     [|apply alt_accepts in H as [H|H]]].
  - apply lit_accepts in H as (r' & -> & _). apply H45, in_or_app. right. left. reflexivity.
  - apply lit_accepts in H as (r' & -> & _). apply H42, in_or_app. right. left. reflexivity.
  - apply lit_accepts in H as (r' & -> & _). apply H43, in_or_app. right. left. reflexivity.
  - apply plus_accepts in H as (d & r' & -> & _ & _ & H).
    apply lit_accepts in H as (r'' & -> & _).
    apply H46, in_or_app. right. apply in_or_app. right. left. reflexivity.
Qed.

Lemma no_heading_without_hash c (rest : jsstring) : c <> 35 -> isHeading (c :: rest) = false.
Proof.
  intros Hne. unfold isHeading, between, test. simpl. unfold isHash.
  destruct (N.eqb_spec c 35); [congruence | reflexivity].
Qed.

Lemma not_blank c (rest : jsstring) : isWhiteSpace c = false -> truthy (trim (c :: rest)) = true.
Proof.
  intros Hc. destruct (trim (c :: rest)) eqn:E; [|reflexivity].
  apply trim_nil_iff in E. simpl in E. rewrite Hc in E. discriminate.
Qed.

(** A line of plain words that starts with a letter or a digit passes none of
    the tests of the loop that come before the table tests. *)
Lemma plain_line_tests c (rest : jsstring) :
  isWhiteSpace c = false -> forallb plainChar (c :: rest) = true ->
  startsWith fence (c :: rest) = false
  /\ startsWith rule (c :: rest) = false
  /\ isImage (c :: rest) = false
  /\ isBlockquote (c :: rest) = false
  /\ truthy (trim (c :: rest)) = true
  /\ isHeading (c :: rest) = false
  /\ isList (c :: rest) = false
  /\ isTable (c :: rest) = false.
Proof.
  intros Hc Hall.
  assert (Hno : forall x, plainChar x = false -> ~ In x (c :: rest))
    by (intros x Hx; apply plain_absent; assumption).
  assert (Hhead : forall x, plainChar x = false -> x <> c)
    by (intros x Hx ->; apply (Hno c Hx); left; reflexivity).
  repeat split.
  - apply startsWith_other_char. apply Hhead. reflexivity.
  - apply startsWith_other_char. apply Hhead. reflexivity.
  - apply no_image_without_bang, Hno. reflexivity.
  - apply no_blockquote_without_marker, Hno. reflexivity.
  - apply not_blank. exact Hc.
  - apply no_heading_without_hash. intros ->. apply (Hhead 35); reflexivity.
  - apply no_list_without_marker; apply Hno; reflexivity.
  - apply no_table_without_pipe, Hno. reflexivity.
Qed.

Lemma plain_no_markers (line : jsstring) :
  forallb plainChar line = true ->
  Forall (fun c => c <> 42 /\ c <> 95 /\ c <> 126 /\ c <> 91) line.
Proof.
  intros H. apply List.Forall_forall. intros x Hx.
  repeat split; intros ->; (eapply plain_absent; [exact H | | exact Hx]; reflexivity).
Qed.

End PlainLineFacts.

Import PlainLineFacts.

(** ** Ordinary lines in the loop *)

(** X13.  The line that ends a table is lost.  Outside a code block and with
    a table open, a line of plain words (letters, digits and spaces, starting
    with a letter or a digit) closes the table: the buffered lines go to
    [insertTable], and nothing is emitted for the line itself, whose text
    appears in no operation. *)
Theorem line_closing_a_table_is_dropped isLink processBlockquote g st c (rest : jsstring) :
  isWhiteSpace c = false -> forallb plainChar (c :: rest) = true ->
  inCodeBlock st = false -> inTable st = true ->
  processLine isLink processBlockquote g st (c :: rest)
  = (setTable st false [], insertTable (tableLines st)).
Proof.
  intros Hc Hall Hcode Htable.
  destruct (plain_line_tests c rest Hc Hall) as (H1 & H2 & H3 & H4 & H5 & H6 & H7 & H8).
  unfold processLine. rewrite H1, Hcode, H2, H3, H4, H5, H6, H7, H8, Htable. reflexivity.
Qed.

Lemma line_closing_a_table_witness :
  processLine isLinkSpec processBlockquoteSpec freshGlobals
    (setTable initialState true [str "| a |"]) (str "some words")
  = (setTable (setTable initialState true [str "| a |"]) false [],
     insertTable (tableLines (setTable initialState true [str "| a |"]))).
Proof.
  apply (line_closing_a_table_is_dropped isLinkSpec processBlockquoteSpec freshGlobals
           (setTable initialState true [str "| a |"]) 115 (str "ome words"));
    reflexivity.
Defined.

(** X14.  An ordinary line is appended twice.  Outside every construct, a
    line of plain words (letters, digits and spaces, starting with a letter
    or a digit) that [isLink] does not take for a link is appended once by
    [insertWithCustomIndentation], trimmed and with no indentation, and once
    more by [body.appendParagraph], as it is. *)
Theorem ordinary_line_appended_twice isLink processBlockquote g st c (rest : jsstring) :
  isWhiteSpace c = false -> forallb plainChar (c :: rest) = true ->
  inCodeBlock st = false -> inTable st = false -> inBlockquote st = false ->
  isLink (c :: rest) = false ->
  processLine isLink processBlockquote g st (c :: rest)
  = (st, [IndentedParagraph (trim (c :: rest)) 0; AppendParagraph (c :: rest)]).
Proof.
  intros Hc Hall Hcode Htable Hquote Hlink.
  destruct (plain_line_tests c rest Hc Hall) as (H1 & H2 & H3 & H4 & H5 & H6 & H7 & H8).
  pose proof (plain_no_markers _ Hall) as Hplain.
  pose proof (processAdvancedFormatting_without_markers (c :: rest)
                (List.Forall_impl (fun x => x <> 42) (fun x Hx => proj1 Hx) Hplain)
                (List.Forall_impl (fun x => x <> 95) (fun x Hx => proj1 (proj2 Hx)) Hplain)
                (List.Forall_impl (fun x => x <> 126)
                   (fun x Hx => proj1 (proj2 (proj2 Hx))) Hplain)) as Hf.
  pose proof (List.Forall_impl (fun x => x <> 91)
                (fun x Hx => proj2 (proj2 (proj2 Hx))) Hplain) as H91.
  pose proof (processFootnotesInText_without_bracket g (c :: rest) H91) as Hn.
  pose proof (processReferenceLinksInText_without_bracket g (c :: rest) H91) as Hr.
  unfold processLine. rewrite H1, Hcode, H2, H3, H4, H5, H6, H7, H8, Htable, Hlink.
  cbn [negb andb]. unfold processText. rewrite Hf, Hn, Hr, Hquote, Htable.
  cbn [negb app]. unfold insertWithCustomIndentation. cbn [takeWhile]. rewrite Hc.
  reflexivity.
Qed.

Lemma ordinary_line_appended_twice_witness :
  processLine isLinkSpec processBlockquoteSpec freshGlobals initialState (str "some words ")
  = (initialState,
     [IndentedParagraph (trim (str "some words ")) 0; AppendParagraph (str "some words ")]).
Proof.
  apply (ordinary_line_appended_twice isLinkSpec processBlockquoteSpec freshGlobals
           initialState 115 (str "ome words ")); reflexivity.
Defined.

Module RangeFacts.
Import JS Re Tables Doc Parser ReFacts InlineFacts.

(** [indexOf] finds an occurrence when there is one. *)
Lemma indexOfFrom_occurs (t s : jsstring) (i : Z) :
  (exists pre post, s = pre ++ t ++ post) ->
  exists pre post, s = pre ++ t ++ post /\ indexOfFrom t s i = (i + Z.of_nat (List.length pre))%Z.
Proof.
  revert i. induction s as [|c s IH]; intros i (pre & post & Hs).
  - symmetry in Hs. apply app_eq_nil in Hs as [-> Hs]. apply app_eq_nil in Hs as [-> ->].
    exists [], []. split; [reflexivity|]. simpl. lia.
  - cbn [indexOfFrom]. destruct (startsWith t (c :: s)) eqn:E.
    + apply startsWith_true in E as [r Hr]. exists [], r. split; [exact Hr|]. simpl. lia.
    + destruct pre as [|d pre].
      * exfalso. assert (startsWith t (c :: s) = true)
          by (apply startsWith_true; exists post; exact Hs). congruence.
      * simpl in Hs. injection Hs as <- ->.
        destruct (IH (i + 1)%Z) as (pre' & post' & Hs' & Hi); [eauto|].
        exists (c :: pre'), post'. split; [simpl; rewrite Hs' at 1; reflexivity|].
        rewrite Hi. cbn [List.length]. lia.
Qed.

Lemma calculateMatchIndices_within (fullText matchText : jsstring) :
  (exists pre post, fullText = pre ++ matchText ++ post) ->
  (0 <= fst (MarkdownUtils.calculateMatchIndices fullText matchText))%Z
  /\ (snd (MarkdownUtils.calculateMatchIndices fullText matchText)
      = fst (MarkdownUtils.calculateMatchIndices fullText matchText)
        + Z.of_nat (List.length matchText) - 1)%Z
  /\ (snd (MarkdownUtils.calculateMatchIndices fullText matchText)
      < Z.of_nat (List.length fullText))%Z.
Proof.
  intros H. unfold MarkdownUtils.calculateMatchIndices, indexOf. cbn [fst snd].
  destruct (indexOfFrom_occurs matchText fullText 0 H) as (pre & post & Hs & ->).
  split; [lia|]. split; [reflexivity|].
  apply (f_equal (@List.length char)) in Hs. rewrite !length_app in Hs. lia.
Qed.

(** What a scan reports as a match was matched at some position of the
    text. *)
Lemma scan_match_position {D} (m : jsstring -> option (D * nat)) skip (s : jsstring) d :
  In (inr d) (scan m skip s) ->
  exists pre t len, s = pre ++ t /\ m t = Some (d, len).
Proof.
  revert skip. induction s as [|c s IH]; intros skip Hin; [destruct Hin|].
  cbn [scan] in Hin. destruct skip as [|k].
  - destruct (m (c :: s)) as [[d' len]|] eqn:E.
    + destruct Hin as [[= ->]|Hin].
      * exists [], (c :: s), len. split; [reflexivity | exact E].
      * destruct (IH _ Hin) as (pre & t & l & -> & Hm). exists (c :: pre), t, l. auto.
    + destruct Hin as [[=]|Hin].
      destruct (IH _ Hin) as (pre & t & l & -> & Hm). exists (c :: pre), t, l. auto.
  - destruct (IH _ Hin) as (pre & t & l & -> & Hm). exists (c :: pre), t, l. auto.
Qed.

Lemma matchAll_match_position {D} (m : jsstring -> option (D * nat)) (s : jsstring) d :
  In d (matchAll m s) -> exists pre t len, s = pre ++ t /\ m t = Some (d, len).
Proof.
  intros Hin. unfold matchAll in Hin. apply in_concat in Hin as (l & Hl & Hd).
  apply in_map_iff in Hl as ([c|d'] & <- & Hs); [destruct Hd|].
  destruct Hd as [<-|[]]. exact (scan_match_position m O s d' Hs).
Qed.

Lemma lit_result {A} (p : jsstring) (k : K A) (s : jsstring) y :
  lit p k s = Some y -> exists r, s = p ++ r /\ k r = Some y.
Proof.
  unfold lit. destruct (stripPrefix p s) as [r|] eqn:E; [|discriminate].
  apply stripPrefix_Some in E. eauto.
Qed.

Lemma starLazy_result {A} p (k : K A) (s : jsstring) y :
  starLazy p k s = Some y -> exists a r, s = a ++ r /\ k r = Some y.
Proof.
  induction s as [|c s IH]; cbn [starLazy].
  - destruct (k []) eqn:E; [|discriminate]. intros [= <-]. exists [], []. auto.
  - destruct (k (c :: s)) eqn:E.
    + intros [= <-]. exists [], (c :: s). auto.
    + destruct (p c); [|discriminate]. intros H.
      destruct (IH H) as (a & r & -> & Hk). exists (c :: a), r. auto.
Qed.

(** The text an emphasis pattern captures stands between its delimiters. *)
Lemma emphasis_capture (d t x r : jsstring) :
  MarkdownUtils.emphasis d t = Some (x, r) -> t = d ++ x ++ d ++ r.
Proof.
  unfold MarkdownUtils.emphasis. intros H.
  apply lit_result in H as (s & -> & H). unfold capture in H.
  apply starLazy_result in H as (a & r' & -> & H).
  apply lit_result in H as (r'' & -> & H). unfold found in H.
  rewrite firstn_consumed in H. injection H as <- <-. reflexivity.
Qed.

Lemma either_capture (d1 d2 : jsstring) (text : jsstring) x :
  In x (matchAll (matchLen (MarkdownUtils.either (MarkdownUtils.emphasis d1)
                              (MarkdownUtils.emphasis d2))) text) ->
  exists pre post, text = pre ++ x ++ post.
Proof.
  intros Hin. apply matchAll_match_position in Hin as (pre & t & len & -> & Hm).
  unfold matchLen, MarkdownUtils.either in Hm.
  destruct (MarkdownUtils.emphasis d1 t) as [[x1 r1]|] eqn:E1.
  - injection Hm as <- _. apply emphasis_capture in E1 as ->.
    exists (pre ++ d1), (d1 ++ r1). rewrite <- !app_assoc. reflexivity.
  - destruct (MarkdownUtils.emphasis d2 t) as [[x2 r2]|] eqn:E2; [|discriminate].
    injection Hm as <- _. apply emphasis_capture in E2 as ->.
    exists (pre ++ d2), (d2 ++ r2). rewrite <- !app_assoc. reflexivity.
Qed.

Lemma single_capture (d : jsstring) (text : jsstring) x :
  In x (matchAll (matchLen (MarkdownUtils.emphasis d)) text) ->
  exists pre post, text = pre ++ x ++ post.
Proof.
  intros Hin. apply matchAll_match_position in Hin as (pre & t & len & -> & Hm).
  unfold matchLen in Hm.
  destruct (MarkdownUtils.emphasis d t) as [[x1 r1]|] eqn:E1; [|discriminate].
  injection Hm as <- _. apply emphasis_capture in E1 as ->.
  exists (pre ++ d), (d ++ r1). rewrite <- !app_assoc. reflexivity.
Qed.

Lemma styled_within (text : jsstring) (captures : list jsstring)
    (calls : Z -> Z -> list MarkdownUtils.StyleCall) :
  (forall x, In x captures -> exists pre post, text = pre ++ x ++ post) ->
  (forall s e, Forall (fun call => MarkdownUtils.callRange call = (s, e)) (calls s e)) ->
  Forall (MarkdownUtils.withinText (List.length text))
    (List.concat (List.map (fun m => let '(s, e) := MarkdownUtils.calculateMatchIndices text m in
                                     calls s e) captures)).
Proof.
  intros Hsub Hcalls. apply Forall_concat. apply List.Forall_forall.
  intros l Hl. apply in_map_iff in Hl as (x & <- & Hx).
  pose proof (calculateMatchIndices_within text x (Hsub x Hx)) as (H0 & He & Hlt).
  destruct (MarkdownUtils.calculateMatchIndices text x) as [s e]. cbn [fst snd] in *.
  eapply List.Forall_impl; [|apply Hcalls].
  intros call Hr. unfold MarkdownUtils.withinText. rewrite Hr. cbn [fst snd]. lia.
Qed.

End RangeFacts.

Import RangeFacts.

(** ** MarkdownUtils.js: styling ranges *)

(** X16.  Every styling call [insertParagraph] makes on the paragraph it has
    appended is on a range of that paragraph's text: the start index is at
    least 0, the (inclusive) end index is below the length of the text, and
    the end is never more than one before the start, which happens exactly
    for an empty capture, where the range is the empty one. *)
Theorem style_ranges_within_paragraph (line : jsstring) :
  fst (MarkdownUtils.insertParagraph line) = AppendParagraph line
  /\ Forall (MarkdownUtils.withinText (List.length line))
       (snd (MarkdownUtils.insertParagraph line)).
Proof.
  split; [reflexivity|].
  unfold MarkdownUtils.insertParagraph, MarkdownUtils.applyBasicFormatting. cbn [snd].
  repeat apply Forall_app_2.
  - apply styled_within; [apply either_capture|]. intros s e. repeat constructor.
  - apply styled_within; [apply either_capture|]. intros s e. repeat constructor.
  - apply styled_within; [apply either_capture|]. intros s e. repeat constructor.
  - apply styled_within; [apply single_capture|]. intros s e. repeat constructor.
Qed.

Module LinkFacts.
Import JS Re Tables Doc Parser ReFacts InlineFacts AcceptFacts.

Lemma search_hit {A} (k : K A) (s : jsstring) x : k s = Some x -> search k s = Some x.
Proof. intros H. destruct s; simpl; rewrite H; reflexivity. Qed.

Lemma search_skip {A} a (p q : jsstring) (k : K A) (pre s : jsstring) :
  q = a :: p -> Forall (fun c => c <> a) pre ->
  search (lit q k) (pre ++ s) = search (lit q k) s.
Proof.
  intros Hq Hpre. induction Hpre as [|c pre Hc Hpre IH]; [reflexivity|].
  cbn [app search]. rewrite (lit_other a p q k c _ Hq) by congruence. exact IH.
Qed.

End LinkFacts.

(** ** Utils.js *)

(** X17.  [extractLink] returns the text and the url of the first inline
    link of a line: for a line with no "[" before the link, a link text free
    of "]" and a url free of ")", both non-empty, it gives exactly that text
    and that url, whatever follows the link. *)
Theorem extractLink_text_and_url (pre text linkUrl post : jsstring) :
  Forall (fun c => c <> 91) pre ->
  text <> [] -> forallb notRBracket text = true ->
  linkUrl <> [] -> forallb (fun c => negb (c =? 41)) linkUrl = true ->
  Utils.extractLink (pre ++ str "[" ++ text ++ str "](" ++ linkUrl ++ str ")" ++ post)
  = Some (text, linkUrl).
Proof.
  intros Hpre Ht1 Ht2 Hu1 Hu2. unfold Utils.extractLink.
  rewrite (LinkFacts.search_skip 91 [] (str "[") _ pre _ eq_refl Hpre).
  apply LinkFacts.search_hit. rewrite MoreFacts.lit_prefix.
  apply capture_plus_run; [assumption | assumption | reflexivity |].
  rewrite MoreFacts.lit_prefix.
  apply capture_plus_run; [assumption | assumption | reflexivity |].
  rewrite MoreFacts.lit_prefix. reflexivity.
Qed.

Lemma extractLink_text_and_url_witness :
  Utils.extractLink (str "see " ++ str "[" ++ str "the docs" ++ str "]("
                     ++ str "http://x.org/a" ++ str ")" ++ str " now")
  = Some (str "the docs", str "http://x.org/a").
Proof.
  apply (extractLink_text_and_url (str "see ") (str "the docs") (str "http://x.org/a")
           (str " now")); try reflexivity; try discriminate.
  repeat constructor; discriminate.
Defined.

Module SpanFacts.
Import JS Re Tables Doc Parser ReFacts InlineFacts AcceptFacts PlainFacts.

(** A lazy run stops at the first place where what follows the pattern
    succeeds. *)
Lemma starLazy_run {A} p (k : K A) (a r : jsstring) y :
  forallb p a = true ->
  (forall c t, In c a -> k (c :: t) = None) ->
  k r = Some y ->
  starLazy p k (a ++ r) = Some y.
Proof.
  intros Ha Hfail Hk. induction a as [|c a IH].
  - destruct r; simpl; rewrite Hk; reflexivity.
  - simpl in Ha. apply andb_prop in Ha as [Hc Ha]. cbn [app starLazy].
    rewrite (Hfail c (a ++ r)) by (left; reflexivity). rewrite Hc.
    apply IH; [exact Ha|]. intros d t Hd. apply Hfail. right. exact Hd.
Qed.

(** A span: the opening delimiter, text in which the first character of the
    closing delimiter does not occur, the closing delimiter. *)
Lemma delimited_span x (opening closing : jsstring) a (p : jsstring) (rest : jsstring) :
  closing = a :: p ->
  forallb dot x = true -> Forall (fun c => c <> a) x ->
  delimited opening closing (opening ++ x ++ closing ++ rest) = Some (x, rest).
Proof.
  intros Hc Hdot Hx. unfold delimited. rewrite MoreFacts.lit_prefix. unfold capture.
  apply starLazy_run; [exact Hdot | |].
  - intros c t Hin. apply (lit_other a p closing _ c t Hc).
    rewrite List.Forall_forall in Hx. intros <-. exact (Hx a Hin eq_refl).
  - rewrite MoreFacts.lit_prefix. unfold found. rewrite firstn_consumed. reflexivity.
Qed.

Lemma simulate_span x (opening closing tag : jsstring) a (p : jsstring) (rest : jsstring) :
  closing = a :: p -> opening <> [] ->
  forallb dot x = true -> Forall (fun c => c <> a) x ->
  simulate opening closing tag (opening ++ x ++ closing ++ rest)
  = str "<" ++ tag ++ str ">" ++ x ++ str "</" ++ tag ++ str ">"
    ++ simulate opening closing tag rest.
Proof.
  intros Hc Ho Hdot Hx. unfold simulate.
  replace (opening ++ x ++ closing ++ rest) with ((opening ++ x ++ closing) ++ rest)
    by (rewrite <- !app_assoc; reflexivity).
  rewrite (replaceAll_match _ _ (opening ++ x ++ closing) rest x).
  - rewrite <- !app_assoc. reflexivity.
  - destruct opening; [congruence | discriminate].
  - unfold matchLen. rewrite <- !app_assoc.
    rewrite (delimited_span x opening closing a p rest Hc Hdot Hx).
    f_equal. f_equal. rewrite !length_app. lia.
Qed.

End SpanFacts.

(** ** Inline code and emphasis spans *)

(** X18.  [processInlineCode] turns a span between backticks (non-empty,
    with no backtick inside) into the same text between "**" and goes on
    behind it; a text without a backtick is returned as it is. *)
Theorem inline_code_becomes_bold_markers (code rest : jsstring) :
  code <> [] -> forallb (fun c => negb (c =? 96)) code = true ->
  processInlineCode (str "`" ++ code ++ str "`" ++ rest)
  = str "**" ++ code ++ str "**" ++ processInlineCode rest
  /\ (Forall (fun c => c <> 96) rest -> processInlineCode rest = rest).
Proof.
  intros H1 H2. split.
  - unfold processInlineCode.
    replace (str "`" ++ code ++ str "`" ++ rest) with ((str "`" ++ code ++ str "`") ++ rest)
      by (rewrite <- !app_assoc; reflexivity).
    rewrite (replaceAll_match _ _ (str "`" ++ code ++ str "`") rest code).
    + rewrite <- !app_assoc. reflexivity.
    + discriminate.
    + unfold matchLen, inlineCode. rewrite <- !app_assoc. rewrite MoreFacts.lit_prefix.
      rewrite (capture_plus_run _ _ code (str "`" ++ rest) (code, rest));
        [| assumption | assumption | reflexivity | rewrite MoreFacts.lit_prefix; reflexivity].
      f_equal. f_equal. rewrite !length_app. simpl. lia.
  - intros Hrest. unfold processInlineCode, inlineCode.
    apply (replaceAll_absent 96 [] (str "`") _ _ rest eq_refl Hrest).
Qed.

Lemma inline_code_witness :
  processInlineCode (str "`" ++ str "x + 1" ++ str "`" ++ str " is code")
  = str "**" ++ str "x + 1" ++ str "**" ++ processInlineCode (str " is code")
  /\ (Forall (fun c => c <> 96) (str " is code") ->
      processInlineCode (str " is code") = str " is code").
Proof.
  apply (inline_code_becomes_bold_markers (str "x + 1") (str " is code"));
    [discriminate | reflexivity].
Defined.

(** X19.  A bold span.  For a text in which none of "*", "_", "~" occurs and
    that holds no line terminator, [processAdvancedFormatting] turns the
    text between "**" markers into the text between the tags "<b>" and
    "</b>": no marker is left. *)
Theorem bold_span_becomes_tag (x : jsstring) :
  forallb dot x = true ->
  Forall (fun c => c <> 42 /\ c <> 95 /\ c <> 126) x ->
  processAdvancedFormatting (str "**" ++ x ++ str "**") = str "<b>" ++ x ++ str "</b>".
Proof.
  intros Hdot Hx.
  pose proof (List.Forall_impl (fun c => c <> 42) (fun c Hc => proj1 Hc) Hx) as H42.
  pose proof (List.Forall_impl (fun c => c <> 95) (fun c Hc => proj1 (proj2 Hc)) Hx) as H95.
  pose proof (List.Forall_impl (fun c => c <> 126) (fun c Hc => proj2 (proj2 Hc)) Hx) as H126.
  assert (Htag : forall a, a <> 60 -> a <> 98 -> a <> 62 -> a <> 47 ->
                   Forall (fun c => c <> a) x ->
                   Forall (fun c => c <> a) (str "<b>" ++ x ++ str "</b>")).
  { intros a ? ? ? ? Ha. apply Forall_app_2.
    - change (str "<b>") with [60; 98; 62].
      repeat (apply Forall_cons_2; [congruence|]). apply Forall_nil_2.
    - apply Forall_app_2; [exact Ha|]. change (str "</b>") with [60; 47; 98; 62].
      repeat (apply Forall_cons_2; [congruence|]). apply Forall_nil_2. }
  unfold processAdvancedFormatting.
  replace (str "**" ++ x ++ str "**") with (str "**" ++ x ++ str "**" ++ [])
    by (rewrite !app_nil_r; reflexivity).
  rewrite (SpanFacts.simulate_span x (str "**") (str "**") (str "b") 42 [42] []
             eq_refl ltac:(discriminate) Hdot H42).
  change (simulate (str "**") (str "**") (str "b") []) with (@nil char).
  rewrite app_nil_r.
  change (str "<" ++ str "b" ++ str ">" ++ x ++ str "</" ++ str "b" ++ str ">")
    with (str "<b>" ++ x ++ str "</b>").
  rewrite (simulate_absent 95 [95] (str "__") (str "__") (str "b") _ eq_refl
             (Htag 95 ltac:(discriminate) ltac:(discriminate) ltac:(discriminate)
                ltac:(discriminate) H95)).
  rewrite (simulate_absent 42 [] (str "*") (str "*") (str "i") _ eq_refl
             (Htag 42 ltac:(discriminate) ltac:(discriminate) ltac:(discriminate)
                ltac:(discriminate) H42)).
  rewrite (simulate_absent 95 [] (str "_") (str "_") (str "i") _ eq_refl
             (Htag 95 ltac:(discriminate) ltac:(discriminate) ltac:(discriminate)
                ltac:(discriminate) H95)).
  apply (simulate_absent 126 [126] (str "~~") (str "~~") (str "strike") _ eq_refl
           (Htag 126 ltac:(discriminate) ltac:(discriminate) ltac:(discriminate)
              ltac:(discriminate) H126)).
Qed.

Lemma bold_span_becomes_tag_witness :
  processAdvancedFormatting (str "**" ++ str "very bold" ++ str "**")
  = str "<b>" ++ str "very bold" ++ str "</b>".
Proof.
  apply (bold_span_becomes_tag (str "very bold")); [reflexivity|].
  repeat constructor; discriminate.
Defined.

(** * The converter that dispatches on the line type

    The first [parseAndInsertMarkdown] of MarkdownParser.js and the
    functions of MarkdownUtils.js it calls. *)

Module LineFacts.
Import JS Re MarkdownUtils LineParser ReFacts.

Lemma matches_true {A} (k : K A) s : matches k s = true <-> is_Some (k s).
Proof.
  unfold matches. destruct (k s); split; try discriminate; eauto.
  intros [? [=]].
Qed.

(** The names [determineLineType] returns. *)
Lemma determineLineType_type line c lastIndex :
  In (fst (fst (determineLineType line c lastIndex)))
     (List.map str ["codeBlockEnd"; "codeBlockContent"; "codeBlockStart"; "heading";
                    "listItem"; "blockquote"; "horizontalRule"; "table"; "footnote";
                    "link"; "paragraph"]%string).
Proof.
  unfold determineLineType.
  repeat match goal with
         | |- context [if ?b then _ else _] => destruct b
         | |- context [testGlobal ?m ?i ?s] => destruct (testGlobal m i s) as [[] ?]
         end;
    cbn [fst List.map In]; repeat (first [left; reflexivity | right]).
Qed.

(** It changes nothing of the context but [inCodeBlock]. *)
Lemma determineLineType_context line c lastIndex :
  let c' := snd (fst (determineLineType line c lastIndex)) in
  inTable c' = inTable c /\ codeBlockText c' = codeBlockText c.
Proof.
  unfold determineLineType.
  repeat match goal with
         | |- context [if ?b then _ else _] => destruct b
         | |- context [testGlobal ?m ?i ?s] => destruct (testGlobal m i s) as [[] ?]
         end;
    cbn; split; reflexivity.
Qed.

Ltac names :=
  repeat match goal with
         | |- context [named (str ?t) ?n] =>
             let b := eval vm_compute in (named (str t) n) in
             change (named (str t) n) with b
         end;
  cbv iota.

Lemma insertFormattedText_element text p :
  exists calls, fst (insertFormattedText text p) = FormattedText text calls.
Proof.
  unfold insertFormattedText.
  destruct (unwrap boldItalic _ text) as [t1 c1].
  destruct (unwrap bold _ t1) as [t2 c2].
  destruct (unwrap italic _ t2) as [t3 c3].
  destruct (unwrap strikethrough _ t3) as [t4 c4].
  eexists. reflexivity.
Qed.

Lemma insertFormattedText_fst text p q :
  fst (insertFormattedText text p) = fst (insertFormattedText text q).
Proof.
  unfold insertFormattedText.
  destruct (unwrap boldItalic _ text) as [t1 c1].
  destruct (unwrap bold _ t1) as [t2 c2].
  destruct (unwrap italic _ t2) as [t3 c3].
  destruct (unwrap strikethrough _ t3) as [t4 c4].
  reflexivity.
Qed.

(** What the loop keeps true of the context that [parseAndInsertMarkdown]
    creates: no table is open, no code text is there, and nothing in the
    document comes from the list, table or code functions. *)
Lemma processLine_keeps lines index line st :
  inTable (context st) = false -> codeBlockText (context st) = None ->
  Forall (fun e => listTableOrCode e = false) (document st) ->
  let st' := stateOf (processLine lines index line st) in
  inTable (context st') = false /\ codeBlockText (context st') = None
  /\ Forall (fun e => listTableOrCode e = false) (document st').
Proof.
  intros Ht Hc Hd. unfold processLine.
  pose proof (determineLineType_type line (context st) (linkLastIndex st)) as Hty.
  pose proof (determineLineType_context line (context st) (linkLastIndex st)) as Hctx.
  destruct (determineLineType line (context st) (linkLastIndex st)) as [[type c] lastIndex].
  cbn [fst snd] in Hty, Hctx. destruct Hctx as [Ht' Hc']. rewrite Ht in Ht'. rewrite Hc in Hc'.
  assert (Hdefault :
    let st' := stateOf (let '(element, position') := insertFormattedText line (position st) in
      Returns {| context := c; linkLastIndex := 0; position := position';
                 document := document st ++ [element] |}) in
    inTable (context st') = false /\ codeBlockText (context st') = None
    /\ Forall (fun e => listTableOrCode e = false) (document st')).
  { destruct (insertFormattedText_element line (position st)) as [calls He].
    destruct (insertFormattedText line (position st)) as [element p]. cbn in He. subst element.
    cbn. repeat split; auto. apply Forall_app_2; [exact Hd|]. repeat constructor. }
  cbn [List.map In] in Hty.
  destruct Hty as [<-|[<-|[<-|[<-|[<-|[<-|[<-|[<-|[<-|[<-|[<-|[]]]]]]]]]]]]; names;
    try exact Hdefault.
  - unfold insertHeading. destruct (heading line) as [[hashes text]|]; cbn.
    + repeat split; auto. apply Forall_app_2; [exact Hd|]. repeat constructor.
    + auto.
  - unfold insertBlockquote. destruct (blockquote line); cbn.
    + repeat split; auto. apply Forall_app_2; [exact Hd|]. repeat constructor.
    + rewrite app_nil_r. auto.
  - cbn. repeat split; auto. apply Forall_app_2; [exact Hd|]. repeat constructor.
  - rewrite Ht'. cbn. auto.
  - cbn. repeat split; auto. apply Forall_app_2; [exact Hd|]. repeat constructor.
Qed.

Lemma forEach_keeps lines rest : forall index st,
  inTable (context st) = false -> codeBlockText (context st) = None ->
  Forall (fun e => listTableOrCode e = false) (document st) ->
  let st' := stateOf (forEach lines index rest st) in
  inTable (context st') = false /\ codeBlockText (context st') = None
  /\ Forall (fun e => listTableOrCode e = false) (document st').
Proof.
  induction rest as [|line rest IH]; intros index st Ht Hc Hd; cbn [forEach].
  - cbn. auto.
  - pose proof (processLine_keeps lines index line st Ht Hc Hd) as H.
    destruct (processLine lines index line st) as [st1|st1]; cbn in H.
    + destruct H as (H1 & H2 & H3). apply IH; assumption.
    + exact H.
Qed.

Lemma forEach_app lines a b : forall index st,
  forEach lines index (a ++ b) st
  = match forEach lines index a st with
    | Returns st' => forEach lines (index + List.length a) b st'
    | Raises st' => Raises st'
    end.
Proof.
  induction a as [|line a IH]; intros index st; cbn [app forEach List.length].
  - rewrite Nat.add_0_r. reflexivity.
  - destruct (processLine lines index line st) as [st1|st1]; [|reflexivity].
    rewrite IH. replace (S index + List.length a)%nat with (index + S (List.length a))%nat by lia.
    reflexivity.
Qed.

(** A line that starts with "|" passes none of the tests that come before
    the table test. *)
Lemma row_tests (r : jsstring) :
  matches codeBlock (124 :: r) = false /\ matches heading (124 :: r) = false
  /\ matches listItem (124 :: r) = false /\ matches blockquote (124 :: r) = false
  /\ matches horizontalRule (124 :: r) = false.
Proof. repeat split. Qed.

Lemma row_is_table (cells : jsstring) :
  cells <> [] -> forallb dot cells = true ->
  matches table (str "|" ++ cells ++ str "|") = true.
Proof.
  intros Hne Hdot. apply matches_true. unfold table. apply lit_accepts.
  exists (cells ++ str "|"). split; [reflexivity|]. apply plus_accepts.
  exists cells, (str "|").
  split; [reflexivity|]. split; [exact Hne|]. split; [exact Hdot|].
  apply lit_accepts. exists []. split; [reflexivity|]. apply eos_accepts.
  split; [reflexivity | apply accept_ok].
Qed.

Lemma state_eta st :
  {| context := context st; linkLastIndex := linkLastIndex st;
     position := position st; document := document st |} = st.
Proof. destruct st; reflexivity. Qed.

Lemma processLine_row lines index (cells : jsstring) st :
  inCodeBlock (context st) = false -> inTable (context st) = false ->
  cells <> [] -> forallb dot cells = true ->
  processLine lines index (str "|" ++ cells ++ str "|") st = Raises st.
Proof.
  intros Hcode Htable Hne Hdot. unfold processLine, determineLineType. rewrite Hcode.
  pose proof (row_is_table cells Hne Hdot) as Hrow.
  change (str "|" ++ cells ++ str "|") with (124 :: cells ++ str "|") in *.
  destruct (row_tests (cells ++ str "|")) as (-> & -> & -> & -> & ->).
  rewrite Hrow. cbn [orb]. names. rewrite Htable, state_eta. reflexivity.
Qed.

Lemma codeBlock_startsWith line : matches codeBlock line = startsWith (str "```") line.
Proof.
  unfold matches, codeBlock, lit, startsWith. destruct (stripPrefix _ line); reflexivity.
Qed.

(** In a code block a line that is no fence goes to [insertFormattedText]. *)
Lemma processLine_code_content lines index line st :
  inCodeBlock (context st) = true -> matches codeBlock line = false ->
  processLine lines index line st
  = Returns {| context := context st; linkLastIndex := 0;
               position := snd (insertFormattedText line (position st));
               document := document st ++ [fst (insertFormattedText line (position st))] |}.
Proof.
  intros Hcode Hline. unfold processLine, determineLineType. rewrite Hcode, Hline. names.
  cbn [position document]. destruct (insertFormattedText line (position st)); reflexivity.
Qed.

(** So does the fence that opens one. *)
Lemma processLine_fence lines index line st :
  inCodeBlock (context st) = false -> matches codeBlock line = true ->
  processLine lines index line st
  = Returns {| context := setInCodeBlock true (context st); linkLastIndex := 0;
               position := snd (insertFormattedText line (position st));
               document := document st ++ [fst (insertFormattedText line (position st))] |}.
Proof.
  intros Hcode Hline. unfold processLine, determineLineType. rewrite Hcode, Hline. names.
  cbn [position document]. destruct (insertFormattedText line (position st)); reflexivity.
Qed.

Lemma forEach_code_content lines content : forall index st,
  inCodeBlock (context st) = true ->
  Forall (fun line => matches codeBlock line = false) content ->
  exists st', forEach lines index content st = Returns st'
    /\ context st' = context st
    /\ document st'
       = document st ++ List.map (fun line => fst (insertFormattedText line Undefined)) content.
Proof.
  induction content as [|line content IH]; intros index st Hcode Hall; cbn [forEach List.map].
  - exists st. rewrite app_nil_r. auto.
  - apply Forall_cons_1 in Hall as [Hline Hall].
    rewrite (processLine_code_content lines index line st Hcode Hline).
    edestruct (IH (S index)) as (st' & Hrun & Hctx & Hdoc); [| exact Hall |].
    2: { exists st'. split; [exact Hrun|]. split; [exact Hctx|].
         rewrite Hdoc. cbn [document]. rewrite <- app_assoc.
         rewrite (insertFormattedText_fst line (position st) Undefined). reflexivity. }
    exact Hcode.
Qed.

End LineFacts.

Import JS Re MarkdownUtils LineParser.

(** X20.  [determineLineType] returns one of eleven names, and neither
    "list" nor "codeBlock" is among them: the cases of the [switch] that call
    [MarkdownUtils.insertList] and [MarkdownUtils.insertCodeBlock] are never
    taken. *)
Theorem determineLineType_never_list_nor_codeBlock (line : jsstring) (c : Context)
    (lastIndex : nat) :
  In (fst (fst (determineLineType line c lastIndex)))
     (List.map str ["codeBlockEnd"; "codeBlockContent"; "codeBlockStart"; "heading";
                    "listItem"; "blockquote"; "horizontalRule"; "table"; "footnote";
                    "link"; "paragraph"]%string)
  /\ named (fst (fst (determineLineType line c lastIndex))) "list" = false
  /\ named (fst (fst (determineLineType line c lastIndex))) "codeBlock" = false.
Proof.
  pose proof (LineFacts.determineLineType_type line c lastIndex) as H.
  split; [exact H|].
  cbn [List.map In] in H.
  destruct H as [<-|[<-|[<-|[<-|[<-|[<-|[<-|[<-|[<-|[<-|[<-|[]]]]]]]]]]]];
    split; vm_compute; reflexivity.
Qed.

(** X21.  The conversion never appends a list item, a table or a code
    paragraph, whatever the text: list item lines and the lines of a code
    block go to [insertFormattedText], and a table row ends the
    conversion. *)
Theorem no_list_table_or_code_element (markdownText : jsstring) (offset : Z)
    (lastIndex : nat) :
  Forall (fun e => listTableOrCode e = false)
    (document (stateOf (parseAndInsertMarkdown markdownText offset lastIndex))).
Proof.
  unfold parseAndInsertMarkdown.
  pose proof (LineFacts.forEach_keeps (split nl markdownText) (split nl markdownText) 0
                {| context := initialContext; linkLastIndex := lastIndex;
                   position := Number offset; document := [] |}
                eq_refl eq_refl (Forall_nil_2 _)) as H.
  destruct (forEach _ _ _ _) as [st|st]; cbn in H; destruct H as (Ht & Hc & Hd); [|exact Hd].
  unfold finalizeOpenElements. rewrite Hc.
  destruct (inCodeBlock (context st)); cbn; [exact Hd|].
  rewrite app_nil_r. exact Hd.
Qed.

(** X22.  A table row outside a code block ends the conversion with a
    [TypeError]: [MarkdownUtils.isTableSeparator] is not defined.  What the
    lines before the row have appended stays; the row and the lines behind it
    are not converted, and [finalizeOpenElements] is not reached. *)
Theorem table_row_ends_conversion (markdownText : jsstring) (before behind : list jsstring)
    (cells : jsstring) (offset : Z) (lastIndex : nat) (st : State) :
  split nl markdownText = before ++ (str "|" ++ cells ++ str "|") :: behind ->
  cells <> [] -> forallb dot cells = true ->
  forEach (split nl markdownText) 0 before
    {| context := initialContext; linkLastIndex := lastIndex;
       position := Number offset; document := [] |} = Returns st ->
  inCodeBlock (context st) = false ->
  parseAndInsertMarkdown markdownText offset lastIndex = Raises st.
Proof.
  intros Hsplit Hne Hdot Hrun Hcode. unfold parseAndInsertMarkdown.
  pose proof (LineFacts.forEach_keeps (split nl markdownText) before 0
                {| context := initialContext; linkLastIndex := lastIndex;
                   position := Number offset; document := [] |}
                eq_refl eq_refl (Forall_nil_2 _)) as H.
  rewrite Hrun in H. cbn in H. destruct H as (Ht & _ & _).
  rewrite Hsplit at 2. rewrite LineFacts.forEach_app, Hrun. cbn [forEach].
  rewrite (LineFacts.processLine_row _ _ cells st Hcode Ht Hne Hdot). reflexivity.
Qed.

Lemma table_row_ends_conversion_witness :
  parseAndInsertMarkdown (str "Prices" ++ [nl] ++ str "|a|b|" ++ [nl] ++ str "more") 0 0
  = Raises {| context := initialContext; linkLastIndex := 0; position := Undefined;
              document := [Paragraph (str "Prices") []] |}.
Proof.
  apply (table_row_ends_conversion _ [str "Prices"] [str "more"] (str "a|b"));
    [reflexivity | discriminate | reflexivity | reflexivity | reflexivity].
Defined.

(** X23.  A code block that is not closed ends the conversion with a
    [TypeError], raised by [finalizeOpenElements]: [determineLineType] has set
    [context.inCodeBlock], and no function has ever written
    [context.codeBlockText].  By then the fence and the lines behind it have
    been appended by [insertFormattedText], each as a paragraph of its
    own. *)
Theorem open_code_block_ends_in_TypeError (markdownText : jsstring)
    (before content : list jsstring) (info : jsstring) (offset : Z) (lastIndex : nat)
    (st : State) :
  split nl markdownText = before ++ (str "```" ++ info) :: content ->
  Forall (fun line => startsWith (str "```") line = false) content ->
  forEach (split nl markdownText) 0 before
    {| context := initialContext; linkLastIndex := lastIndex;
       position := Number offset; document := [] |} = Returns st ->
  inCodeBlock (context st) = false ->
  exists st',
    parseAndInsertMarkdown markdownText offset lastIndex = Raises st'
    /\ document st'
       = document st
         ++ List.map (fun line => fst (insertFormattedText line Undefined))
              ((str "```" ++ info) :: content).
Proof.
  intros Hsplit Hcontent Hrun Hcode. unfold parseAndInsertMarkdown.
  pose proof (LineFacts.forEach_keeps (split nl markdownText) before 0
                {| context := initialContext; linkLastIndex := lastIndex;
                   position := Number offset; document := [] |}
                eq_refl eq_refl (Forall_nil_2 _)) as H.
  rewrite Hrun in H. cbn in H. destruct H as (_ & Hc & _).
  destruct (LineFacts.forEach_code_content (split nl markdownText) content
              (S (0 + List.length before))
              {| context := setInCodeBlock true (context st); linkLastIndex := 0;
                 position := snd (insertFormattedText (str "```" ++ info) (position st));
                 document := document st
                             ++ [fst (insertFormattedText (str "```" ++ info) (position st))] |})
    as (st' & Hrun' & Hctx & Hdoc).
  { reflexivity. }
  { eapply List.Forall_impl; [|exact Hcontent]. intros line Hline.
    rewrite LineFacts.codeBlock_startsWith. exact Hline. }
  exists st'.
  rewrite Hsplit at 2. rewrite LineFacts.forEach_app, Hrun. cbn [forEach].
  rewrite (LineFacts.processLine_fence _ _ (str "```" ++ info) st Hcode)
    by (rewrite LineFacts.codeBlock_startsWith; reflexivity).
  rewrite Hrun'. unfold finalizeOpenElements. rewrite Hctx. cbn [context].
  cbn [setInCodeBlock inCodeBlock codeBlockText]. rewrite Hc.
  split; [reflexivity|]. rewrite Hdoc. cbn [document List.map].
  rewrite <- app_assoc.
  rewrite (LineFacts.insertFormattedText_fst _ (position st) Undefined). reflexivity.
Qed.

Lemma open_code_block_witness :
  exists st',
    parseAndInsertMarkdown (str "Code:" ++ [nl] ++ str "```js" ++ [nl] ++ str "let x") 0 0
    = Raises st'
    /\ document st'
       = [Paragraph (str "Code:") []]
         ++ List.map (fun line => fst (insertFormattedText line Undefined))
              [str "```js"; str "let x"].
Proof.
  apply (open_code_block_ends_in_TypeError _ [str "Code:"] [str "let x"] (str "js") 0 0
           {| context := initialContext; linkLastIndex := 0; position := Undefined;
              document := [Paragraph (str "Code:") []] |});
    [reflexivity | repeat constructor | reflexivity | reflexivity].
Defined.

Module ClassifyFacts.
Import JS Re MarkdownUtils LineParser ReFacts InlineFacts AcceptFacts PlainFacts.

Lemma word_bounds c : isWordChar c = true -> 48 <= c <= 122.
Proof.
  unfold isWordChar, isDigit. intros H.
  repeat match type of H with
         | context [N.leb ?a ?b] => destruct (N.leb_spec a b)
         | context [N.eqb ?a ?b] => destruct (N.eqb_spec a b)
         end; cbn in H; try discriminate; lia.
Qed.

Lemma word_not_space c : isWordChar c = true -> isWhiteSpace c = false.
Proof.
  intros H. apply word_bounds in H. unfold isWhiteSpace.
  repeat match goal with
         | |- context [N.leb ?a ?b] => destruct (N.leb_spec a b); try lia
         | |- context [N.eqb ?a ?b] => destruct (N.eqb_spec a b); try lia
         end; reflexivity.
Qed.

Lemma word_not x c : isWordChar c = true -> isWordChar x = false -> x <> c.
Proof. intros Hc Hx ->. congruence. Qed.

(** A line that starts with a letter or "_" passes none of the tests that
    come before the link test. *)
Lemma word_start_tests c (r : jsstring) :
  isWordChar c = true -> isDigit c = false ->
  matches codeBlock (c :: r) = false /\ matches heading (c :: r) = false
  /\ matches listItem (c :: r) = false /\ matches blockquote (c :: r) = false
  /\ matches horizontalRule (c :: r) = false
  /\ matches table (c :: r) = false /\ matches tableSeparator (c :: r) = false
  /\ matches footnote (c :: r) = false.
Proof.
  intros Hw Hd.
  assert (Hlit : forall A x (p q : jsstring) (k : K A),
             q = x :: p -> isWordChar x = false -> matches (lit q k) (c :: r) = false).
  { intros A x p q k Hq Hx. unfold matches.
    rewrite (lit_other x p q k c r Hq (word_not x c Hw Hx)). reflexivity. }
  assert (Hhash : Parser.isHash c = false).
  { unfold Parser.isHash. apply N.eqb_neq. intros ->. discriminate. }
  assert (Hdash : Parser.isDash c = false).
  { unfold Parser.isDash. apply N.eqb_neq. intros ->. discriminate. }
  assert (Hbullet : isBullet c = false).
  { unfold isBullet. rewrite !orb_false_iff, !N.eqb_neq.
    repeat split; intros ->; discriminate. }
  repeat apply conj.
  - apply (Hlit _ 96 [96; 96]); reflexivity.
  - unfold matches, heading, capture, plus, one. rewrite Hhash. reflexivity.
  - unfold matches, listItem, capture. cbn [star]. rewrite (word_not_space c Hw).
    unfold alt, plus, one. rewrite Hbullet, Hd. reflexivity.
  - apply (Hlit _ 62 []); reflexivity.
  - unfold matches, horizontalRule. cbn [exactly]. unfold one. rewrite Hdash. reflexivity.
  - apply (Hlit _ 124 []); reflexivity.
  - unfold matches, tableSeparator.
    rewrite (lit_other 124 [] (str "|") _ c r eq_refl (word_not 124 c Hw eq_refl)).
    reflexivity.
  - apply (Hlit _ 91 [94]); reflexivity.
Qed.

Lemma execFrom_hit {D} (m : jsstring -> option (D * nat)) i (s : jsstring) d len :
  m s = Some (d, len) -> execFrom m i s = Some (i + len)%nat.
Proof. intros H. destruct s; cbn; rewrite H; reflexivity. Qed.

Lemma execFrom_skip {D} (m : jsstring -> option (D * nat)) a (pre s : jsstring) : forall i,
  (forall c t, c <> a -> m (c :: t) = None) ->
  Forall (fun c => c <> a) pre ->
  execFrom m i (pre ++ s) = execFrom m (i + List.length pre) s.
Proof.
  intros i Hm Hpre. revert i. induction Hpre as [|c pre Hc Hpre IH]; intros i.
  - cbn. rewrite Nat.add_0_r. reflexivity.
  - cbn [app execFrom List.length]. rewrite (Hm c _ Hc), IH. f_equal. lia.
Qed.

Lemma execFrom_absent {D} (m : jsstring -> option (D * nat)) a (s : jsstring) : forall i,
  (forall c t, c <> a -> m (c :: t) = None) -> m [] = None ->
  Forall (fun c => c <> a) s ->
  execFrom m i s = None.
Proof.
  intros i Hm Hnil Hs. revert i. induction Hs as [|c s Hc Hs IH]; intros i.
  - cbn. rewrite Hnil. reflexivity.
  - cbn [execFrom]. rewrite (Hm c _ Hc). apply IH.
Qed.

Lemma link_matches (text url post : jsstring) :
  text <> [] -> forallb Parser.notRBracket text = true ->
  url <> [] -> forallb (fun c => negb (c =? 41)) url = true ->
  matchLen link (str "[" ++ text ++ str "](" ++ url ++ str ")" ++ post)
  = Some ((text, url), List.length (str "[" ++ text ++ str "](" ++ url ++ str ")")).
Proof.
  intros Ht1 Ht2 Hu1 Hu2. unfold matchLen, link. rewrite MoreFacts.lit_prefix.
  rewrite (capture_plus_run _ _ text (str "](" ++ url ++ str ")" ++ post) ((text, url), post));
    [| assumption | assumption | reflexivity |].
  - f_equal. f_equal. rewrite !length_app. lia.
  - rewrite MoreFacts.lit_prefix.
    apply capture_plus_run; [assumption | assumption | reflexivity |].
    rewrite MoreFacts.lit_prefix. reflexivity.
Qed.

Lemma link_head c (t : jsstring) : c <> 91 -> matchLen link (c :: t) = None.
Proof. intros H. apply (matchLen_lit_head 91 [] _ c t H). Qed.

End ClassifyFacts.

(** X24.  [determineLineType] is not a function of the line and the context
    alone: [regex.link] has the [g] flag, so its [test] starts where the last
    match ended.  A line with one inline link (behind a word, with no other
    "[") is classified "link", and the same line, classified again at once,
    "paragraph"; the next time it is "link" again. *)
Theorem link_line_classified_in_turns (c : char) (before text url behind : jsstring)
    (context : Context) :
  inCodeBlock context = false ->
  isWordChar c = true -> isDigit c = false ->
  Forall (fun x => x <> 91) before -> Forall (fun x => x <> 91) behind ->
  text <> [] -> forallb Parser.notRBracket text = true ->
  url <> [] -> forallb (fun x => negb (x =? 41)) url = true ->
  let line := (c :: before) ++ (str "[" ++ text ++ str "](" ++ url ++ str ")") ++ behind in
  let lastIndex := List.length ((c :: before) ++ str "[" ++ text ++ str "](" ++ url ++ str ")") in
  determineLineType line context 0 = (str "link", context, lastIndex)
  /\ determineLineType line context lastIndex = (str "paragraph", context, 0%nat).
Proof.
  intros Hcode Hw Hd Hbefore Hbehind Ht1 Ht2 Hu1 Hu2 line lastIndex.
  assert (Hc : c <> 91) by (intros ->; discriminate).
  assert (Hclass : forall i,
            determineLineType line context i
            = let '(hit, i') := testGlobal (matchLen link) i line in
              if hit then (str "link", context, i') else (str "paragraph", context, i')).
  { intros i. unfold determineLineType. rewrite Hcode.
    change line with (c :: (before ++ (str "[" ++ text ++ str "](" ++ url ++ str ")") ++ behind)).
    destruct (ClassifyFacts.word_start_tests c
                (before ++ (str "[" ++ text ++ str "](" ++ url ++ str ")") ++ behind) Hw Hd)
      as (-> & -> & -> & -> & -> & -> & -> & ->).
    reflexivity. }
  assert (Hlink : matchLen link ((str "[" ++ text ++ str "](" ++ url ++ str ")") ++ behind)
                  = Some ((text, url),
                          List.length (str "[" ++ text ++ str "](" ++ url ++ str ")"))).
  { rewrite <- (ClassifyFacts.link_matches text url behind Ht1 Ht2 Hu1 Hu2).
    rewrite <- !app_assoc. reflexivity. }
  split; rewrite Hclass; unfold testGlobal.
  - change (List.skipn 0 line) with line.
    replace (List.length line <? 0)%nat with false by (symmetry; apply Nat.ltb_ge; lia).
    unfold line.
    rewrite (ClassifyFacts.execFrom_skip _ 91 (c :: before) _ 0
               (fun x t Hx => ClassifyFacts.link_head x t Hx) ltac:(constructor; assumption)).
    rewrite (ClassifyFacts.execFrom_hit _ _ _ _ _ Hlink).
    unfold lastIndex. rewrite (length_app (c :: before)). reflexivity.
  - assert (Hlen : (List.length line <? lastIndex)%nat = false).
    { apply Nat.ltb_ge. unfold line, lastIndex. rewrite !length_app. cbn. lia. }
    rewrite Hlen.
    assert (Hskip : List.skipn lastIndex line = behind).
    { unfold line, lastIndex. rewrite (app_assoc (c :: before) _ behind).
      apply drop_app_length. }
    rewrite Hskip.
    rewrite (ClassifyFacts.execFrom_absent _ 91 behind lastIndex
               (fun x t Hx => ClassifyFacts.link_head x t Hx) eq_refl Hbehind).
    reflexivity.
Qed.

Lemma link_line_classified_in_turns_witness :
  determineLineType (str "see [docs](http://x.y) now") initialContext 0
  = (str "link", initialContext, 22%nat)
  /\ determineLineType (str "see [docs](http://x.y) now") initialContext 22
     = (str "paragraph", initialContext, 0%nat).
Proof.
  apply (link_line_classified_in_turns 115 (str "ee ") (str "docs") (str "http://x.y")
           (str " now") initialContext);
    first [reflexivity | discriminate | repeat constructor; discriminate].
Defined.

(** X25.  [finalizeOpenElements] throws exactly when a code block is open
    and [context.codeBlockText] was never written.  When it returns, no table
    and no blockquote is open, the position is stored, and a second call
    appends nothing and leaves the context as it is. *)
Theorem finalizeOpenElements_settles (position : Position) (context : Context) :
  (finalizeOpenElements position context = Raised
   <-> inCodeBlock context = true /\ codeBlockText context = None)
  /\ forall context' elements,
       finalizeOpenElements position context = Normal (context', elements) ->
       inTable context' = false /\ inBlockquote context' = false
       /\ insertionPosition context' = Some position
       /\ finalizeOpenElements position context' = Normal (context', []).
Proof.
  split.
  - unfold finalizeOpenElements.
    destruct (inCodeBlock context), (codeBlockText context) as [[|]|]; cbn;
      split; try discriminate; try (intros [? ?]; discriminate); auto.
  - intros context' elements. unfold finalizeOpenElements.
    destruct context as [iL lL iT iB iC cT tD cL tR iS cC iP tC]. cbn.
    destruct iC, cT as [[|]|]; cbn; try discriminate; intros [= <- <-]; cbn;
      (repeat split; [idtac]);
      destruct cL as [level|]; cbn; try reflexivity;
      destruct (0 <? level)%Z eqn:E; cbn; rewrite ?E; destruct iT; reflexivity.
Qed.


Module UtilsHeadingFacts.
Import JS Re MarkdownUtils LineParser ReFacts InlineFacts AcceptFacts.

Lemma heading_matches (n : nat) (ws text : jsstring) :
  (0 < n)%nat -> ws <> [] -> forallb isWhiteSpace ws = true ->
  forallb dot text = true ->
  match text with c :: _ => isWhiteSpace c = false | [] => True end ->
  heading (repeat 35 n ++ ws ++ text) = Some (repeat 35 n, text).
Proof.
  intros Hn Hws1 Hws2 Hdot Htext. unfold heading.
  apply capture_plus_run.
  - destruct n; [lia | discriminate].
  - apply HeadingFacts.hashes_all.
  - destruct ws as [|w ws]; [congruence|]. cbn in Hws2. apply andb_prop in Hws2 as [Hw _].
    cbn. apply HeadingFacts.whitespace_not_hash. exact Hw.
  - destruct ws as [|w ws]; [congruence|]. cbn in Hws2. apply andb_prop in Hws2 as [Hw Hws2].
    unfold plus, one. cbn [app]. rewrite Hw.
    apply star_run; [exact Hws2 | exact Htext |].
    unfold capture. apply MoreFacts.star_to_end; [exact Hdot|].
    rewrite MoreFacts.firstn_whole. reflexivity.
Qed.

(** The separator group, [(:?-+:?)]: what it consumes is not empty and holds
    only ":" and "-". *)
Lemma separator_group {A} (k : K A) (s : jsstring) :
  is_Some (opt (lit (str ":")) (plus Parser.isDash (opt (lit (str ":")) k)) s) ->
  exists a r, s = a ++ r /\ a <> [] /\ forallb dot a = true /\ is_Some (k r).
Proof.
  assert (Hdash : forall a, forallb Parser.isDash a = true -> forallb dot a = true).
  { intros a. induction a as [|c a IH]; [reflexivity|]. cbn. intros H.
    apply andb_prop in H as [Hc Ha]. unfold Parser.isDash in Hc. apply N.eqb_eq in Hc.
    subst c. rewrite (IH Ha). reflexivity. }
  assert (Htail : forall t, is_Some (opt (lit (str ":")) k t) ->
            exists b r, t = b ++ r /\ forallb dot b = true /\ is_Some (k r)).
  { intros t Ht. unfold opt in Ht. apply alt_accepts in Ht as [Ht|Ht].
    - apply lit_accepts in Ht as (r & -> & Hk). exists (str ":"), r. auto.
    - exists [], t. auto. }
  assert (Hrun : forall t, is_Some (plus Parser.isDash (opt (lit (str ":")) k) t) ->
            exists a r, t = a ++ r /\ a <> [] /\ forallb dot a = true /\ is_Some (k r)).
  { intros t Ht. apply plus_accepts in Ht as (a & u & -> & Hne & Ha & Hu).
    apply Htail in Hu as (b & r & -> & Hb & Hk).
    exists (a ++ b), r. rewrite <- app_assoc. split; [reflexivity|].
    split; [destruct a; [congruence | discriminate]|].
    split; [|exact Hk]. rewrite forallb_app, (Hdash a Ha), Hb. reflexivity. }
  intros H. unfold opt in H. apply alt_accepts in H as [H|H].
  - apply lit_accepts in H as (t & -> & Ht). apply Hrun in Ht as (a & r & -> & Hne & Ha & Hk).
    exists (str ":" ++ a), r. split; [reflexivity|]. split; [discriminate|].
    split; [|exact Hk]. cbn. exact Ha.
  - apply Hrun. exact H.
Qed.

Lemma many1_separator {A} fuel (k : K A) : forall s,
  is_Some (many1 fuel
             (fun k => opt (lit (str ":")) (plus Parser.isDash (opt (lit (str ":")) k))) k s) ->
  exists a r, s = a ++ r /\ a <> [] /\ forallb dot a = true /\ is_Some (k r).
Proof.
  induction fuel as [|fuel IH]; intros s H; cbn [many1] in H.
  - destruct H as [? [=]].
  - apply separator_group in H as (a & r & -> & Hne & Ha & Hk).
    destruct (many1 fuel _ k r) as [x|] eqn:Hmore.
    + destruct (IH r) as (b & r' & -> & _ & Hb & Hk'); [rewrite Hmore; eauto|].
      exists (a ++ b), r'. rewrite <- app_assoc. split; [reflexivity|].
      split; [destruct a; [congruence | discriminate]|].
      split; [|exact Hk']. rewrite forallb_app, Ha, Hb. reflexivity.
    + exists a, r. auto.
Qed.

End UtilsHeadingFacts.

(** X26.  Outside a code block a line of hashes, white space and a text is
    appended as a paragraph of the text on which [setHeading] is called with
    the name "HEADING" and the number of hashes, whatever that number is (it
    is not bounded by 6); the styling calls are those of
    [applyBasicFormatting] on that text, and [position] is [undefined]
    afterwards. *)
Theorem heading_line_appended (lines : list jsstring) (index n : nat) (ws text : jsstring)
    (st : State) :
  inCodeBlock (context st) = false ->
  (0 < n)%nat -> ws <> [] -> forallb isWhiteSpace ws = true ->
  forallb dot text = true ->
  match text with c :: _ => isWhiteSpace c = false | [] => True end ->
  processLine lines index (repeat 35 n ++ ws ++ text) st
  = Returns {| context := context st; linkLastIndex := linkLastIndex st;
               position := Undefined;
               document := document st
                           ++ [HeadingParagraph n text (applyBasicFormatting text text)] |}.
Proof.
  intros Hcode Hn Hws1 Hws2 Hdot Htext.
  pose proof (UtilsHeadingFacts.heading_matches n ws text Hn Hws1 Hws2 Hdot Htext) as Hh.
  unfold processLine, determineLineType. rewrite Hcode.
  assert (Hfence : matches codeBlock (repeat 35 n ++ ws ++ text) = false).
  { destruct n; [lia|]. reflexivity. }
  rewrite Hfence. unfold matches at 1. rewrite Hh. LineFacts.names.
  unfold insertHeading. rewrite Hh. unfold appended. cbn [context linkLastIndex document].
  rewrite repeat_length. reflexivity.
Qed.

Lemma heading_line_appended_witness :
  processLine [] 0 (repeat 35 7 ++ str " " ++ str "Deep")
    {| context := initialContext; linkLastIndex := 0; position := Number 0; document := [] |}
  = Returns {| context := initialContext; linkLastIndex := 0; position := Undefined;
               document := [HeadingParagraph 7 (str "Deep") []] |}.
Proof.
  apply (heading_line_appended [] 0 7 (str " ") (str "Deep")
           {| context := initialContext; linkLastIndex := 0; position := Number 0;
              document := [] |});
    first [reflexivity | discriminate | lia].
Defined.

(** X27.  Every line [regex.tableSeparator] matches is matched by
    [regex.table] as well: the second test of the table branch of
    [determineLineType] never decides. *)
Theorem tableSeparator_is_table (line : jsstring) :
  matches tableSeparator line = true -> matches table line = true.
Proof.
  intros H. apply LineFacts.matches_true in H. unfold tableSeparator in H.
  apply ReFacts.lit_accepts in H as (s & -> & H).
  apply UtilsHeadingFacts.many1_separator in H as (a & r & -> & Hne & Ha & Hk).
  apply ReFacts.lit_accepts in Hk as (r' & -> & Hk).
  apply ReFacts.eos_accepts in Hk as [-> _].
  apply (LineFacts.row_is_table a Hne Ha).
Qed.

Lemma tableSeparator_is_table_witness :
  matches tableSeparator (str "|:--:|") = true /\ matches table (str "|:--:|") = true.
Proof.
  split; [reflexivity|]. apply (tableSeparator_is_table (str "|:--:|")). reflexivity.
Defined.

Module ItemFacts.
Import JS Re MarkdownUtils LineParser ReFacts InlineFacts AcceptFacts.

Lemma capture_star_run {A} p (k : jsstring -> K A) (a r : jsstring) x :
  forallb p a = true ->
  match r with c :: _ => p c = false | [] => True end ->
  k a r = Some x ->
  capture (star p) k (a ++ r) = Some x.
Proof.
  intros Ha Hr Hk. unfold capture. apply star_run; [exact Ha | exact Hr |].
  rewrite firstn_consumed. exact Hk.
Qed.

(** White space and then the rest of the line, [\s+(.* )]. *)
Lemma space_then_text {A} (f : jsstring -> A) (ws text : jsstring) :
  ws <> [] -> forallb isWhiteSpace ws = true ->
  forallb dot text = true ->
  match text with c :: _ => isWhiteSpace c = false | [] => True end ->
  plus isWhiteSpace (capture (star dot) (fun t _ => Some (f t))) (ws ++ text) = Some (f text).
Proof.
  intros Hws1 Hws2 Hdot Htext.
  destruct ws as [|w ws]; [congruence|]. cbn in Hws2. apply andb_prop in Hws2 as [Hw Hws2].
  unfold plus, one. cbn [app]. rewrite Hw.
  apply star_run; [exact Hws2 | exact Htext |].
  unfold capture. apply MoreFacts.star_to_end; [exact Hdot|].
  rewrite MoreFacts.firstn_whole. reflexivity.
Qed.

Lemma bullet_cases b : isBullet b = true -> b = 42 \/ b = 45 \/ b = 43.
Proof.
  unfold isBullet. rewrite !orb_true_iff, !N.eqb_eq. tauto.
Qed.

Lemma listItem_matches (indent : jsstring) b (ws text : jsstring) :
  forallb isWhiteSpace indent = true -> isBullet b = true ->
  ws <> [] -> forallb isWhiteSpace ws = true ->
  forallb dot text = true ->
  match text with c :: _ => isWhiteSpace c = false | [] => True end ->
  listItem (indent ++ [b] ++ ws ++ text) = Some (indent, [b], text).
Proof.
  intros Hi Hb Hws1 Hws2 Hdot Htext. unfold listItem.
  apply capture_star_run; [exact Hi | |].
  - cbn. destruct (bullet_cases b Hb) as [->|[->| ->]]; reflexivity.
  - unfold capture at 1, alt, one. cbn [app]. rewrite Hb.
    replace (List.length (b :: ws ++ text) - List.length (ws ++ text))%nat with 1%nat
      by (cbn [List.length]; lia).
    change (List.firstn 1 (b :: ws ++ text)) with [b].
    pose proof (space_then_text (fun t => (indent, [b], t)) ws text Hws1 Hws2 Hdot Htext) as E.
    match goal with
    | |- match ?t with _ => _ end = _ =>
        assert (E' : t = Some (indent, [b], text)) by exact E; rewrite E'
    end.
    reflexivity.
Qed.

Lemma quote_tests (r : jsstring) :
  matches codeBlock (62 :: r) = false /\ matches heading (62 :: r) = false
  /\ matches listItem (62 :: r) = false.
Proof. repeat split. Qed.

End ItemFacts.

(** X28.  [MarkdownUtils.insertList] gives a bullet item the text behind the
    marker and calls [setNestingLevel] with half the number of the
    white-space characters before the marker: with an odd number of them the
    level it asks for is no whole number. *)
Theorem insertList_level_is_half_the_indentation (indent : jsstring) (b : char)
    (ws text : jsstring) :
  forallb isWhiteSpace indent = true -> isBullet b = true ->
  ws <> [] -> forallb isWhiteSpace ws = true ->
  forallb dot text = true ->
  match text with c :: _ => isWhiteSpace c = false | [] => True end ->
  MarkdownUtils.insertList (indent ++ [b] ++ ws ++ text)
  = [Item text (inject_Z (Z.of_nat (List.length indent)) / 2)%Q false].
Proof.
  intros Hi Hb Hws1 Hws2 Hdot Htext. unfold MarkdownUtils.insertList.
  rewrite (ItemFacts.listItem_matches indent b ws text Hi Hb Hws1 Hws2 Hdot Htext).
  destruct (ItemFacts.bullet_cases b Hb) as [->|[->| ->]]; reflexivity.
Qed.

Lemma insertList_level_witness :
  MarkdownUtils.insertList (str "   " ++ [45] ++ str " " ++ str "milk")
  = [Item (str "milk") (inject_Z 3 / 2)%Q false].
Proof.
  apply (insertList_level_is_half_the_indentation (str "   ") 45 (str " ") (str "milk"));
    first [reflexivity | discriminate].
Defined.

(** X29.  Outside a code block a line that starts with ">" is appended at
    once as a paragraph of its own, with the marker and the white space
    behind it removed: the converter does not gather the lines of a
    blockquote. *)
Theorem quote_line_appended_at_once (lines : list jsstring) (index : nat)
    (ws text : jsstring) (st : State) :
  inCodeBlock (context st) = false ->
  forallb isWhiteSpace ws = true ->
  forallb dot text = true ->
  match text with c :: _ => isWhiteSpace c = false | [] => True end ->
  processLine lines index (str ">" ++ ws ++ text) st
  = Returns {| context := context st; linkLastIndex := linkLastIndex st;
               position := Undefined;
               document := document st ++ [BlockquoteParagraph text] |}.
Proof.
  intros Hcode Hws Hdot Htext.
  assert (Hq : blockquote (str ">" ++ ws ++ text) = Some text).
  { unfold blockquote. rewrite MoreFacts.lit_prefix.
    apply InlineFacts.star_run; [exact Hws | exact Htext |].
    unfold capture. apply MoreFacts.star_to_end; [exact Hdot|].
    rewrite MoreFacts.firstn_whole. reflexivity. }
  unfold processLine, determineLineType. rewrite Hcode.
  change (str ">" ++ ws ++ text) with (62 :: ws ++ text) in *.
  destruct (ItemFacts.quote_tests (ws ++ text)) as (-> & -> & ->).
  unfold matches at 1. rewrite Hq. LineFacts.names.
  unfold insertBlockquote. rewrite Hq. reflexivity.
Qed.

Lemma quote_line_appended_witness :
  processLine [] 0 (str ">" ++ str " " ++ str "so it goes")
    {| context := initialContext; linkLastIndex := 0; position := Number 0; document := [] |}
  = Returns {| context := initialContext; linkLastIndex := 0; position := Undefined;
               document := [BlockquoteParagraph (str "so it goes")] |}.
Proof.
  apply (quote_line_appended_at_once [] 0 (str " ") (str "so it goes")
           {| context := initialContext; linkLastIndex := 0; position := Number 0;
              document := [] |});
    reflexivity.
Defined.

(** X30.  Outside a code block a bullet line is not made a list item: it
    goes to [insertFormattedText], which appends the whole line, white space
    and marker included, as a paragraph, and sets [regex.link.lastIndex] to
    0. *)
Theorem bullet_line_appended_as_text (lines : list jsstring) (index : nat)
    (indent : jsstring) (b : char) (ws text : jsstring) (st : State) :
  inCodeBlock (context st) = false ->
  forallb isWhiteSpace indent = true -> isBullet b = true ->
  ws <> [] -> forallb isWhiteSpace ws = true ->
  forallb dot text = true ->
  match text with c :: _ => isWhiteSpace c = false | [] => True end ->
  exists calls,
    processLine lines index (indent ++ [b] ++ ws ++ text) st
    = Returns {| context := context st; linkLastIndex := 0;
                 position := snd (insertFormattedText (indent ++ [b] ++ ws ++ text)
                                    (position st));
                 document := document st
                             ++ [FormattedText (indent ++ [b] ++ ws ++ text) calls] |}.
Proof.
  intros Hcode Hi Hb Hws1 Hws2 Hdot Htext.
  pose proof (ItemFacts.listItem_matches indent b ws text Hi Hb Hws1 Hws2 Hdot Htext) as Hitem.
  destruct (LineFacts.insertFormattedText_element (indent ++ [b] ++ ws ++ text) (position st))
    as [calls Hcalls].
  exists calls. rewrite <- Hcalls. clear Hcalls.
  assert (Hhead : exists c r, indent ++ [b] ++ ws ++ text = c :: r /\ c <> 96 /\ c <> 35).
  { destruct indent as [|w indent].
    - exists b, (ws ++ text). split; [reflexivity|].
      destruct (ItemFacts.bullet_cases b Hb) as [->|[->| ->]]; split; discriminate.
    - exists w, (indent ++ [b] ++ ws ++ text). split; [reflexivity|].
      cbn in Hi. apply andb_prop in Hi as [Hw _]. split; intros ->; discriminate. }
  destruct Hhead as (c & r & Hline & H96 & H35).
  assert (Hfence : matches codeBlock (indent ++ [b] ++ ws ++ text) = false).
  { rewrite Hline. unfold matches, codeBlock.
    rewrite (AcceptFacts.lit_other 96 [96; 96] (str "```") _ c r eq_refl); [reflexivity|].
    congruence. }
  assert (Hheading : matches heading (indent ++ [b] ++ ws ++ text) = false).
  { rewrite Hline. unfold matches, heading, capture, plus, one, Parser.isHash.
    destruct (N.eqb_spec c 35); [congruence | reflexivity]. }
  unfold processLine, determineLineType. rewrite Hcode, Hfence, Hheading.
  unfold matches at 1. rewrite Hitem. LineFacts.names.
  cbn [position document]. destruct (insertFormattedText _ (position st)); reflexivity.
Qed.

Lemma bullet_line_appended_witness :
  exists calls,
    processLine [] 0 (str "  " ++ [45] ++ str " " ++ str "milk")
      {| context := initialContext; linkLastIndex := 0; position := Number 4; document := [] |}
    = Returns {| context := initialContext; linkLastIndex := 0;
                 position := snd (insertFormattedText
                                    (str "  " ++ [45] ++ str " " ++ str "milk") (Number 4));
                 document := [] ++ [FormattedText (str "  " ++ [45] ++ str " " ++ str "milk")
                                      calls] |}.
Proof.
  apply (bullet_line_appended_as_text [] 0 (str "  ") 45 (str " ") (str "milk")
           {| context := initialContext; linkLastIndex := 0; position := Number 4;
              document := [] |});
    first [reflexivity | discriminate].
Defined.
